(** * SideQuestMarket: the production build script, [build-production.js]

    A shallow embedding of [ProductionBuilder]: the text transforms
    ([minifyCSSContent], [minifyJSContent], the critical-CSS extractor and
    the HTML rewriter) over JavaScript strings, and the build stages over a
    file system that is passed explicitly.

    JavaScript strings are sequences of UTF-16 code units; the regular
    expressions of the script carry no [u] flag, so they work on code units.
    The built-ins the script calls ([String.prototype.replace], [match],
    [trim], [Array.prototype.join], [RegExp]) are embedded after ECMA-262:
    a backtracking matcher that lists the ways a pattern can match in the
    order the engine tries them, [RegExpBuiltinExec] as a left-to-right
    search, the global loop of [RegExp.prototype[@@replace]] and
    [GetSubstitution] for replacement templates. *)

From Stdlib Require Import NArith Ascii String List Bool Lia.
From stdpp Require Import gmap list.
Import ListNotations.

Local Open Scope list_scope.

(** ** Strings *)

(** A code unit. *)
Abbreviation char := N (only parsing).

(** A JavaScript string. *)
Abbreviation jsstring := (list N) (only parsing).

(** String literals of the script, written as Rocq strings. *)
Definition js (s : string) : jsstring :=
  map N_of_ascii (list_ascii_of_string s).

(** The same with a backquote standing for the double quote. *)
Definition jsq (s : string) : jsstring :=
  map (fun c => if (c =? 96)%N then 34%N else c) (js s).

(** [WhiteSpace] and [LineTerminator] of ECMA-262: what [\s] matches and
    what [trim] strips. *)
Definition isSpace (c : char) : bool :=
  ((c =? 9) || (c =? 10) || (c =? 11) || (c =? 12) || (c =? 13) || (c =? 32)
   || (c =? 160) || (c =? 5760) || ((8192 <=? c) && (c <=? 8202))
   || (c =? 8232) || (c =? 8233) || (c =? 8239) || (c =? 8287)
   || (c =? 12288) || (c =? 65279))%N.

Definition isDigit (c : char) : bool := ((48 <=? c) && (c <=? 57))%N.

(** [String.prototype.trim]. *)
Fixpoint trimStart (s : jsstring) : jsstring :=
  match s with
  | c :: t => if isSpace c then trimStart t else s
  | [] => []
  end.

Definition trimEnd (s : jsstring) : jsstring := rev (trimStart (rev s)).

Definition trim (s : jsstring) : jsstring := trimEnd (trimStart s).

(** [Array.prototype.join('')]. *)
Definition join (l : list jsstring) : jsstring := concat l.

(** ** Regular expressions *)

(** Members of a character class. *)
Inductive citem :=
| CChar (c : char)      (* a single character *)
| CSpace                (* \s *)
| CNotSpace.            (* \S *)

Definition citem_match (x : char) (i : citem) : bool :=
  match i with
  | CChar c => (x =? c)%N
  | CSpace => isSpace x
  | CNotSpace => negb (isSpace x)
  end.

(** The pattern syntax the script uses. *)
Inductive regex :=
| Eps
| Chr (c : char)                          (* a pattern character *)
| Cls (neg : bool) (items : list citem)   (* [...] and [^...] *)
| Seq (r1 r2 : regex)
| Star (greedy : bool) (r : regex)        (* r* and r*? *)
| Opt (r : regex)                         (* r? *)
| NegLook (r : regex)                     (* (?!r) *)
| Group (r : regex).                      (* (r), the only capture group *)

Definition Plus (r : regex) : regex := Seq r (Star true r).

Fixpoint Lit (s : jsstring) : regex :=
  match s with
  | [] => Eps
  | c :: t => Seq (Chr c) (Lit t)
  end.

Fixpoint ngroups (r : regex) : nat :=
  match r with
  | Eps | Chr _ | Cls _ _ => 0
  | Seq r1 r2 => ngroups r1 + ngroups r2
  | Star _ r1 | Opt r1 | NegLook r1 => ngroups r1
  | Group r1 => S (ngroups r1)
  end.

(** A matcher state: the input that is left and the capture of group 1. *)
Abbreviation mstate := (list N * option (list N))%type (only parsing).

Definition progress (s : jsstring) (st : mstate) : bool :=
  length (fst st) <? length s.

(** [run r s cap] lists the states in which [r] can finish when started on
    [s], in the order a backtracking engine reaches them: the head is the
    match the engine reports.  An iteration of a quantifier that consumes
    nothing is rejected (RepeatMatcher, step 2.b). *)
Fixpoint run (r : regex) (s : jsstring) (cap : option jsstring) : list mstate :=
  match r with
  | Eps => [(s, cap)]
  | Chr c =>
      match s with
      | x :: s' => if (x =? c)%N then [(s', cap)] else []
      | [] => []
      end
  | Cls neg items =>
      match s with
      | x :: s' => if xorb neg (existsb (citem_match x) items) then [(s', cap)] else []
      | [] => []
      end
  | Seq r1 r2 => flat_map (fun st => run r2 (fst st) (snd st)) (run r1 s cap)
  | Star greedy r1 =>
      (fix loop (fuel : nat) (s : jsstring) (cap : option jsstring) : list mstate :=
         match fuel with
         | O => [(s, cap)]
         | S fuel' =>
             let more :=
               flat_map (fun st => if progress s st
                                   then loop fuel' (fst st) (snd st) else [])
                        (run r1 s cap) in
             if greedy then more ++ [(s, cap)] else (s, cap) :: more
         end) (length s) s cap
  | Opt r1 => List.filter (progress s) (run r1 s cap) ++ [(s, cap)]
  | NegLook r1 =>
      match run r1 s cap with
      | [] => [(s, cap)]
      | _ :: _ => []
      end
  | Group r1 =>
      map (fun st => (fst st, Some (take (length s - length (fst st)) s)))
          (run r1 s cap)
  end.

(** The result of one successful [exec]: where the match starts, what it
    matched and the captures. *)
Record result := mkResult {
  index : nat;
  matched : jsstring;
  captures : list (option jsstring)
}.

Definition mkCaptures (r : regex) (cap : option jsstring) : list (option jsstring) :=
  match ngroups r with
  | O => []
  | S _ => [cap]
  end.

(** [RegExpBuiltinExec] from [lastIndex = pos]: [s] is the input from
    [pos] on; the start positions are tried from left to right, the end
    of the input included. *)
Fixpoint exec (r : regex) (pos : nat) (s : jsstring) : option result :=
  match run r s None with
  | st :: _ =>
      Some (mkResult pos (take (length s - length (fst st)) s)
                     (mkCaptures r (snd st)))
  | [] =>
      match s with
      | [] => None
      | _ :: t => exec r (S pos) t
      end
  end.

(** The loop of a global regular expression: every match, each search
    starting where the last match ended, one further when it was empty. *)
Fixpoint execLoop (fuel : nat) (r : regex) (whole : jsstring) (pos : nat) : list result :=
  match fuel with
  | O => []
  | S fuel' =>
      match exec r pos (drop pos whole) with
      | None => []
      | Some res =>
          let next := index res + length (matched res) in
          let next := if length (matched res) =? 0 then S next else next in
          res :: (if next <=? length whole
                  then execLoop fuel' r whole next else [])
      end
  end.

Definition execAll (r : regex) (s : jsstring) : list result :=
  execLoop (S (length s)) r s 0.

(** [GetSubstitution]: the replacement template with [$$], [$&], [$`], [$']
    and [$n] expanded. [pre] is the input before the match and [post] the
    input after it. *)
Definition digitVal (c : char) : nat := N.to_nat (c - 48)%N.

Fixpoint expand (tmpl : jsstring) (pre m post : jsstring)
                (caps : list (option jsstring)) : jsstring :=
  match tmpl with
  | [] => []
  | c :: t1 =>
      if negb (c =? 36)%N then c :: expand t1 pre m post caps
      else
        match t1 with
        | [] => [c]
        | d :: t2 =>
            if (d =? 36)%N then 36%N :: expand t2 pre m post caps
            else if (d =? 96)%N then pre ++ expand t2 pre m post caps
            else if (d =? 38)%N then m ++ expand t2 pre m post caps
            else if (d =? 39)%N then post ++ expand t2 pre m post caps
            else if isDigit d then
              let one :=
                if (1 <=? digitVal d) && (digitVal d <=? length caps)
                then default [] (nth (digitVal d - 1) caps None)
                       ++ expand t2 pre m post caps
                else c :: expand t1 pre m post caps in
              match t2 with
              | e :: t3 =>
                  let two := 10 * digitVal d + digitVal e in
                  if isDigit e && (two <=? length caps) then
                    if 1 <=? two
                    then default [] (nth (two - 1) caps None)
                           ++ expand t3 pre m post caps
                    else c :: expand t1 pre m post caps
                  else one
              | [] => one
              end
            else c :: expand t1 pre m post caps
        end
  end.

(** [RegExp.prototype[@@replace]] for a global pattern and a template:
    the results are collected first, then the output is accumulated from
    the text between the matches and the expanded template. *)
Definition replaceStep (tmpl whole : jsstring) (acc : jsstring * nat) (res : result)
  : jsstring * nat :=
  let '(out, nextSourcePosition) := acc in
  let position := index res in
  let matchLength := length (matched res) in
  if nextSourcePosition <=? position then
    (out ++ take (position - nextSourcePosition) (drop nextSourcePosition whole)
         ++ expand tmpl (take position whole) (matched res)
                   (drop (position + matchLength) whole) (captures res),
     position + matchLength)
  else acc.

Definition replaceRegex (r : regex) (tmpl : jsstring) (s : jsstring) : jsstring :=
  let '(out, nextSourcePosition) :=
    fold_left (replaceStep tmpl s) (execAll r s) ([], O) in
  out ++ drop nextSourcePosition s.

(** [String.prototype.match] with a global pattern: the matched strings,
    or [null] when there is none. *)
Definition matchRegex (r : regex) (s : jsstring) : option (list jsstring) :=
  match execAll r s with
  | [] => None
  | l => Some (map matched l)
  end.

(** [String.prototype.replace] with a string pattern: the first occurrence
    only. [splitAt pat s] is the text before and after that occurrence. *)
Fixpoint stripPrefix (pat s : jsstring) : option jsstring :=
  match pat, s with
  | [], _ => Some s
  | p :: pat', c :: s' => if (c =? p)%N then stripPrefix pat' s' else None
  | _ :: _, [] => None
  end.

Fixpoint splitAt (pat s : jsstring) : option (jsstring * jsstring) :=
  match stripPrefix pat s with
  | Some post => Some ([], post)
  | None =>
      match s with
      | [] => None
      | c :: t =>
          match splitAt pat t with
          | Some (pre, post) => Some (c :: pre, post)
          | None => None
          end
      end
  end.

Definition replaceString (pat tmpl s : jsstring) : jsstring :=
  match splitAt pat s with
  | None => s
  | Some (pre, post) => pre ++ expand tmpl pre pat post [] ++ post
  end.

(** [includes]: does [pat] occur in [s]? *)
Definition includes (pat s : jsstring) : bool :=
  match splitAt pat s with Some _ => true | None => false end.

(** ** The two minifiers *)

Definition space : regex := Cls false [CSpace].
Definition anyChar : regex := Cls false [CSpace; CNotSpace].
Definition notChar (c : char) : regex := Cls true [CChar c].
Definition oneOf (s : jsstring) : regex := Cls false (map CChar s).

(** [/\/\*[\s\S]*?\*\//g] *)
Definition reBlockComment : regex :=
  Seq (Lit (js "/*")) (Seq (Star false anyChar) (Lit (js "*/"))).

(** [/\s+/g] *)
Definition reSpaces : regex := Plus space.

(** [/\s*([{}:;,>+~])\s*/g] *)
Definition reCSSPunct : regex :=
  Seq (Star true space) (Seq (Group (oneOf (js "{}:;,>+~"))) (Star true space)).

(** [/;}/g] *)
Definition reSemiBrace : regex := Lit (js ";}").

(** [/\/\/(?![^\n]*https?:)[^\n]*/g] *)
Definition reUrlAhead : regex :=
  Seq (Star true (notChar 10)) (Seq (Lit (js "http")) (Seq (Opt (Chr 115)) (Chr 58))).

Definition reLineComment : regex :=
  Seq (Lit (js "//")) (Seq (NegLook reUrlAhead) (Star true (notChar 10))).

(** [/\s*([{}();,=+\-*/<>!&|])\s*/g] *)
Definition reJSPunct : regex :=
  Seq (Star true space)
      (Seq (Group (oneOf (js "{}();,=+-*/<>!&|"))) (Star true space)).

Definition minifyCSSContent (css : jsstring) : jsstring :=
  trim
    (replaceRegex reSemiBrace (js "}")
       (replaceRegex reCSSPunct (js "$1")
          (replaceRegex reSpaces (js " ")
             (replaceRegex reBlockComment [] css)))).

(** The first pass of [minifyJSContent], on its own. *)
Definition stripLineComments (src : jsstring) : jsstring :=
  replaceRegex reLineComment [] src.

Definition minifyJSContent (src : jsstring) : jsstring :=
  trim
    (replaceRegex reJSPunct (js "$1")
       (replaceRegex reSpaces (js " ")
          (replaceRegex reBlockComment []
             (stripLineComments src)))).

(** What the exception of the first pass is about, in the words of the
    specification: a marker [//] is followed later on the same line by
    [http:] or [https:].  [urlLaterOnLine rest] reads the text after the
    marker up to the end of the line. *)
Fixpoint urlLaterOnLine (rest : jsstring) : bool :=
  match stripPrefix (js "http:") rest, stripPrefix (js "https:") rest with
  | None, None =>
      match rest with
      | [] => false
      | c :: t => if (c =? 10)%N then false else urlLaterOnLine t
      end
  | _, _ => true
  end.

(** ** Exceptions *)

(** What the script can throw: a pattern the [RegExp] constructor rejects,
    and the failures of the [fs] calls. [Unsupported] stands for pattern
    syntax that this embedding of the constructor does not cover. *)
Inductive error :=
| SyntaxError
| Unsupported
| ENOENT (path : jsstring)
| EISDIR (path : jsstring)
| ENOTDIR (path : jsstring)
| EEXIST (path : jsstring)
| OutOfFuel.

Inductive res (A : Type) :=
| Ok (a : A)
| Throw (e : error).
Arguments Ok {A} a.
Arguments Throw {A} e.

Definition bindRes {A B : Type} (x : res A) (f : A -> res B) : res B :=
  match x with
  | Ok a => f a
  | Throw e => Throw e
  end.

(** [forEach] with a callback that may throw, threading an accumulator. *)
Fixpoint foldRes {A B : Type} (f : A -> B -> res A) (l : list B) (acc : A) : res A :=
  match l with
  | [] => Ok acc
  | x :: l' => bindRes (f acc x) (foldRes f l')
  end.

(** ** [new RegExp(source)] *)

(** The syntax characters of a pattern. *)
Definition syntaxChars : jsstring := js "^$\.*+?()[]{}|".

Definition isSyntaxChar (c : char) : bool := existsb (N.eqb c) syntaxChars.

(** The members of a character class up to its closing bracket: plain
    characters only. *)
Fixpoint parseClass (src : jsstring) : option (list citem * jsstring) :=
  match src with
  | [] => None
  | c :: rest =>
      if (c =? 93)%N then Some ([], rest)
      else if (c =? 92)%N || (c =? 45)%N then None
      else
        match parseClass rest with
        | Some (items, rest') => Some (CChar c :: items, rest')
        | None => None
        end
  end.

(** One atom: an escape, a class, or a pattern character. The braces
    stand for themselves where they do not spell a quantifier (Annex B). *)
Definition parseAtom (src : jsstring) : res (regex * jsstring) :=
  match src with
  | [] => Throw Unsupported
  | c :: rest =>
      if (c =? 92)%N then
        match rest with
        | [] => Throw SyntaxError
        | e :: rest' =>
            if (e =? 115)%N then Ok (space, rest')
            else if isSyntaxChar e || (e =? 47)%N then Ok (Chr e, rest')
            else Throw Unsupported
        end
      else if (c =? 91)%N then
        match rest with
        | [] => Throw SyntaxError
        | e :: rest' =>
            match parseClass (if (e =? 94)%N then rest' else rest) with
            | Some (items, rest'') => Ok (Cls (e =? 94)%N items, rest'')
            | None => Throw Unsupported
            end
        end
      else if (c =? 123)%N then
        match rest with
        | e :: _ => if isDigit e then Throw Unsupported else Ok (Chr c, rest)
        | [] => Ok (Chr c, rest)
        end
      else if (c =? 125)%N || (c =? 93)%N then Ok (Chr c, rest)
      else if isSyntaxChar c then Throw Unsupported
      else Ok (Chr c, rest)
  end.

(** A sequence of atoms, each with an optional star. *)
Fixpoint parseTerms (fuel : nat) (src : jsstring) : res regex :=
  match src with
  | [] => Ok Eps
  | _ :: _ =>
      match fuel with
      | O => Throw OutOfFuel
      | S fuel' =>
          bindRes (parseAtom src) (fun '(atom, rest) =>
            match rest with
            | q :: rest' =>
                if (q =? 42)%N
                then bindRes (parseTerms fuel' rest') (fun r => Ok (Seq (Star true atom) r))
                else bindRes (parseTerms fuel' rest) (fun r => Ok (Seq atom r))
            | [] => Ok (Seq atom Eps)
            end)
      end
  end.

Definition newRegExp (source : jsstring) : res regex :=
  parseTerms (length source) source.

(** ** Critical CSS *)

Definition criticalSelectors : list jsstring :=
  map js
    [":root";
     "html"; "body";
     ".site-header"; ".main-nav"; ".nav-container"; ".logo"; ".nav-menu"; ".nav-link";
     ".mobile-menu-toggle"; ".hamburger-line";
     ".hero-section"; ".hero-container"; ".event-title"; ".hero-subtitle"; ".hero-date";
     ".cta-button"; ".scroll-indicator"; ".scroll-arrow";
     ".skip-link";
     ".sr-only";
     ".text-center"; ".text-white"; ".bg-purple"; ".font-bold"]%string.

(** [/:root\s*{[^}]*}/g] *)
Definition reRoot : regex :=
  Seq (Lit (js ":root"))
      (Seq (Star true space) (Seq (Chr 123) (Seq (Star true (notChar 125)) (Chr 125)))).

(** [/[.*+?^${}()|[\]\\]/g] *)
Definition reMeta : regex := oneOf (js ".*+?^${}()|[]\").

(** [selector.replace(/[.*+?^${}()|[\]\\]/g, '\\$&')] *)
Definition escapeSelector (selector : jsstring) : jsstring :=
  replaceRegex reMeta (js "\$&") selector.

(** The body of the loop over the critical selectors. *)
Definition extractSelector (fullCSS criticalCSS selector : jsstring) : res jsstring :=
  let escapedSelector := escapeSelector selector in
  bindRes (newRegExp (escapedSelector ++ js "\s*{[^}]*}")) (fun regex =>
    match matchRegex regex fullCSS with
    | Some matches => Ok (criticalCSS ++ join matches)
    | None => Ok criticalCSS
    end).

(** The text that [extractCriticalCSS] computes from the minified CSS. *)
Definition criticalCSSOf (fullCSS : jsstring) : res jsstring :=
  let criticalCSS := [] in
  let criticalCSS :=
    match matchRegex reRoot fullCSS with
    | Some customPropsMatch => criticalCSS ++ join customPropsMatch
    | None => criticalCSS
    end in
  foldRes (extractSelector fullCSS) criticalSelectors criticalCSS.

(** ** The HTML rewriter *)

Definition nl : jsstring := [10%N].

(** [/<link rel=`stylesheet` href=`css\/[^`]+\.css`>/g], a backquote
    standing for the double quote of the source here and below. *)
Definition reLinkTag : regex :=
  Seq (Lit (jsq "<link rel=`stylesheet` href=`css/"))
      (Seq (Plus (notChar 34)) (Lit (jsq ".css`>"))).

(** [/    <script src=`js\/[^`]+\.js`><\/script>\n/g] *)
Definition reScriptTag : regex :=
  Seq (Lit (jsq "    <script src=`js/"))
      (Seq (Plus (notChar 34)) (Lit (jsq ".js`></script>" ++ nl))).

Definition headClose : jsstring := js "</head>".
Definition bodyClose : jsstring := js "</body>".
Definition authorMeta : jsstring :=
  jsq "<meta name=`author` content=`Side Quest Market`>".

(** The replacement templates, as the script writes them. *)
Definition styleTemplate (criticalCSS : jsstring) : jsstring :=
  js "    <style>" ++ criticalCSS ++ js "</style>" ++ nl ++ js "</head>".

Definition preloadTemplate : jsstring :=
  jsq "    <link rel=`preload` href=`css/styles.min.css` as=`style` onload=`this.onload=null;this.rel='stylesheet'`>"
  ++ nl ++
  jsq "    <noscript><link rel=`stylesheet` href=`css/styles.min.css`></noscript>"
  ++ nl ++ js "</head>".

Definition scriptTemplate : jsstring :=
  jsq "    <script src=`js/scripts.min.js`></script>" ++ nl ++ js "</body>".

Definition metaTemplate : jsstring :=
  jsq "<meta name=`author` content=`Side Quest Market`>" ++ nl ++
  js "    " ++ nl ++
  js "    <!-- Performance and caching meta tags -->" ++ nl ++
  jsq "    <meta http-equiv=`Cache-Control` content=`public, max-age=31536000`>" ++ nl ++
  jsq "    <meta http-equiv=`Expires` content=`Thu, 31 Dec 2025 23:59:59 GMT`>" ++ nl ++
  jsq "    <link rel=`dns-prefetch` href=`//cdn.emailjs.com`>" ++ nl ++
  jsq "    <link rel=`dns-prefetch` href=`//www.eventbrite.com`>".

(** The six rewrites of [updateHTMLForProduction], in its order. *)
Definition removeStylesheetLinks (html : jsstring) : jsstring :=
  replaceRegex reLinkTag [] html.

Definition inlineCriticalCSS (criticalCSS html : jsstring) : jsstring :=
  replaceString headClose (styleTemplate criticalCSS) html.

Definition addPreload (html : jsstring) : jsstring :=
  replaceString headClose preloadTemplate html.

Definition removeScriptTags (html : jsstring) : jsstring :=
  replaceRegex reScriptTag [] html.

Definition addBundleScript (html : jsstring) : jsstring :=
  replaceString bodyClose scriptTemplate html.

Definition addMetaTags (html : jsstring) : jsstring :=
  replaceString authorMeta metaTemplate html.

(** The text that [updateHTMLForProduction] writes, from the source
    document and the critical CSS it read. *)
Definition productionHTML (criticalCSS html : jsstring) : jsstring :=
  let html := removeStylesheetLinks html in
  let html := inlineCriticalCSS criticalCSS html in
  let html := addPreload html in
  let html := removeScriptTags html in
  let html := addBundleScript html in
  addMetaTags html.

(** ** The file system *)

(** A file system maps the normalised relative path of each entry to a
    regular file with its text, or to a directory. *)
Inductive node :=
| File (content : jsstring)
| Dir.

Abbreviation fileSystem := (gmap (list N) node).

(** A stage: it reads and changes the file system, and returns or throws.
    What it wrote before throwing stays written. *)
Definition M (A : Type) : Type := fileSystem -> res A * fileSystem.

Definition ret {A : Type} (a : A) : M A := fun fs => (Ok a, fs).

Definition throw {A : Type} (e : error) : M A := fun fs => (Throw e, fs).

Definition bind {A B : Type} (m : M A) (k : A -> M B) : M B :=
  fun fs =>
    match m fs with
    | (Ok a, fs') => k a fs'
    | (Throw e, fs') => (Throw e, fs')
    end.

Notation "'let*' x ':=' m 'in' k" := (bind m (fun x => k))
  (at level 10, x name, m at level 100, k at level 200).

Definition liftRes {A : Type} (x : res A) : M A := fun fs => (x, fs).

(** [for (const x of l)] and [l.forEach]. *)
Fixpoint forEach {A : Type} (l : list A) (body : A -> M unit) : M unit :=
  match l with
  | [] => ret tt
  | x :: l' => let* _ := body x in forEach l' body
  end.

(** A loop that threads an accumulator. *)
Fixpoint foldM {A B : Type} (body : A -> B -> M A) (l : list B) (acc : A) : M A :=
  match l with
  | [] => ret acc
  | x :: l' => let* acc' := body acc x in foldM body l' acc'
  end.

(** [path.join] on segments that need no normalising. *)
Definition slash : jsstring := js "/".

Definition pathJoin (parts : list jsstring) : jsstring :=
  match parts with
  | [] => js "."
  | p :: ps => fold_left (fun acc q => acc ++ slash ++ q) ps p
  end.

(** The directory of a path, [None] for an entry of the working directory. *)
Fixpoint dirname (p : jsstring) : option jsstring :=
  match p with
  | [] => None
  | c :: t =>
      match dirname t with
      | Some d => Some (c :: d)
      | None => if (c =? 47)%N then Some [] else None
      end
  end.

(** The path itself and the directories above it, outermost first. *)
Fixpoint ancestors (p : jsstring) : list jsstring :=
  match p with
  | [] => [[]]
  | c :: t =>
      (if (c =? 47)%N then [[]] else []) ++ map (cons c) (ancestors t)
  end.

(** A regular file stands at [q] or above it. *)
Definition fileOnPath (fs : fileSystem) (q : jsstring) : bool :=
  existsb (fun a => match fs !! a with Some (File _) => true | _ => false end)
          (ancestors q).

(** The error for an entry that is not there: the path cannot be walked
    when a directory above the entry is a regular file, and that is
    ENOTDIR; otherwise it is ENOENT.  [p] is the path of the call and [q]
    the path that was looked up and found missing, [p] or its directory. *)
Definition missing (fs : fileSystem) (p q : jsstring) : error :=
  if fileOnPath fs q then ENOTDIR p else ENOENT p.

Definition existsSync (p : jsstring) : M bool :=
  fun fs => (Ok (match fs !! p with Some _ => true | None => false end), fs).

Definition readFileSync (p : jsstring) : M jsstring :=
  fun fs =>
    match fs !! p with
    | Some (File content) => (Ok content, fs)
    | Some Dir => (Throw (EISDIR p), fs)
    | None => (Throw (missing fs p p), fs)
    end.

Definition writeFileSync (p data : jsstring) : M unit :=
  fun fs =>
    match dirname p, fs !! p with
    | _, Some Dir => (Throw (EISDIR p), fs)
    | None, _ => (Ok tt, <[p := File data]> fs)
    | Some d, _ =>
        match fs !! d with
        | Some Dir => (Ok tt, <[p := File data]> fs)
        | Some (File _) => (Throw (ENOTDIR p), fs)
        | None => (Throw (missing fs p d), fs)
        end
    end.

(** [mkdirSync(p, { recursive: true })] *)
Definition mkdirOne (p a : jsstring) : M unit :=
  fun fs =>
    match fs !! a with
    | None => (Ok tt, <[a := Dir]> fs)
    | Some Dir => (Ok tt, fs)
    | Some (File _) =>
        (Throw (if bool_decide (a = p) then EEXIST p else ENOTDIR p), fs)
    end.

Definition mkdirSync (p : jsstring) : M unit :=
  forEach (List.filter (fun a => negb (bool_decide (a = []))) (ancestors p)) (mkdirOne p).

(** The name of [k] as an entry of the directory [p], if it is one. *)
Definition childName (p k : jsstring) : option jsstring :=
  match stripPrefix (p ++ slash) k with
  | Some name =>
      if bool_decide (name = []) || existsb (N.eqb 47) name then None else Some name
  | None => None
  end.

Definition readdirSync (p : jsstring) : M (list jsstring) :=
  fun fs =>
    match fs !! p with
    | Some Dir =>
        (Ok (omap (childName p)
                  (map fst (map_to_list (filter (fun kv => is_Some (childName p (fst kv))) fs)))),
         fs)
    | Some (File _) => (Throw (ENOTDIR p), fs)
    | None => (Throw (missing fs p p), fs)
    end.

(** [statSync(p).isDirectory()] *)
Definition isDirectory (p : jsstring) : M bool :=
  fun fs =>
    match fs !! p with
    | Some Dir => (Ok true, fs)
    | Some (File _) => (Ok false, fs)
    | None => (Throw (missing fs p p), fs)
    end.

Definition copyFileSync (src dest : jsstring) : M unit :=
  let* content := readFileSync src in writeFileSync dest content.

(** ** The builder *)

Definition cssFiles : list jsstring :=
  map js ["css/main.css"; "css/components.css"; "css/responsive.css";
          "css/accessibility.css"; "css/typography.css"; "css/images.css"]%string.

Definition jsFiles : list jsstring :=
  map js ["js/font-loader.js"; "js/image-lazy-loading.js"; "js/main.js";
          "js/navigation.js"; "js/keyboard-navigation.js"; "js/contact-form.js";
          "js/smooth-scroll.js"]%string.

Definition outputDir : jsstring := js "dist".

Definition createOutputDirectory : M unit :=
  let* e := existsSync outputDir in
  let* _ := (if negb e then mkdirSync outputDir else ret tt) in
  forEach (map js ["css"; "js"; "assets"; "fonts"]%string) (fun dir =>
    let dirPath := pathJoin [outputDir; dir] in
    let* e := existsSync dirPath in
    if negb e then mkdirSync dirPath else ret tt).

(** The loop that both [minifyCSS] and [minifyJavaScript] run over their
    file list: each file that exists is appended under a comment that
    names it. *)
Definition appendFile (combined file : jsstring) : M jsstring :=
  let* e := existsSync file in
  if e then
    let* content := readFileSync file in
    ret (combined ++ js "/* " ++ file ++ js " */" ++ nl ++ content ++ nl ++ nl)
  else ret combined.

Definition combineFiles (files : list jsstring) : M jsstring :=
  foldM appendFile files [].

Definition minifyCSS : M unit :=
  let* combinedCSS := combineFiles cssFiles in
  let minifiedCSS := minifyCSSContent combinedCSS in
  writeFileSync (pathJoin [outputDir; js "css"; js "styles.min.css"]) minifiedCSS.

Definition minifyJavaScript : M unit :=
  let* combinedJS := combineFiles jsFiles in
  let minifiedJS := minifyJSContent combinedJS in
  writeFileSync (pathJoin [outputDir; js "js"; js "scripts.min.js"]) minifiedJS.

Definition extractCriticalCSS : M unit :=
  let* fullCSS := readFileSync (pathJoin [outputDir; js "css"; js "styles.min.css"]) in
  let* criticalCSS := liftRes (criticalCSSOf fullCSS) in
  writeFileSync (pathJoin [outputDir; js "css"; js "critical.min.css"]) criticalCSS.

(** The body of the loop of [copyDirectory] over the entries of [src];
    [recur] is the recursive call. *)
Definition copyItem (recur : jsstring -> jsstring -> M unit)
           (src dest item : jsstring) : M unit :=
  let srcPath := pathJoin [src; item] in
  let destPath := pathJoin [dest; item] in
  let* d := isDirectory srcPath in
  if d then recur srcPath destPath
  else copyFileSync srcPath destPath.

Fixpoint copyDirectory (fuel : nat) (src dest : jsstring) : M unit :=
  match fuel with
  | O => throw OutOfFuel
  | S fuel' =>
      let* e := existsSync dest in
      let* _ := (if negb e then mkdirSync dest else ret tt) in
      let* items := readdirSync src in
      forEach items (copyItem (copyDirectory fuel') src dest)
  end.

Definition copyAssets (fuel : nat) : M unit :=
  let* e := existsSync (js "assets") in
  let* _ := (if e then copyDirectory fuel (js "assets") (pathJoin [outputDir; js "assets"])
        else ret tt) in
  let* e := existsSync (js "fonts") in
  if e then copyDirectory fuel (js "fonts") (pathJoin [outputDir; js "fonts"])
  else ret tt.

Definition updateHTMLForProduction : M unit :=
  let* html := readFileSync (js "index.html") in
  let* criticalCSS := readFileSync (pathJoin [outputDir; js "css"; js "critical.min.css"]) in
  writeFileSync (pathJoin [outputDir; js "index.html"]) (productionHTML criticalCSS html).

(** [build]: the stages in order; the first exception ends the run. The
    fuel bounds the depth of the directories that [copyAssets] descends. *)
Definition build (fuel : nat) : M unit :=
  let* _ := createOutputDirectory in
  let* _ := minifyCSS in
  let* _ := minifyJavaScript in
  let* _ := extractCriticalCSS in
  let* _ := copyAssets fuel in
  updateHTMLForProduction.

(** ** Auxiliary notions for the statements *)

Definition shift (k : nat) (res : result) : result :=
  mkResult (k + index res) (matched res) (captures res).

(** The array that [match] returns, empty for [null]. *)
Definition matchList (r : regex) (s : jsstring) : list jsstring :=
  map matched (execAll r s).

(** The pattern of a rule block for a selector taken literally: what
    [new RegExp] builds from the escaped selector. *)
Definition ruleTail : regex :=
  Seq (Star true space)
      (Seq (Chr 123) (Seq (Star true (notChar 125)) (Seq (Chr 125) Eps))).

Definition ruleRe (selector : jsstring) : regex :=
  fold_right (fun c r => Seq (Chr c) r) ruleTail selector.

(** The rule blocks that the extractor appends, in the order it appends
    them: the matches of the first pass, then those of each selector. *)
Definition emitted (fullCSS : jsstring) : list jsstring :=
  matchList reRoot fullCSS
  ++ flat_map (fun selector => matchList (ruleRe selector) fullCSS) criticalSelectors.

(** The section of a listed file in a bundle: its name in a comment, its
    text and a blank line; nothing for an entry that is not a file. *)
Definition sectionOf (fs : fileSystem) (file : jsstring) : jsstring :=
  match fs !! file with
  | Some (File content) =>
      js "/* " ++ file ++ js " */" ++ nl ++ content ++ nl ++ nl
  | _ => []
  end.

Definition present (fs : fileSystem) (file : jsstring) : bool :=
  match fs !! file with Some _ => true | None => false end.

(** A listed entry is backed by a regular file, or by nothing. *)
Definition fileOrMissing (fs : fileSystem) (file : jsstring) : Prop :=
  fs !! file <> Some Dir.

(** A small file system for examples: one stylesheet of the list, the
    others missing. *)
Definition sampleFS : fileSystem :=
  <[js "css/main.css" := File (js "body { margin: 0; }")]>
    (<[js "css" := Dir]> ∅).

(** ** Documents as chunks

    The rewriter works on text; what it does to a document is stated for
    documents cut into chunks: the tags it looks for, and text between
    them that neither holds nor ends in the beginning of one of them. *)

(** [clash k s]: [k] and [s] differ at a position both have, so that [k]
    is not a prefix of [s] followed by anything. *)
Fixpoint clash (k s : jsstring) : bool :=
  match k, s with
  | a :: k', b :: s' => if (a =? b)%N then clash k' s' else true
  | _, _ => false
  end.

(** [cleanFor K t]: at no position of [t] can one of the markers [K]
    start, whatever follows [t]. *)
Fixpoint cleanFor (K : list jsstring) (t : jsstring) : bool :=
  match t with
  | [] => true
  | _ :: t' => forallb (fun k => clash k t) K && cleanFor K t'
  end.


Definition linkOpen : jsstring := jsq "<link rel=`stylesheet` href=`css/".
Definition scriptOpen : jsstring := jsq "<script src=`js/".
Definition indent : jsstring := js "    ".

(** A per-file stylesheet tag, and a per-file script tag on a line of its
    own behind four spaces: what the two patterns match. *)
Definition linkTag (name : jsstring) : jsstring :=
  linkOpen ++ name ++ jsq ".css`>".

Definition scriptTag (name : jsstring) : jsstring :=
  scriptOpen ++ name ++ jsq ".js`></script>".

Definition scriptLine (name : jsstring) : jsstring :=
  indent ++ scriptTag name ++ nl.

Inductive item :=
| Text (t : jsstring)
| LinkTag (name : jsstring)
| ScriptLine (name : jsstring)
| HeadClose
| BodyClose
| AuthorMeta.

Definition render1 (it : item) : jsstring :=
  match it with
  | Text t => t
  | LinkTag name => linkTag name
  | ScriptLine name => scriptLine name
  | HeadClose => headClose
  | BodyClose => bodyClose
  | AuthorMeta => authorMeta
  end.

Definition render (items : list item) : jsstring := concat (map render1 items).

(** The markers of the rewriter. *)
Definition markers : list jsstring :=
  [linkOpen; scriptOpen; headClose; bodyClose; authorMeta].

(** The markers that are still searched for after the stylesheet tags
    are gone, and after the script lines are gone. *)
Definition markersAfterLinks : list jsstring :=
  [scriptOpen; headClose; bodyClose; authorMeta].

Definition markersAfterScripts : list jsstring := [bodyClose; authorMeta].

(** A file name inside a tag: not empty, without a double quote or an
    opening angle bracket. *)
Definition nameOK (name : jsstring) : Prop :=
  name <> [] /\ ~ In 34%N name /\ ~ In 60%N name.

Definition wfItem (K : list jsstring) (it : item) : Prop :=
  match it with
  | Text t => cleanFor K t = true
  | LinkTag name | ScriptLine name => nameOK name
  | HeadClose | BodyClose | AuthorMeta => True
  end.

(** The marker with which a chunk starts, if it is a tag. *)
Definition markerOf (it : item) : option jsstring :=
  match it with
  | Text _ => None
  | LinkTag _ => Some linkOpen
  | ScriptLine _ => Some scriptOpen
  | HeadClose => Some headClose
  | BodyClose => Some bodyClose
  | AuthorMeta => Some authorMeta
  end.

(** A well-formed document: the text chunks are clean for all markers. *)
Definition wfDoc (items : list item) : Prop := Forall (wfItem markers) items.

(** Critical CSS that the rewriter inlines as it is: no [<], so that it
    holds no marker, and no [$], so that the replacement template has no
    pattern in it. *)
Definition plainCSS (css : jsstring) : Prop := ~ In 60%N css /\ ~ In 36%N css.

Definition isLinkTag (it : item) : bool :=
  match it with LinkTag _ => true | _ => false end.

Definition isScriptLine (it : item) : bool :=
  match it with ScriptLine _ => true | _ => false end.

Definition isHeadClose (it : item) : bool :=
  match it with HeadClose => true | _ => false end.

Definition isBodyClose (it : item) : bool :=
  match it with BodyClose => true | _ => false end.

Definition isAuthorMeta (it : item) : bool :=
  match it with AuthorMeta => true | _ => false end.

(** Text put in front of the first chunk that satisfies [p]. *)
Fixpoint insertBefore (p : item -> bool) (t : jsstring) (items : list item) : list item :=
  match items with
  | [] => []
  | it :: rest =>
      if p it then Text t :: it :: rest else it :: insertBefore p t rest
  end.

(** Text put behind the first chunk that satisfies [p]. *)
Fixpoint insertAfter (p : item -> bool) (t : jsstring) (items : list item) : list item :=
  match items with
  | [] => []
  | it :: rest =>
      if p it then it :: Text t :: rest else it :: insertAfter p t rest
  end.

(** The blocks that the rewriter inserts. *)
Definition styleBlock (css : jsstring) : jsstring :=
  js "    <style>" ++ css ++ js "</style>" ++ nl.

Definition preloadBlock : jsstring :=
  jsq "    <link rel=`preload` href=`css/styles.min.css` as=`style` onload=`this.onload=null;this.rel='stylesheet'`>"
  ++ nl ++
  jsq "    <noscript><link rel=`stylesheet` href=`css/styles.min.css`></noscript>"
  ++ nl.

Definition bundleTag : jsstring := jsq "<script src=`js/scripts.min.js`></script>".

Definition scriptBlock : jsstring := indent ++ bundleTag ++ nl.

Definition metaBlock : jsstring :=
  nl ++
  js "    " ++ nl ++
  js "    <!-- Performance and caching meta tags -->" ++ nl ++
  jsq "    <meta http-equiv=`Cache-Control` content=`public, max-age=31536000`>" ++ nl ++
  jsq "    <meta http-equiv=`Expires` content=`Thu, 31 Dec 2025 23:59:59 GMT`>" ++ nl ++
  jsq "    <link rel=`dns-prefetch` href=`//cdn.emailjs.com`>" ++ nl ++
  jsq "    <link rel=`dns-prefetch` href=`//www.eventbrite.com`>".

(** What the rewriter makes of a document, chunk by chunk. *)
Definition rewriteItems (css : jsstring) (items : list item) : list item :=
  let items := List.filter (fun it => negb (isLinkTag it)) items in
  let items := insertBefore isHeadClose (styleBlock css) items in
  let items := insertBefore isHeadClose preloadBlock items in
  let items := List.filter (fun it => negb (isScriptLine it)) items in
  let items := insertBefore isBodyClose scriptBlock items in
  insertAfter isAuthorMeta metaBlock items.

(** No per-file script tag starts within the first three characters of
    [x] behind spaces only: the spaces before [x] cannot complete the
    indentation of a script line. *)
Definition noIndentAhead (x : jsstring) : Prop :=
  forall j, j <= 3 -> stripPrefix (replicate j 32%N ++ scriptOpen) x = None.

(** A document for examples, cut into chunks. *)
Definition sampleDoc : list item :=
  [Text (jsq "<html>
<head>
    <meta charset=`utf-8`>
    ");
   AuthorMeta;
   Text (js "
    ");
   LinkTag (js "main");
   Text nl;
   HeadClose;
   Text (js "
<body>
<p>hi</p>
");
   ScriptLine (js "main");
   BodyClose;
   Text (js "
</html>
")].

(** The same without [</head>]. *)
Definition sampleDocNoHead : list item :=
  [Text (js "<html>
    ");
   LinkTag (js "main");
   Text (js "
<body>
");
   ScriptLine (js "main");
   BodyClose;
   Text (js "
</html>
")].

(** A file system in which [updateHTMLForProduction] finds what it reads:
    the page without [</head>] and the critical CSS. *)
Definition sampleSite : fileSystem :=
  <[js "index.html" := File (render sampleDocNoHead)]>
    (<[js "dist/css/critical.min.css" := File (js "a{}")]>
       (<[js "dist/css" := Dir]> (<[js "dist" := Dir]> ∅))).

(** The four text artifacts of a build. *)
Definition stylesMin : jsstring := pathJoin [outputDir; js "css"; js "styles.min.css"].
Definition scriptsMin : jsstring := pathJoin [outputDir; js "js"; js "scripts.min.js"].
Definition criticalMin : jsstring := pathJoin [outputDir; js "css"; js "critical.min.css"].
Definition indexOut : jsstring := pathJoin [outputDir; js "index.html"].

Definition artifacts : list jsstring := [stylesMin; scriptsMin; criticalMin; indexOut].

(** A small site: one style sheet, one script, the page and one asset. *)
Definition smallSite : fileSystem :=
  <[js "css" := Dir]>
    (<[js "css/main.css" := File (js ":root { --c: red; }  body { margin: 0; }")]>
       (<[js "js" := Dir]>
          (<[js "js/main.js" := File (js "let a = 1; /* one */")]>
             (<[js "index.html" := File (render sampleDoc)]>
                (<[js "assets" := Dir]>
                   (<[js "assets/logo.svg" := File (js "<svg/>")]> ∅)))))).

(** [grows fs fs']: what is a directory in [fs] is one in [fs'], and what
    is a file in [fs] is a file in [fs'], maybe with another text. *)
Definition grows (fs fs' : fileSystem) : Prop :=
  forall k,
    match fs !! k with
    | Some Dir => fs' !! k = Some Dir
    | Some (File _) => exists c, fs' !! k = Some (File c)
    | None => True
    end.

(** [sameOff T fs fs']: outside the paths [T] nothing has changed. *)
Definition sameOff (T : list N -> Prop) (fs fs' : fileSystem) : Prop :=
  forall k, ~ T k -> fs' !! k = fs !! k.

(** A stage keeps a relation between the file system it finds and the
    one it leaves, whether it returns or throws. *)
Definition Keeps {A : Type} (R : fileSystem -> fileSystem -> Prop) (m : M A) : Prop :=
  forall fs, R fs (snd (m fs)).

(** The entries at or below the directory [src]. *)
Definition under (src k : jsstring) : Prop :=
  k = src \/ exists r, k = src ++ slash ++ r.

(** The paths that copying into [dest] may write: the entries below
    [dest], and [dest] with the directories above it. *)
Definition touches (dest k : jsstring) : Prop :=
  (exists r, k = dest ++ slash ++ r) \/ In k (ancestors dest).

Definition disjointTrees (src dest : jsstring) : Prop :=
  forall k, under src k -> ~ touches dest k.

(** [touches], decided. *)
Definition touchesb (dest k : jsstring) : bool :=
  match stripPrefix (dest ++ slash) k with Some _ => true | None => false end
  || existsb (fun a => bool_decide (a = k)) (ancestors dest).

(** The paths that [copyAssets] may write. *)
Definition copied (k : jsstring) : Prop :=
  touches (js "dist/assets") k \/ touches (js "dist/fonts") k.

(** The directories that [copyAssets] reads. *)
Definition assetSource (k : jsstring) : Prop :=
  under (js "assets") k \/ under (js "fonts") k.

(** A path that is no artifact and is not written by the copy. *)
Definition sourcePath (k : jsstring) : Prop := ~ In k artifacts /\ ~ copied k.

(** The directories that [createOutputDirectory] makes sure of. *)
Definition outputDirs : list jsstring :=
  map js ["dist"; "dist/css"; "dist/js"; "dist/assets"; "dist/fonts"]%string.

(** [if (!fs.existsSync(p)) fs.mkdirSync(p, { recursive: true })] *)
Definition ensureDir (p : jsstring) : M unit :=
  let* e := existsSync p in
  if negb e then mkdirSync p else ret tt.

(** No match starts inside [t] when [rest] follows it. *)
Definition noMatchIn (r : regex) (t rest : jsstring) : Prop :=
  forall j, j < length t -> run r (drop j t ++ rest) None = [].

(** What a fold of [replaceStep] amounts to once the input is finished. *)
Definition finish (whole : jsstring) (acc : jsstring * nat) : jsstring :=
  fst acc ++ drop (snd acc) whole.


(** ** Further notions for the stages *)

(** [addsDirs T fs fs']: every entry of [fs] is in [fs'] as it was, and
    what is new in [fs'] is a directory at one of the paths [T]. *)
Definition addsDirs (T : jsstring -> Prop) (fs fs' : fileSystem) : Prop :=
  (forall k n, fs !! k = Some n -> fs' !! k = Some n) /\
  (forall k, fs !! k = None -> fs' !! k = None \/ (fs' !! k = Some Dir /\ T k)).

(** The four subdirectories of the output directory. *)
Definition outputSubdirs : list jsstring :=
  map (fun dir => pathJoin [outputDir; dir]) (map js ["css"; "js"; "assets"; "fonts"]%string).

(** The paths that a build may write: the output directories, the four
    artifacts and the copies of the assets and fonts. *)
Definition written (k : jsstring) : Prop :=
  In k (outputDir :: outputSubdirs) \/ In k artifacts \/ copied k.

(** The bundle of a file list: the sections of the entries that exist. *)
Definition bundleOf (fs : fileSystem) (files : list jsstring) : jsstring :=
  concat (map (sectionOf fs) (List.filter (present fs) files)).

(** The first five stages of [build]: all but the page. *)
Definition buildAssets (fuel : nat) : M unit :=
  let* _ := createOutputDirectory in
  let* _ := minifyCSS in
  let* _ := minifyJavaScript in
  let* _ := extractCriticalCSS in
  copyAssets fuel.

(** The name of a directory entry: not empty, and without a slash. *)
Definition entryName (i : jsstring) : bool :=
  negb (bool_decide (i = [])) && negb (existsb (N.eqb 47) i).

(** [reaches fs p segs text]: going down from the directory [p] by the
    entry names [segs] leads through directories of [fs] to a regular file
    that holds [text]. *)
Fixpoint reaches (fs : fileSystem) (p : jsstring) (segs : list jsstring)
         (text : jsstring) : Prop :=
  match segs with
  | [] => False
  | i :: rest =>
      entryName i = true /\
      match rest with
      | [] => fs !! pathJoin [p; i] = Some (File text)
      | _ :: _ =>
          fs !! pathJoin [p; i] = Some Dir /\ reaches fs (pathJoin [p; i]) rest text
      end
  end.

(** A tree to copy: a file, and a directory with a file in it. *)
Definition sampleTree : fileSystem :=
  <[js "assets" := Dir]>
    (<[js "assets/logo.svg" := File (js "<svg/>")]>
       (<[js "assets/img" := Dir]>
          (<[js "assets/img/hero.jpg" := File (js "JFIF")]> ∅))).

(** [noFileOnPath fs p]: neither [p] nor a directory above it is a regular
    file, so that an entry missing at [p] is reported as ENOENT. *)
Definition noFileOnPath (fs : fileSystem) (p : jsstring) : Prop :=
  forall a c, In a (ancestors p) -> fs !! a <> Some (File c).

(** [clearAt fs dest]: nothing stands below [dest], and neither [dest] nor
    a directory above it is a regular file. *)
Definition clearAt (fs : fileSystem) (dest : jsstring) : Prop :=
  (forall r, fs !! (dest ++ slash ++ r) = None) /\
  (forall a c, In a (ancestors dest) -> fs !! a <> Some (File c)).

(** [shallow fs src fuel]: the directories at and below [src] are fewer
    than [fuel] levels deep, measured by the length of their paths. *)
Definition shallow (fs : fileSystem) (src : jsstring) (fuel : nat) : Prop :=
  forall k, under src k -> fs !! k = Some Dir -> length k < length src + fuel.

(** [copiesInto dest fs fs']: outside the entries below [dest] nothing has
    changed but for directories above [dest] that were made. *)
Definition copiesInto (dest : jsstring) (fs fs' : fileSystem) : Prop :=
  forall k, (exists r, k = dest ++ slash ++ r) \/ fs' !! k = fs !! k \/
            (In k (ancestors dest) /\ fs !! k = None /\ fs' !! k = Some Dir).

(** What the loop of [copyDirectory] over the entries keeps: the source as
    it was in [s], the destination a directory below directories, and
    nothing yet where the entries [l] still to come will be copied. *)
Definition copying (src dest : jsstring) (s : fileSystem) (l : list jsstring)
           (sj : fileSystem) : Prop :=
  (forall k, under src k -> sj !! k = s !! k) /\
  sj !! dest = Some Dir /\
  (forall a c, In a (ancestors dest) -> sj !! a <> Some (File c)) /\
  (forall i tail, In i l -> (tail = [] \/ exists r, tail = slash ++ r) ->
                  sj !! (dest ++ slash ++ i ++ tail) = None).

(** A bound on the depth of a file system: one more than the length of
    its longest path. *)
Definition depthBound (fs : fileSystem) : nat :=
  S (list_max (map (fun kv => length (fst kv)) (map_to_list fs))).

(** ** Notions for the minifiers *)

(** Does the text start with white space? *)
Definition startsWithSpace (s : jsstring) : bool :=
  match s with
  | c :: _ => isSpace c
  | [] => false
  end.

(** [singleSpaces afterSpace s]: the white space of [s] is single U+0020s;
    [afterSpace] tells whether white space stands right before [s]. *)
Fixpoint singleSpaces (afterSpace : bool) (s : jsstring) : bool :=
  match s with
  | [] => true
  | c :: t =>
      if isSpace c then (c =? 32)%N && negb afterSpace && singleSpaces true t
      else singleSpaces false t
  end.

(** Is [c] one of the characters [P]? *)
Definition inClass (P : jsstring) (c : char) : bool := existsb (N.eqb c) P.

(** [tidy P afterSpace afterP s]: the white space of [s] is single U+0020s,
    none of them next to a character of [P]; the flags tell whether white
    space, or a character of [P], stands right before [s]. *)
Fixpoint tidy (P : jsstring) (afterSpace afterP : bool) (s : jsstring) : bool :=
  match s with
  | [] => true
  | c :: t =>
      if isSpace c then
        (c =? 32)%N && negb afterSpace && negb afterP && tidy P true false t
      else if inClass P c then negb afterSpace && tidy P false true t
      else tidy P false false t
  end.

(** The punctuation of the two minifiers, and the pattern
    [/\s*([P])\s*/g] for a set [P]. *)
Definition cssPunct : jsstring := js "{}:;,>+~".
Definition jsPunct : jsstring := js "{}();,=+-*/<>!&|".

Definition rePunct (P : jsstring) : regex :=
  Seq (Star true space) (Seq (Group (oneOf P)) (Star true space)).

(** [replace(/\s*([P])\s*/g, '$1')] *)
Definition punctPass (P : jsstring) (s : jsstring) : jsstring :=
  replaceRegex (rePunct P) (js "$1") s.

(** The comment pass that both minifiers run:
    [replace(/\/\*[\s\S]*?\*\//g, '')]. *)
Definition stripBlockComments (s : jsstring) : jsstring :=
  replaceRegex reBlockComment [] s.

(** The text from the first line feed on: what is left of a line comment's
    line. *)
Fixpoint afterLine (s : jsstring) : jsstring :=
  match s with
  | [] => []
  | c :: t => if (c =? 10)%N then s else afterLine t
  end.

(** The characters that [escapeSelector] puts a backslash before. *)
Definition metaChars : jsstring := js ".*+?^${}()|[]\".

(** What escaping amounts to: a backslash before each of them. *)
Definition escaped (selector : jsstring) : jsstring :=
  flat_map (fun c => if inClass metaChars c then [92%N; c] else [c]) selector.
(** * Properties *)

(** String literals in a goal, spelled out as code units. *)
Ltac norm_lit :=
  repeat match goal with
  | |- context [js ?s] =>
      let v := eval vm_compute in (js s) in change (js s) with v
  | |- context [jsq ?s] =>
      let v := eval vm_compute in (jsq s) in change (jsq s) with v
  end.

Ltac norm_lit_in H :=
  repeat match type of H with
  | context [js ?s] =>
      let v := eval vm_compute in (js s) in change (js s) with v in H
  | context [jsq ?s] =>
      let v := eval vm_compute in (jsq s) in change (jsq s) with v in H
  end.

(** ** The matcher *)

Lemma run_Lit (p s : jsstring) (cap : option jsstring) :
  run (Lit p) s cap =
  match stripPrefix p s with
  | Some rest => [(rest, cap)]
  | None => []
  end.
Proof.
  revert s; induction p as [|c p IH]; intros s; [reflexivity|].
  destruct s as [|x s]; [reflexivity|].
  cbn [Lit run stripPrefix flat_map].
  destruct (x =? c)%N; cbn [flat_map fst snd]; [|reflexivity].
  rewrite IH, app_nil_r. reflexivity.
Qed.

Lemma run_NegLook (r : regex) (s : jsstring) (cap : option jsstring) :
  run (NegLook r) s cap =
  match run r s cap with
  | [] => [(s, cap)]
  | _ :: _ => []
  end.
Proof. reflexivity. Qed.

Lemma run_Seq (r1 r2 : regex) (s : jsstring) (cap : option jsstring) :
  run (Seq r1 r2) s cap =
  flat_map (fun st => run r2 (fst st) (snd st)) (run r1 s cap).
Proof. reflexivity. Qed.

(** A starred character class, one character at a time. *)
Lemma run_Star_Cls_cons (g neg : bool) (items : list citem) (x : char)
      (s : jsstring) (cap : option jsstring) :
  run (Star g (Cls neg items)) (x :: s) cap =
  let more := if xorb neg (existsb (citem_match x) items)
              then run (Star g (Cls neg items)) s cap else [] in
  if g then more ++ [(x :: s, cap)] else (x :: s, cap) :: more.
Proof.
  cbn [run length].
  destruct (xorb neg (existsb (citem_match x) items)); cbn [flat_map]; [|reflexivity].
  unfold progress; cbn [fst snd length].
  assert (Hlt : (length s <? S (length s)) = true) by (apply Nat.ltb_lt; lia).
  rewrite Hlt, app_nil_r. reflexivity.
Qed.

Lemma run_Star_Cls_nil (g neg : bool) (items : list citem) (cap : option jsstring) :
  run (Star g (Cls neg items)) [] cap = [([], cap)].
Proof. reflexivity. Qed.

(** ** Searching *)

Lemma exec_unfold (r : regex) (pos : nat) (s : jsstring) :
  exec r pos s =
  match run r s None with
  | st :: _ =>
      Some (mkResult pos (take (length s - length (fst st)) s)
                     (mkCaptures r (snd st)))
  | [] =>
      match s with
      | [] => None
      | _ :: t => exec r (S pos) t
      end
  end.
Proof. destruct s; reflexivity. Qed.

Lemma exec_shift (r : regex) (k pos : nat) (s : jsstring) :
  exec r (k + pos) s = option_map (shift k) (exec r pos s).
Proof.
  revert pos; induction s as [|c s IH]; intros pos.
  - cbn. destruct (run r [] None); reflexivity.
  - cbn. destruct (run r (c :: s) None); [|reflexivity].
    rewrite <- IH. f_equal. lia.
Qed.

Lemma noMatchIn_cons (r : regex) (c : char) (t rest : jsstring) :
  noMatchIn r (c :: t) rest ->
  run r (c :: t ++ rest) None = [] /\ noMatchIn r t rest.
Proof.
  intros H; split.
  - apply (H O); cbn; lia.
  - intros j Hj. apply (H (S j)); cbn; lia.
Qed.

Lemma exec_skip (r : regex) (pos : nat) (t rest : jsstring) :
  noMatchIn r t rest ->
  exec r pos (t ++ rest) = exec r (pos + length t) rest.
Proof.
  revert pos; induction t as [|c t IH]; intros pos H.
  - cbn. f_equal. lia.
  - apply noMatchIn_cons in H as [H0 H].
    rewrite exec_unfold. cbn [app]. rewrite H0.
    rewrite IH by assumption. f_equal. cbn. lia.
Qed.

Lemma exec_hit (r : regex) (pos : nat) (s : jsstring) (st : mstate) (tl : list mstate) :
  run r s None = st :: tl ->
  exec r pos s =
  Some (mkResult pos (take (length s - length (fst st)) s) (mkCaptures r (snd st))).
Proof. intros H. rewrite exec_unfold, H. reflexivity. Qed.

(** What a successful search found: the first position at which the
    pattern matches, and the match the engine prefers there. *)
Lemma exec_Some (r : regex) (pos : nat) (s : jsstring) (res : result) :
  exec r pos s = Some res ->
  exists k st tl,
    k <= length s /\ index res = pos + k /\
    (forall j, j < k -> run r (drop j s) None = []) /\
    run r (drop k s) None = st :: tl /\
    matched res = take (length (drop k s) - length (fst st)) (drop k s) /\
    captures res = mkCaptures r (snd st).
Proof.
  revert pos; induction s as [|c s IH]; intros pos.
  - rewrite exec_unfold. destruct (run r [] None) as [|st tl] eqn:E; [discriminate|].
    intros [= <-]. exists O, st, tl. cbn [drop index matched captures length].
    rewrite E. split; [lia|]. split; [lia|]. split; [intros; lia|]. auto.
  - rewrite exec_unfold. destruct (run r (c :: s) None) as [|st tl] eqn:E.
    + intros H. apply IH in H as (k & st & tl & Hk & Hi & Hno & Hrun & Hm & Hc).
      exists (S k), st, tl. cbn [drop length].
      split; [lia|]. split; [lia|]. split; [|auto].
      intros [|j] Hj; [exact E|]. apply Hno. lia.
    + intros [= <-]. exists O, st, tl. cbn [drop index matched captures].
      rewrite E. split; [lia|]. split; [lia|]. split; [intros; lia|]. auto.
Qed.

Lemma exec_None (r : regex) (pos : nat) (s : jsstring) :
  (forall k, k <= length s -> run r (drop k s) None = []) ->
  exec r pos s = None.
Proof.
  revert pos; induction s as [|c s IH]; intros pos H.
  - rewrite exec_unfold. specialize (H O ltac:(cbn; lia)). cbn in H.
    rewrite H. reflexivity.
  - rewrite exec_unfold. pose proof (H O ltac:(cbn; lia)) as H0. cbn in H0.
    rewrite H0. apply IH. intros k Hk. apply (H (S k)). cbn; lia.
Qed.

Lemma exec_bounds (r : regex) (pos : nat) (s : jsstring) (res : result) :
  exec r pos s = Some res ->
  pos <= index res /\ index res + length (matched res) <= pos + length s.
Proof.
  intros H. apply exec_Some in H as (k & st & tl & Hk & Hi & _ & _ & Hm & _).
  rewrite Hi, Hm, length_take, length_drop. lia.
Qed.

(** ** The global loop *)

Lemma execLoop_fuel (r : regex) (whole : jsstring) (f1 f2 pos : nat) :
  pos <= length whole ->
  S (length whole) <= f1 + pos -> S (length whole) <= f2 + pos ->
  execLoop f1 r whole pos = execLoop f2 r whole pos.
Proof.
  revert f2 pos; induction f1 as [|f1 IH]; intros f2 pos Hpos H1 H2; [lia|].
  destruct f2 as [|f2]; [lia|]. cbn [execLoop].
  destruct (exec r pos (drop pos whole)) as [res|] eqn:E; [|reflexivity].
  apply exec_bounds in E as [Hlo Hhi]. f_equal.
  destruct (Nat.eqb_spec (length (matched res)) 0) as [E0|E0];
    match goal with |- context [?n <=? length whole] =>
      destruct (Nat.leb_spec n (length whole)); [apply IH; lia|reflexivity] end.
Qed.

Lemma execLoop_shift (r : regex) (pre s : jsstring) (fuel p : nat) :
  execLoop fuel r (pre ++ s) (length pre + p) =
  map (shift (length pre)) (execLoop fuel r s p).
Proof.
  revert p; induction fuel as [|fuel IH]; intros p; [reflexivity|].
  cbn [execLoop]. rewrite drop_app_add, exec_shift.
  destruct (exec r p (drop p s)) as [res|]; [|reflexivity].
  cbn [option_map map shift index matched]. f_equal.
  rewrite length_app.
  destruct (length (matched res) =? 0).
  - replace (S (length pre + index res + length (matched res)))
      with (length pre + S (index res + length (matched res))) by lia.
    destruct (Nat.leb_spec (S (index res + length (matched res))) (length s)) as [Hle|Hgt].
    + rewrite (proj2 (Nat.leb_le _ _)) by lia. apply IH.
    + rewrite (proj2 (Nat.leb_gt _ _)) by lia. reflexivity.
  - rewrite <- Nat.add_assoc.
    destruct (Nat.leb_spec (index res + length (matched res)) (length s)) as [Hle|Hgt].
    + rewrite (proj2 (Nat.leb_le _ _)) by lia. apply IH.
    + rewrite (proj2 (Nat.leb_gt _ _)) by lia. reflexivity.
Qed.

(** The results of a search that starts at [k], seen from there. *)
Lemma execLoop_drop (r : regex) (s : jsstring) (k : nat) :
  1 <= k <= length s ->
  execLoop (length s) r s k = map (shift k) (execAll r (drop k s)).
Proof.
  intros Hk.
  pose proof (execLoop_shift r (take k s) (drop k s) (length s) 0) as H.
  rewrite take_drop, length_take in H.
  replace (min k (length s) + 0) with k in H by lia.
  replace (min k (length s)) with k in H by lia.
  rewrite H. f_equal. unfold execAll.
  apply execLoop_fuel; rewrite ?length_drop; lia.
Qed.

(** ** Deleting the matches of a pattern: [replace(re, '')] *)

Lemma replaceRegex_finish (r : regex) (tmpl s : jsstring) :
  replaceRegex r tmpl s =
  finish s (fold_left (replaceStep tmpl s) (execAll r s) ([], 0)).
Proof.
  unfold replaceRegex, finish.
  destruct (fold_left _ _ _); reflexivity.
Qed.

Lemma deleteStep (whole out : jsstring) (n : nat) (res : result) :
  replaceStep [] whole (out, n) res =
  if n <=? index res
  then (out ++ take (index res - n) (drop n whole), index res + length (matched res))
  else (out, n).
Proof.
  unfold replaceStep. destruct (n <=? index res); [|reflexivity].
  cbn [expand]. rewrite app_nil_r. reflexivity.
Qed.

(** Two folds in step: one over the whole text from [k] on, one over the
    text after [k]. They append the same pieces. *)
Lemma delete_fold_sync (s : jsstring) (k : nat) (L : list result)
      (o1 o2 : jsstring) (n : nat) :
  exists d n',
    fold_left (replaceStep [] s) (map (shift k) L) (o1, k + n) = (o1 ++ d, k + n') /\
    fold_left (replaceStep [] (drop k s)) L (o2, n) = (o2 ++ d, n').
Proof.
  revert o1 o2 n; induction L as [|res L IH]; intros o1 o2 n.
  - exists [], n. cbn. rewrite !app_nil_r. auto.
  - cbn [map fold_left]. rewrite !deleteStep. cbn [shift index matched].
    destruct (Nat.leb_spec n (index res)) as [Hle|Hgt].
    + rewrite (proj2 (Nat.leb_le (k + n) (k + index res))) by lia.
      replace (k + index res - (k + n)) with (index res - n) by lia.
      rewrite drop_drop.
      destruct (IH (o1 ++ take (index res - n) (drop (k + n) s))
                   (o2 ++ take (index res - n) (drop (k + n) s))
                   (index res + length (matched res))) as (d & n' & H1 & H2).
      exists (take (index res - n) (drop (k + n) s) ++ d), n'.
      rewrite Nat.add_assoc in H1. rewrite H1, H2, !app_assoc. auto.
    + rewrite (proj2 (Nat.leb_gt (k + n) (k + index res))) by lia.
      apply IH.
Qed.

Lemma delete_fold_shift (s : jsstring) (k : nat) (L : list result)
      (out : jsstring) (n : nat) :
  n <= k -> k <= length s ->
  finish s (fold_left (replaceStep [] s) (map (shift k) L) (out, n)) =
  out ++ take (k - n) (drop n s)
      ++ finish (drop k s) (fold_left (replaceStep [] (drop k s)) L ([], 0)).
Proof.
  intros Hn Hk. destruct L as [|res L].
  - unfold finish. cbn [map fold_left fst snd app]. rewrite drop_0. f_equal.
    rewrite <- (take_drop (k - n) (drop n s)) at 1. rewrite drop_drop.
    replace (n + (k - n)) with k by lia. reflexivity.
  - cbn [map fold_left]. rewrite !deleteStep. cbn [shift index matched].
    rewrite (proj2 (Nat.leb_le n (k + index res))) by lia.
    cbn [Nat.leb app]. rewrite Nat.sub_0_r, drop_0.
    destruct (delete_fold_sync s k L (out ++ take (k + index res - n) (drop n s))
                (take (index res) (drop k s))
                (index res + length (matched res))) as (d & n' & H1 & H2).
    rewrite Nat.add_assoc in H1. rewrite H1, H2. unfold finish. cbn [fst snd].
    rewrite drop_drop, <- !app_assoc. f_equal.
    replace (k + index res - n) with ((k - n) + index res) by lia.
    rewrite <- take_take_drop, drop_drop, <- app_assoc.
    replace (n + (k - n)) with k by lia. reflexivity.
Qed.

(** [replace(re, '')], one match at a time: the text before the first
    match is kept, the match is dropped, and the rest is treated the same
    way (after an empty match, from the next character on). *)
Lemma deleteRegex_unfold (r : regex) (s : jsstring) :
  replaceRegex r [] s =
  match exec r 0 s with
  | None => s
  | Some res =>
      take (index res) s ++
      match matched res with
      | [] =>
          match drop (index res) s with
          | [] => []
          | c :: s' => c :: replaceRegex r [] s'
          end
      | _ :: _ => replaceRegex r [] (drop (index res + length (matched res)) s)
      end
  end.
Proof.
  rewrite replaceRegex_finish. unfold execAll. cbn [execLoop]. rewrite drop_0.
  destruct (exec r 0 s) as [res|] eqn:E; [|reflexivity].
  apply exec_bounds in E as [_ Hhi]. cbn [Nat.add] in Hhi.
  cbn [fold_left]. rewrite deleteStep. cbn [Nat.leb].
  rewrite Nat.sub_0_r, drop_0. cbn [app].
  destruct (matched res) as [|m0 m] eqn:Em.
  - cbn [length Nat.eqb] in *. rewrite Nat.add_0_r in *.
    destruct (Nat.leb_spec (S (index res)) (length s)) as [Hle|Hgt].
    + rewrite execLoop_drop by lia. rewrite delete_fold_shift by lia.
      replace (S (index res) - index res) with 1 by lia.
      rewrite <- replaceRegex_finish.
      destruct (drop (index res) s) as [|c s'] eqn:Ed.
      { apply (f_equal length) in Ed. rewrite length_drop in Ed. cbn in Ed. lia. }
      replace (drop (S (index res)) s) with s'.
      2:{ replace (S (index res)) with (index res + 1) by lia.
          rewrite <- drop_drop, Ed. reflexivity. }
      reflexivity.
    + cbn [fold_left]. unfold finish. cbn [fst snd].
      rewrite (drop_ge s (index res)) by lia. reflexivity.
  - cbn [length Nat.eqb] in *.
    rewrite (proj2 (Nat.leb_le _ _)) by lia.
    rewrite execLoop_drop by lia. rewrite delete_fold_shift by lia.
    rewrite Nat.sub_diag. cbn [take app].
    rewrite <- replaceRegex_finish. reflexivity.
Qed.

(** Text in which no match starts is copied. *)
Lemma deleteRegex_skip (r : regex) (t rest : jsstring) :
  noMatchIn r t rest ->
  replaceRegex r [] (t ++ rest) = t ++ replaceRegex r [] rest.
Proof.
  intros H. rewrite (deleteRegex_unfold r (t ++ rest)), (deleteRegex_unfold r rest).
  rewrite exec_skip by assumption. cbn [Nat.add].
  rewrite <- (Nat.add_0_r (length t)), exec_shift.
  destruct (exec r 0 rest) as [res|]; [|reflexivity].
  cbn [option_map shift index matched].
  rewrite take_app_add, <- app_assoc. f_equal.
  rewrite <- Nat.add_assoc, !drop_app_add. reflexivity.
Qed.

(** A non-empty match at the start is dropped. *)
Lemma deleteRegex_hit (r : regex) (m rest : jsstring) (cap : option jsstring)
      (tl : list mstate) :
  m <> [] ->
  run r (m ++ rest) None = (rest, cap) :: tl ->
  replaceRegex r [] (m ++ rest) = replaceRegex r [] rest.
Proof.
  intros Hm Hrun. rewrite (deleteRegex_unfold r (m ++ rest)).
  rewrite (exec_hit _ _ _ _ _ Hrun). cbn [index matched fst].
  rewrite length_app, Nat.add_sub, take_app_length. cbn [take app Nat.add].
  destruct m as [|m0 m]; [congruence|].
  rewrite drop_app_length. reflexivity.
Qed.

(** Without a match nothing changes. *)
Lemma deleteRegex_none (r : regex) (s : jsstring) :
  (forall k, k <= length s -> run r (drop k s) None = []) ->
  replaceRegex r [] s = s.
Proof.
  intros H. rewrite deleteRegex_unfold, (exec_None r 0 s H). reflexivity.
Qed.

Lemma stripPrefix_Some (p s rest : jsstring) :
  stripPrefix p s = Some rest <-> s = p ++ rest.
Proof.
  revert s; induction p as [|c p IH]; intros s; cbn.
  - split; [intros [= ->]|intros ->]; reflexivity.
  - destruct s as [|x s]; [split; discriminate|].
    destruct (N.eqb_spec x c) as [->|Hne].
    + rewrite IH. split; [intros ->|intros [= ->]]; reflexivity.
    + split; [discriminate|intros [= ? ?]; congruence].
Qed.

Lemma stripPrefix_app (p rest : jsstring) : stripPrefix p (p ++ rest) = Some rest.
Proof. apply stripPrefix_Some. reflexivity. Qed.

Lemma execLoop_In (r : regex) (whole : jsstring) (fuel pos : nat) (res : result) :
  In res (execLoop fuel r whole pos) ->
  exists st tl,
    pos <= index res /\
    run r (drop (index res) whole) None = st :: tl /\
    matched res =
      take (length (drop (index res) whole) - length (fst st)) (drop (index res) whole).
Proof.
  revert pos; induction fuel as [|fuel IH]; intros pos; [intros []|].
  cbn [execLoop].
  destruct (exec r pos (drop pos whole)) as [res0|] eqn:E; [|intros []].
  intros [<-|Hin].
  - apply exec_Some in E as (k & st & tl & Hk & Hi & _ & Hrun & Hm & _).
    rewrite drop_drop in Hrun, Hm. rewrite <- Hi in Hrun, Hm.
    exists st, tl. split; [lia|]. split; assumption.
  - apply exec_bounds in E as [Hlo _].
    destruct (_ <=? length whole); [|destruct Hin].
    apply IH in Hin as (st & tl & Hle & H).
    exists st, tl. split; [|exact H].
    destruct (length (matched res0) =? 0); lia.
Qed.

(** Every result of a global search is a match of the pattern at its
    index, and its text is read off the input there. *)
Lemma execAll_In (r : regex) (s : jsstring) (res : result) :
  In res (execAll r s) ->
  exists st tl,
    run r (drop (index res) s) None = st :: tl /\
    matched res =
      take (length (drop (index res) s) - length (fst st)) (drop (index res) s).
Proof.
  intros H. apply execLoop_In in H as (st & tl & _ & H). eauto.
Qed.

(** ** The first pass of the JS minifier *)

Lemma run_http (s : jsstring) (cap : option jsstring) :
  (exists rest, s = js "http:" ++ rest \/ s = js "https:" ++ rest) ->
  run (Seq (Lit (js "http")) (Seq (Opt (Chr 115)) (Chr 58))) s cap <> [].
Proof.
  intros [rest [-> | ->]]; norm_lit; cbn -[Nat.ltb]; [discriminate|].
  unfold progress; cbn [fst length].
  rewrite (proj2 (Nat.ltb_lt _ _)) by lia. cbn. discriminate.
Qed.

Lemma flat_map_nonempty {A B : Type} (f : A -> list B) (l : list A) (x : A) :
  In x l -> f x <> [] -> flat_map f l <> [].
Proof.
  intros Hin Hx Hnil. apply Hx.
  destruct (f x) as [|y ys] eqn:E; [reflexivity|exfalso].
  assert (Hy : In y (flat_map f l)) by (apply in_flat_map; exists x; rewrite E; cbn; auto).
  rewrite Hnil in Hy. destruct Hy.
Qed.

(** Taking no iteration is always one of the ways a star can match. *)
Lemma run_Star_Cls_self (g neg : bool) (items : list citem) (s : jsstring)
      (cap : option jsstring) :
  In (s, cap) (run (Star g (Cls neg items)) s cap).
Proof.
  destruct s as [|x s]; [cbn; auto|].
  rewrite run_Star_Cls_cons. cbv zeta.
  destruct g; [apply in_or_app; right|]; cbn; auto.
Qed.

(** The look-ahead of the pattern finds a URL scheme exactly when the
    specification's reading of the line does. *)
Lemma urlAhead_found (rest : jsstring) (cap : option jsstring) :
  urlLaterOnLine rest = true -> run reUrlAhead rest cap <> [].
Proof.
  unfold reUrlAhead. rewrite run_Seq.
  induction rest as [|c t IH]; intros H.
  - cbn in H. discriminate.
  - cbn [urlLaterOnLine] in H.
    destruct (stripPrefix (js "http:") (c :: t)) as [r1|] eqn:E1.
    { apply stripPrefix_Some in E1.
      apply flat_map_nonempty with (x := (c :: t, cap)); [apply run_Star_Cls_self|].
      apply run_http. eauto. }
    destruct (stripPrefix (js "https:") (c :: t)) as [r2|] eqn:E2.
    { apply stripPrefix_Some in E2.
      apply flat_map_nonempty with (x := (c :: t, cap)); [apply run_Star_Cls_self|].
      apply run_http. eauto. }
    destruct (N.eqb_spec c 10) as [->|Hc]; [discriminate|].
    specialize (IH H). unfold notChar in *. rewrite run_Star_Cls_cons.
    cbn [existsb citem_match xorb orb]. rewrite (proj2 (N.eqb_neq c 10) Hc).
    cbn [negb xorb]. cbv zeta. rewrite flat_map_app.
    intros Hnil. apply app_eq_nil in Hnil as [Hnil _]. auto.
Qed.

(** A line comment is matched only where the look-ahead fails. *)
Lemma run_lineComment (s : jsstring) (st : mstate) (tl : list mstate) :
  run reLineComment s None = st :: tl ->
  exists rest, s = js "//" ++ rest /\ run reUrlAhead rest None = [].
Proof.
  unfold reLineComment. rewrite run_Seq, run_Lit.
  destruct (stripPrefix (js "//") s) as [rest|] eqn:E; [|discriminate].
  apply stripPrefix_Some in E. cbn [flat_map fst snd]. rewrite app_nil_r, run_Seq.
  rewrite run_NegLook. destruct (run reUrlAhead rest None) eqn:EU; [eauto|discriminate].
Qed.

(** C1 (the code misses the claim).  On the line of the claim (its double
    quotes written as backquotes below) the first pass takes the [//]
    inside the string literal for a comment start, because the look-ahead
    only looks for [http:] or [https:] AFTER the marker: the span it
    deletes starts at index 19 and runs to the end of the line.  The
    trailing comment is gone, and so is the rest of the string literal:
    the output stops after [https:]. *)
Theorem minifyJS_url_line_truncated :
  let line := jsq "const url = `https://example.com`; // real comment" in
  map (fun res => (index res, length (matched res))) (execAll reLineComment line)
    = [(19, 31)]
  /\ minifyJSContent line = jsq "const url=`https:"
  /\ includes (js "// real comment") (minifyJSContent line) = false
  /\ includes (jsq "`https://example.com`") (minifyJSContent line) = false.
Proof. vm_compute. repeat split. Qed.

(** C2.  A marker [//] that is followed later on the same line by [http:]
    or [https:] never starts a span deleted by the line-comment pass: the
    pass deletes the results of [execAll reLineComment], and none of them
    has its index at such a marker. *)
Theorem lineComment_not_at_url_marker (src : jsstring) (i : nat) (rest : jsstring) :
  drop i src = js "//" ++ rest ->
  urlLaterOnLine rest = true ->
  ~ In i (map index (execAll reLineComment src)).
Proof.
  intros Hmark Hurl Hin.
  apply in_map_iff in Hin as (res & <- & Hin).
  apply execAll_In in Hin as (st & tl & Hrun & _).
  apply run_lineComment in Hrun as (rest' & Hs & Hno).
  rewrite Hmark in Hs. apply app_inv_head in Hs as <-.
  exact (urlAhead_found rest None Hurl Hno).
Qed.

Lemma lineComment_not_at_url_marker_witness :
  let src := jsq "var u = `x`; // see https://example.com // for more" in
  drop 13 src = js "//" ++ jsq " see https://example.com // for more"
  /\ urlLaterOnLine (jsq " see https://example.com // for more") = true
  /\ ~ In 13 (map index (execAll reLineComment src)).
Proof.
  split; [reflexivity|]. split; [reflexivity|].
  apply (lineComment_not_at_url_marker _ 13 (jsq " see https://example.com // for more"));
    reflexivity.
Defined.

(** ** The critical-CSS extractor *)

Lemma matchRegex_join {B : Type} (f : jsstring -> B) (r : regex) (s acc : jsstring) :
  match matchRegex r s with
  | Some matches => f (acc ++ join matches)
  | None => f acc
  end = f (acc ++ join (matchList r s)).
Proof.
  unfold matchRegex, matchList.
  destruct (execAll r s); [cbn; rewrite app_nil_r|]; reflexivity.
Qed.

(** For each critical selector, escaping and [new RegExp] give the pattern
    of its rule blocks. *)
Lemma newRegExp_selectors :
  Forall (fun selector =>
            newRegExp (escapeSelector selector ++ js "\s*{[^}]*}") = Ok (ruleRe selector))
         criticalSelectors.
Proof. repeat constructor. Qed.

Lemma extractSelector_loop (fullCSS : jsstring) (selectors : list jsstring) (acc : jsstring) :
  Forall (fun selector =>
            newRegExp (escapeSelector selector ++ js "\s*{[^}]*}") = Ok (ruleRe selector))
         selectors ->
  foldRes (extractSelector fullCSS) selectors acc =
  Ok (acc ++ join (flat_map (fun selector => matchList (ruleRe selector) fullCSS) selectors)).
Proof.
  intros H; revert acc; induction H as [|sel sels Hsel _ IH]; intros acc.
  - cbn. rewrite app_nil_r. reflexivity.
  - cbn [foldRes flat_map]. unfold extractSelector at 1. rewrite Hsel. cbn [bindRes].
    rewrite (matchRegex_join Ok). cbn [bindRes]. rewrite IH.
    unfold join. rewrite concat_app, app_assoc. reflexivity.
Qed.

(** The extractor never throws, and its output is the concatenation of
    the blocks it found. *)
Lemma criticalCSSOf_emitted (fullCSS : jsstring) :
  criticalCSSOf fullCSS = Ok (join (emitted fullCSS)).
Proof.
  unfold criticalCSSOf. rewrite (matchRegex_join (fun x => x)).
  rewrite extractSelector_loop by exact newRegExp_selectors.
  unfold emitted, join. rewrite concat_app. reflexivity.
Qed.

(** A match is a piece of the input. *)
Lemma matchList_substring (r : regex) (s b : jsstring) :
  In b (matchList r s) -> exists pre post, s = pre ++ b ++ post.
Proof.
  unfold matchList. intros H. apply in_map_iff in H as (res & <- & Hin).
  apply execAll_In in Hin as (st & tl & _ & ->).
  eexists (take (index res) s), _.
  rewrite take_drop, take_drop. reflexivity.
Qed.

(** Two patterns that match alike find the same things. *)
Lemma exec_ext (r1 r2 : regex) (pos : nat) (s : jsstring) :
  (forall s, run r1 s None = run r2 s None) -> ngroups r1 = ngroups r2 ->
  exec r1 pos s = exec r2 pos s.
Proof.
  intros Hrun Hg. revert pos; induction s as [|c s IH]; intros pos;
    rewrite (exec_unfold r1 pos), (exec_unfold r2 pos), Hrun;
    unfold mkCaptures; rewrite Hg; [reflexivity|].
  destruct (run r2 (c :: s) None); [apply IH|reflexivity].
Qed.

Lemma execAll_ext (r1 r2 : regex) (s : jsstring) :
  (forall s, run r1 s None = run r2 s None) -> ngroups r1 = ngroups r2 ->
  execAll r1 s = execAll r2 s.
Proof.
  intros Hrun Hg. unfold execAll. generalize (S (length s)) as fuel, 0 as pos.
  induction fuel as [|fuel IH]; intros pos; [reflexivity|].
  cbn [execLoop]. rewrite (exec_ext r1 r2) by assumption.
  destruct (exec r2 pos (drop pos s)); [|reflexivity].
  rewrite IH. reflexivity.
Qed.

Lemma run_litThen (p : jsstring) (tail : regex) (s : jsstring) (cap : option jsstring) :
  run (fold_right (fun c r => Seq (Chr c) r) tail p) s cap =
  match stripPrefix p s with
  | Some rest => run tail rest cap
  | None => []
  end.
Proof.
  revert s; induction p as [|c p IH]; intros s; [reflexivity|].
  destruct s as [|x s]; [reflexivity|].
  cbn [fold_right run stripPrefix flat_map].
  destruct (x =? c)%N; cbn [flat_map fst snd]; [|reflexivity].
  rewrite IH, app_nil_r. reflexivity.
Qed.

Lemma flat_map_singleton {A : Type} (l : list (A * option jsstring)) :
  flat_map (fun st => [(fst st, snd st)]) l = l.
Proof. induction l as [|[a b] l IH]; cbn; [|rewrite IH]; reflexivity. Qed.

Lemma flat_map_ext' {A B : Type} (f g : A -> list B) (l : list A) :
  (forall x, f x = g x) -> flat_map f l = flat_map g l.
Proof. intros H. induction l as [|x l IH]; cbn; [|rewrite H, IH]; reflexivity. Qed.

Lemma run_Seq_Eps (r : regex) (s : jsstring) (cap : option jsstring) :
  run (Seq r Eps) s cap = run r s cap.
Proof. rewrite run_Seq. apply (flat_map_singleton (run r s cap)). Qed.

(** The literal pattern of the first pass and the pattern built for the
    selector [:root] match alike. *)
Lemma run_reRoot (s : jsstring) (cap : option jsstring) :
  run reRoot s cap = run (ruleRe (js ":root")) s cap.
Proof.
  unfold reRoot, ruleRe. rewrite run_Seq, run_Lit, run_litThen.
  destruct (stripPrefix (js ":root") s) as [rest|]; [|reflexivity].
  cbn [flat_map fst snd]. rewrite app_nil_r. unfold ruleTail.
  rewrite !run_Seq. apply flat_map_ext'. intros st1.
  rewrite !run_Seq. apply flat_map_ext'. intros st2.
  rewrite !run_Seq. apply flat_map_ext'. intros st3.
  rewrite run_Seq_Eps. reflexivity.
Qed.

Lemma matchList_reRoot (s : jsstring) :
  matchList reRoot s = matchList (ruleRe (js ":root")) s.
Proof.
  unfold matchList. rewrite (execAll_ext reRoot (ruleRe (js ":root"))); [reflexivity| |reflexivity].
  intros s'. apply run_reRoot.
Qed.

Lemma run_Star_Cls_In (g neg : bool) (items : list citem) (s : jsstring)
      (cap : option jsstring) (st : mstate) :
  In st (run (Star g (Cls neg items)) s cap) ->
  exists w, s = w ++ fst st /\ snd st = cap /\
            Forall (fun x => xorb neg (existsb (citem_match x) items) = true) w.
Proof.
  induction s as [|x s IH].
  - cbn. intros [<-|[]]. exists []. auto.
  - rewrite run_Star_Cls_cons. cbv zeta. intros H.
    assert (Hcases : st = (x :: s, cap) \/
                     (xorb neg (existsb (citem_match x) items) = true /\
                      In st (run (Star g (Cls neg items)) s cap))).
    { destruct (xorb neg (existsb (citem_match x) items)); destruct g;
        cbn in H; rewrite ?in_app_iff in H; cbn in H; intuition auto. }
    destruct Hcases as [->|[Hx Hin]].
    + exists []. auto.
    + destruct (IH Hin) as (w & -> & Hc & Hw).
      exists (x :: w). split; [reflexivity|]. split; [assumption|]. constructor; assumption.
Qed.

(** What a match of a rule pattern looks like: the selector, white space,
    and a pair of braces with no closing brace between them. *)
Lemma run_ruleRe_In (selector s : jsstring) (cap : option jsstring) (st : mstate) :
  In st (run (ruleRe selector) s cap) ->
  exists ws body,
    s = selector ++ ws ++ js "{" ++ body ++ js "}" ++ fst st /\
    Forall (fun c => isSpace c = true) ws /\ ~ In 125%N body.
Proof.
  unfold ruleRe. rewrite run_litThen.
  destruct (stripPrefix selector s) as [rest|] eqn:E; [|intros []].
  apply stripPrefix_Some in E as ->. unfold ruleTail.
  rewrite run_Seq. intros H. apply in_flat_map in H as (st1 & H1 & H).
  apply run_Star_Cls_In in H1 as (ws & -> & _ & Hws).
  rewrite run_Seq in H. apply in_flat_map in H as (st2 & H2 & H).
  destruct (fst st1) as [|c1 r1] eqn:E1; [destruct H2|]. cbn [run] in H2.
  destruct (N.eqb_spec c1 123) as [->|]; [|destruct H2].
  destruct H2 as [<-|[]]. cbn [fst snd] in H.
  rewrite run_Seq in H. apply in_flat_map in H as (st3 & H3 & H).
  apply run_Star_Cls_In in H3 as (body & -> & _ & Hbody).
  rewrite run_Seq_Eps in H.
  destruct (fst st3) as [|c3 r3] eqn:E3; [destruct H|]. cbn [run] in H.
  destruct (N.eqb_spec c3 125) as [->|]; [|destruct H].
  destruct H as [<-|[]]. cbn [fst].
  exists ws, body. split; [reflexivity|]. split.
  - eapply Forall_impl; [exact Hws|]. cbn. intros c Hc.
    rewrite orb_false_r in Hc. exact Hc.
  - intros Hin. rewrite List.Forall_forall in Hbody. specialize (Hbody _ Hin).
    cbn in Hbody. discriminate.
Qed.

Lemma matchList_ruleRe (selector css b : jsstring) :
  In b (matchList (ruleRe selector) css) ->
  exists ws body,
    b = selector ++ ws ++ js "{" ++ body ++ js "}" /\
    Forall (fun c => isSpace c = true) ws /\ ~ In 125%N body.
Proof.
  unfold matchList. intros H. apply in_map_iff in H as (res & <- & Hin).
  apply execAll_In in Hin as (st & tl & Hrun & ->).
  assert (Hst : In st (run (ruleRe selector) (drop (index res) css) None))
    by (rewrite Hrun; left; reflexivity).
  apply run_ruleRe_In in Hst as (ws & body & Hs & Hws & Hbody).
  exists ws, body. split; [|auto].
  rewrite Hs.
  replace (selector ++ ws ++ js "{" ++ body ++ js "}" ++ fst st)
    with ((selector ++ ws ++ js "{" ++ body ++ js "}") ++ fst st)
    by (rewrite <- !app_assoc; reflexivity).
  rewrite length_app, Nat.add_sub. apply take_app_length.
Qed.

Lemma in_concat_split {A : Type} (l : list (list A)) (b : list A) :
  In b l -> exists p q, concat l = p ++ b ++ q.
Proof.
  intros H. apply in_split in H as (l1 & l2 & ->).
  exists (concat l1), (concat l2). rewrite concat_app. reflexivity.
Qed.

(** C5.  The extractor returns the concatenation of the blocks it found
    ([emitted]), and each of them stands verbatim in the minified CSS; it
    is a rule block of a critical selector: the selector, optional white
    space, and braces around text without a closing brace. *)
Theorem emitted_blocks_verbatim (fullCSS : jsstring) :
  criticalCSSOf fullCSS = Ok (join (emitted fullCSS)) /\
  Forall (fun b =>
            (exists pre post, fullCSS = pre ++ b ++ post) /\
            (exists selector ws body,
                In selector criticalSelectors /\
                b = selector ++ ws ++ js "{" ++ body ++ js "}" /\
                Forall (fun c => isSpace c = true) ws /\ ~ In 125%N body))
         (emitted fullCSS).
Proof.
  split; [apply criticalCSSOf_emitted|].
  apply List.Forall_forall. intros b Hb. unfold emitted in Hb.
  apply in_app_or in Hb as [Hb|Hb].
  - split; [eapply matchList_substring; exact Hb|].
    rewrite matchList_reRoot in Hb.
    apply matchList_ruleRe in Hb as (ws & body & H).
    exists (js ":root"), ws, body. split; [left; reflexivity|exact H].
  - apply in_flat_map in Hb as (sel & Hsel & Hb).
    split; [eapply matchList_substring; exact Hb|].
    apply matchList_ruleRe in Hb as (ws & body & H).
    exists sel, ws, body. auto.
Qed.

(** C4.  A block [b] found by the first pass stands in the output before
    the block [m] of any other critical selector: the output starts with
    all the blocks of the first pass, then come the matches of [:root]
    found again by the loop, and only then the matches of the other
    selectors, [m] among them. *)
Theorem root_blocks_first (fullCSS b selector m : jsstring) :
  In b (matchList reRoot fullCSS) ->
  In selector criticalSelectors -> selector <> js ":root" ->
  In m (matchList (ruleRe selector) fullCSS) ->
  exists p1 p2 q1 q2,
    join (matchList reRoot fullCSS) = p1 ++ b ++ p2 /\
    criticalCSSOf fullCSS =
      Ok ((p1 ++ b ++ p2) ++ join (matchList reRoot fullCSS) ++ (q1 ++ m ++ q2)).
Proof.
  intros Hb Hsel Hne Hm.
  destruct (in_concat_split _ _ Hb) as (p1 & p2 & Hroot).
  assert (Hm' : In m (flat_map (fun s => matchList (ruleRe s) fullCSS)
                               (tl criticalSelectors))).
  { apply in_flat_map. exists selector. split; [|exact Hm].
    destruct Hsel as [Hsel|Hsel]; [congruence|exact Hsel]. }
  destruct (in_concat_split _ _ Hm') as (q1 & q2 & Hloop).
  exists p1, p2, q1, q2. split; [exact Hroot|].
  rewrite criticalCSSOf_emitted. f_equal. unfold emitted, join in *.
  rewrite concat_app, <- Hroot, <- Hloop. f_equal.
  change criticalSelectors with (js ":root" :: tl criticalSelectors).
  cbn [flat_map]. rewrite concat_app, <- matchList_reRoot. reflexivity.
Qed.

Lemma root_blocks_first_witness :
  let css := js ":root{--a:1px}body{margin:0}" in
  let b := js ":root{--a:1px}" in
  let m := js "body{margin:0}" in
  In b (matchList reRoot css) /\ In (js "body") criticalSelectors /\
  js "body" <> js ":root" /\ In m (matchList (ruleRe (js "body")) css) /\
  exists p1 p2 q1 q2,
    join (matchList reRoot css) = p1 ++ b ++ p2 /\
    criticalCSSOf css = Ok ((p1 ++ b ++ p2) ++ join (matchList reRoot css) ++ (q1 ++ m ++ q2)).
Proof.
  assert (H1 : In (js ":root{--a:1px}") (matchList reRoot (js ":root{--a:1px}body{margin:0}")))
    by (vm_compute; left; reflexivity).
  assert (H2 : In (js "body") criticalSelectors) by (vm_compute; tauto).
  assert (H3 : js "body" <> js ":root") by (vm_compute; discriminate).
  assert (H4 : In (js "body{margin:0}")
                  (matchList (ruleRe (js "body")) (js ":root{--a:1px}body{margin:0}")))
    by (vm_compute; left; reflexivity).
  repeat (split; [assumption|]).
  exact (root_blocks_first _ _ _ _ H1 H2 H3 H4).
Defined.

(** C10.  Every block found by the first pass is emitted at least twice:
    [:root] heads the list of critical selectors, the loop finds the same
    blocks again, and nothing removes duplicates. *)
Theorem root_blocks_twice (fullCSS b : jsstring) :
  In b (matchList reRoot fullCSS) ->
  2 <= count_occ (List.list_eq_dec N.eq_dec) (emitted fullCSS) b /\
  exists p1 p2 rest,
    join (matchList reRoot fullCSS) = p1 ++ b ++ p2 /\
    criticalCSSOf fullCSS = Ok ((p1 ++ b ++ p2) ++ (p1 ++ b ++ p2) ++ rest).
Proof.
  intros Hb. split.
  - unfold emitted. change criticalSelectors with (js ":root" :: tl criticalSelectors).
    cbn [flat_map]. rewrite <- matchList_reRoot, !count_occ_app.
    apply (count_occ_In (List.list_eq_dec N.eq_dec)) in Hb. lia.
  - destruct (in_concat_split _ _ Hb) as (p1 & p2 & Hroot).
    exists p1, p2,
      (join (flat_map (fun s => matchList (ruleRe s) fullCSS) (tl criticalSelectors))).
    split; [exact Hroot|].
    rewrite criticalCSSOf_emitted. f_equal. unfold emitted, join in *.
    rewrite concat_app, <- Hroot. f_equal.
    change criticalSelectors with (js ":root" :: tl criticalSelectors).
    cbn [flat_map]. rewrite concat_app, <- matchList_reRoot. reflexivity.
Qed.

Lemma root_blocks_twice_witness :
  let css := js ":root{--a:1px}body{margin:0}" in
  let b := js ":root{--a:1px}" in
  In b (matchList reRoot css) /\
  2 <= count_occ (List.list_eq_dec N.eq_dec) (emitted css) b /\
  exists p1 p2 rest,
    join (matchList reRoot css) = p1 ++ b ++ p2 /\
    criticalCSSOf css = Ok ((p1 ++ b ++ p2) ++ (p1 ++ b ++ p2) ++ rest).
Proof.
  assert (H1 : In (js ":root{--a:1px}") (matchList reRoot (js ":root{--a:1px}body{margin:0}")))
    by (vm_compute; left; reflexivity).
  split; [assumption|].
  exact (root_blocks_twice _ _ H1).
Defined.

(** ** The bundler *)

Lemma appendFile_file (fs : fileSystem) (combined file content : jsstring) :
  fs !! file = Some (File content) ->
  appendFile combined file fs =
  (Ok (combined ++ js "/* " ++ file ++ js " */" ++ nl ++ content ++ nl ++ nl), fs).
Proof.
  intros H. unfold appendFile, bind, existsSync, readFileSync, ret.
  rewrite H. cbv beta iota zeta. rewrite H. reflexivity.
Qed.

Lemma appendFile_missing (fs : fileSystem) (combined file : jsstring) :
  fs !! file = None -> appendFile combined file fs = (Ok combined, fs).
Proof.
  intros H. unfold appendFile, bind, existsSync, ret. rewrite H. reflexivity.
Qed.

(** Appending reads only. *)
Lemma appendFile_state (fs : fileSystem) (combined file : jsstring) :
  snd (appendFile combined file fs) = fs.
Proof.
  destruct (fs !! file) as [[content|]|] eqn:E.
  - rewrite (appendFile_file _ _ _ _ E). reflexivity.
  - unfold appendFile, bind, existsSync, readFileSync, ret.
    rewrite E. cbv beta iota zeta. rewrite E. reflexivity.
  - rewrite (appendFile_missing _ _ _ E). reflexivity.
Qed.

Lemma appendFile_section (fs : fileSystem) (combined file : jsstring) :
  fileOrMissing fs file ->
  appendFile combined file fs =
  (Ok (combined ++ (if present fs file then sectionOf fs file else [])), fs).
Proof.
  unfold fileOrMissing, present, sectionOf. intros H.
  destruct (fs !! file) as [[content|]|] eqn:E.
  - apply appendFile_file, E.
  - congruence.
  - rewrite app_nil_r. apply appendFile_missing, E.
Qed.

Lemma foldM_appendFile (fs : fileSystem) (files : list jsstring) (acc : jsstring) :
  Forall (fileOrMissing fs) files ->
  foldM appendFile files acc fs =
  (Ok (acc ++ concat (map (sectionOf fs) (List.filter (present fs) files))), fs).
Proof.
  intros H; revert acc; induction H as [|file files Hfile _ IH]; intros acc.
  - cbn. rewrite app_nil_r. reflexivity.
  - cbn [foldM List.filter]. unfold bind at 1.
    rewrite appendFile_section by assumption. rewrite IH.
    destruct (present fs file); cbn [map concat];
      rewrite ?app_nil_r, <- ?app_assoc; reflexivity.
Qed.

Lemma foldM_app {A B : Type} (body : A -> B -> M A) (l1 l2 : list B) (acc : A)
      (fs : fileSystem) :
  foldM body (l1 ++ l2) acc fs =
  bind (foldM body l1 acc) (foldM body l2) fs.
Proof.
  revert acc fs; induction l1 as [|x l1 IH]; intros acc fs; [reflexivity|].
  cbn [app foldM]. unfold bind at 1 2 3.
  destruct (body acc x fs) as [[acc'|e] fs']; [|reflexivity].
  rewrite IH. reflexivity.
Qed.

(** C6.  The combined text is one section per listed file that exists, each
    under the comment that names the file, in the order of the list; an
    entry that occurs twice gives two sections.  The file system is left as
    it was. *)
Theorem combineFiles_in_list_order (fs : fileSystem) (files : list jsstring) :
  Forall (fileOrMissing fs) files ->
  combineFiles files fs =
  (Ok (concat (map (sectionOf fs) (List.filter (present fs) files))), fs).
Proof. intros H. unfold combineFiles. rewrite foldM_appendFile by assumption. reflexivity. Qed.

(** C7.  An entry without a backing file changes nothing: the bundle is
    that of the list without the entry, and if the other entries are files
    (or missing too) the bundler returns. *)
Theorem combineFiles_skips_missing (fs : fileSystem) (l1 l2 : list jsstring)
        (file : jsstring) :
  fs !! file = None ->
  combineFiles (l1 ++ file :: l2) fs = combineFiles (l1 ++ l2) fs /\
  (Forall (fileOrMissing fs) (l1 ++ l2) ->
   exists combined, combineFiles (l1 ++ file :: l2) fs = (Ok combined, fs)).
Proof.
  intros Hmiss.
  assert (Heq : combineFiles (l1 ++ file :: l2) fs = combineFiles (l1 ++ l2) fs).
  { unfold combineFiles. rewrite !foldM_app. unfold bind.
    destruct (foldM appendFile l1 [] fs) as [[acc|e] fs'] eqn:E; [|reflexivity].
    assert (fs' = fs) as ->.
    { clear -E. revert E. generalize (@nil N) as a0. induction l1 as [|x l1 IH]; intros a0.
      - cbn. intros [= _ <-]. reflexivity.
      - cbn [foldM]. unfold bind.
        destruct (appendFile a0 x fs) as [[a1|e1] fs1] eqn:E1; [|discriminate].
        pose proof (appendFile_state fs a0 x) as Hfs. rewrite E1 in Hfs.
        cbn in Hfs. subst fs1. apply IH. }
    cbn [foldM]. unfold bind. rewrite appendFile_missing by assumption. reflexivity. }
  split; [exact Heq|].
  intros Hall. rewrite Heq. eexists. unfold combineFiles.
  apply foldM_appendFile, Hall.
Qed.

Lemma combineFiles_in_list_order_witness :
  Forall (fileOrMissing sampleFS) cssFiles /\
  combineFiles cssFiles sampleFS =
  (Ok (concat (map (sectionOf sampleFS) (List.filter (present sampleFS) cssFiles))),
   sampleFS).
Proof.
  assert (H : Forall (fileOrMissing sampleFS) cssFiles)
    by (repeat constructor; vm_compute; discriminate).
  split; [exact H|]. exact (combineFiles_in_list_order sampleFS cssFiles H).
Defined.

Lemma combineFiles_skips_missing_witness :
  sampleFS !! js "css/components.css" = None /\
  combineFiles ([js "css/main.css"] ++ js "css/components.css" :: [js "css/responsive.css"])
               sampleFS
  = combineFiles ([js "css/main.css"] ++ [js "css/responsive.css"]) sampleFS /\
  (Forall (fileOrMissing sampleFS) ([js "css/main.css"] ++ [js "css/responsive.css"]) ->
   exists combined,
     combineFiles ([js "css/main.css"] ++ js "css/components.css" :: [js "css/responsive.css"])
                  sampleFS = (Ok combined, sampleFS)).
Proof.
  assert (H : sampleFS !! js "css/components.css" = None) by (vm_compute; reflexivity).
  split; [exact H|].
  exact (combineFiles_skips_missing sampleFS [js "css/main.css"] [js "css/responsive.css"]
                                    (js "css/components.css") H).
Defined.

(** ** Markers and clean text *)

Lemma clash_app (k s rest : jsstring) :
  clash k s = true -> clash k (s ++ rest) = true.
Proof.
  revert s; induction k as [|a k IH]; intros [|b s]; cbn; try discriminate.
  destruct (a =? b)%N; auto.
Qed.

Lemma clash_stripPrefix (k s : jsstring) :
  clash k s = true -> stripPrefix k s = None.
Proof.
  revert s; induction k as [|a k IH]; intros [|b s]; cbn; try discriminate; try reflexivity.
  destruct (N.eqb_spec a b) as [->|Hne].
  - rewrite N.eqb_refl. apply IH.
  - intros _. rewrite (proj2 (N.eqb_neq b a)) by congruence. reflexivity.
Qed.


Lemma cleanFor_cons (K : list jsstring) (c : char) (t : jsstring) :
  cleanFor K (c :: t) = true <->
  (forall k, In k K -> clash k (c :: t) = true) /\ cleanFor K t = true.
Proof.
  cbn [cleanFor]. rewrite andb_true_iff, forallb_forall. reflexivity.
Qed.

Lemma cleanFor_app (K : list jsstring) (a b : jsstring) :
  cleanFor K a = true -> cleanFor K b = true -> cleanFor K (a ++ b) = true.
Proof.
  intros Ha Hb; induction a as [|c a IH]; [exact Hb|].
  apply cleanFor_cons in Ha as [Hc Ha]. cbn [app]. apply cleanFor_cons.
  split; [|auto]. intros k Hk. apply (clash_app k (c :: a) b). auto.
Qed.

Lemma cleanFor_In (K : list jsstring) (k : jsstring) (t : jsstring) :
  cleanFor K t = true -> In k K -> cleanFor [k] t = true.
Proof.
  intros Ht Hk; induction t as [|c t IH]; [reflexivity|].
  apply cleanFor_cons in Ht as [Hc Ht]. apply cleanFor_cons.
  split; [|auto]. intros k' [<-|[]]. auto.
Qed.



(** Text without the first character of any marker is clean. *)
Lemma cleanFor_free (K : list jsstring) (c0 : char) (t : jsstring) :
  Forall (fun k => exists k', k = c0 :: k') K -> ~ In c0 t -> cleanFor K t = true.
Proof.
  intros HK Ht; induction t as [|c t IH]; [reflexivity|].
  apply cleanFor_cons. split.
  - intros k Hk. rewrite List.Forall_forall in HK. destruct (HK k Hk) as [k' ->].
    cbn. destruct (N.eqb_spec c0 c) as [->|]; [|reflexivity].
    exfalso. apply Ht. left; reflexivity.
  - apply IH. intros H. apply Ht. right; exact H.
Qed.

(** In clean text followed by anything, no marker starts. *)
Lemma cleanFor_drop (k t rest : jsstring) (j : nat) :
  cleanFor [k] t = true -> j < length t ->
  stripPrefix k (drop j t ++ rest) = None.
Proof.
  revert j; induction t as [|c t IH]; intros j Ht Hj; [cbn in Hj; lia|].
  apply cleanFor_cons in Ht as [Hc Ht].
  destruct j as [|j].
  - cbn [drop]. apply clash_stripPrefix. apply (clash_app k (c :: t) rest).
    apply Hc. left; reflexivity.
  - cbn [drop]. apply IH; [assumption|cbn in Hj; lia].
Qed.

(** ** Replacing the first occurrence of a string *)

Lemma splitAt_unfold (pat s : jsstring) :
  splitAt pat s =
  match stripPrefix pat s with
  | Some post => Some ([], post)
  | None =>
      match s with
      | [] => None
      | c :: t =>
          match splitAt pat t with
          | Some (pre, post) => Some (c :: pre, post)
          | None => None
          end
      end
  end.
Proof. destruct s; reflexivity. Qed.

Lemma splitAt_skip (pat t rest : jsstring) :
  cleanFor [pat] t = true ->
  splitAt pat (t ++ rest) =
  match splitAt pat rest with
  | Some (pre, post) => Some (t ++ pre, post)
  | None => None
  end.
Proof.
  intros Ht; induction t as [|c t IH].
  - cbn [app]. destruct (splitAt pat rest) as [[pre post]|]; reflexivity.
  - pose proof (cleanFor_drop pat (c :: t) rest 0 Ht ltac:(cbn; lia)) as H0.
    cbn [drop] in H0. apply cleanFor_cons in Ht as [_ Ht].
    rewrite splitAt_unfold. cbn [app] in *. rewrite H0, IH by assumption.
    destruct (splitAt pat rest) as [[pre post]|]; reflexivity.
Qed.

Lemma splitAt_here (pat rest : jsstring) :
  splitAt pat (pat ++ rest) = Some ([], rest).
Proof. rewrite splitAt_unfold, stripPrefix_app. reflexivity. Qed.

Lemma splitAt_nil (pat : jsstring) : pat <> [] -> splitAt pat [] = None.
Proof. destruct pat; [congruence|reflexivity]. Qed.

(** A template without [$] is inserted as it is. *)
Lemma expand_plain (tmpl pre m post : jsstring) (caps : list (option jsstring)) :
  ~ In 36%N tmpl -> expand tmpl pre m post caps = tmpl.
Proof.
  induction tmpl as [|c t IH]; intros H; [reflexivity|].
  cbn [expand]. destruct (N.eqb_spec c 36) as [->|Hc].
  - exfalso. apply H. left; reflexivity.
  - cbn [negb]. rewrite IH; [reflexivity|]. intros Hin. apply H. right; exact Hin.
Qed.

Lemma replaceString_skip (pat tmpl t rest : jsstring) :
  ~ In 36%N tmpl -> cleanFor [pat] t = true ->
  replaceString pat tmpl (t ++ rest) = t ++ replaceString pat tmpl rest.
Proof.
  intros Htmpl Ht. unfold replaceString. rewrite splitAt_skip by assumption.
  destruct (splitAt pat rest) as [[pre post]|]; [|reflexivity].
  rewrite !expand_plain by assumption. rewrite <- app_assoc. reflexivity.
Qed.

Lemma replaceString_here (pat tmpl rest : jsstring) :
  ~ In 36%N tmpl ->
  replaceString pat tmpl (pat ++ rest) = tmpl ++ rest.
Proof.
  intros Htmpl. unfold replaceString. rewrite splitAt_here.
  rewrite expand_plain by assumption. reflexivity.
Qed.

Lemma replaceString_nil (pat tmpl : jsstring) :
  pat <> [] -> replaceString pat tmpl [] = [].
Proof. intros H. unfold replaceString. rewrite splitAt_nil by assumption. reflexivity. Qed.

(** Without the marker the text is returned as it is. *)
Lemma replaceString_absent (pat tmpl s : jsstring) :
  includes pat s = false -> replaceString pat tmpl s = s.
Proof.
  unfold includes, replaceString. destruct (splitAt pat s) as [[pre post]|];
    [discriminate|reflexivity].
Qed.



(** ** The two tag patterns *)

Lemma stripPrefix_app_pat (a b x : jsstring) :
  stripPrefix (a ++ b) x =
  match stripPrefix a x with
  | Some r => stripPrefix b r
  | None => None
  end.
Proof.
  revert x; induction a as [|c a IH]; intros x; [reflexivity|].
  destruct x as [|y x]; cbn; [reflexivity|]. destruct (y =? c)%N; auto.
Qed.

Lemma run_Lit_Seq_none (p : jsstring) (r : regex) (x : jsstring) (cap : option jsstring) :
  stripPrefix p x = None -> run (Seq (Lit p) r) x cap = [].
Proof. intros H. rewrite run_Seq, run_Lit, H. reflexivity. Qed.

Lemma run_Lit_Seq_some (p : jsstring) (r : regex) (x : jsstring) (cap : option jsstring) :
  run (Seq (Lit p) r) (p ++ x) cap = run r x cap.
Proof.
  rewrite run_Seq, run_Lit, stripPrefix_app. cbn [flat_map fst snd].
  apply app_nil_r.
Qed.

(** A greedy star over [[^q]] first runs to the end of text without [q];
    what it can do from there comes first. *)
Lemma run_Star_notChar_app (q : char) (w T : jsstring) (cap : option jsstring) :
  ~ In q w ->
  exists more,
    run (Star true (notChar q)) (w ++ T) cap =
    run (Star true (notChar q)) T cap ++ more.
Proof.
  induction w as [|c w IH]; intros Hw.
  - exists []. rewrite app_nil_r. reflexivity.
  - destruct IH as [more IH]; [intros H; apply Hw; right; exact H|].
    exists (more ++ [(c :: w ++ T, cap)]).
    cbn [app]. unfold notChar in *. rewrite run_Star_Cls_cons. cbv zeta.
    assert (Hc : xorb true (existsb (citem_match c) [CChar q]) = true).
    { cbn. rewrite orb_false_r. apply negb_true_iff, N.eqb_neq.
      intros ->. apply Hw. left; reflexivity. }
    rewrite Hc, IH, app_assoc. reflexivity.
Qed.

(** [[^q]+] followed by a literal that holds [q]: when the text is a name
    without [q] and then the literal, the first way to match ends right
    behind the literal, provided the literal, started later inside itself
    before its [q], does not match. *)
Lemma run_Plus_notChar_Lit (q : char) (name L rest : jsstring) (cap : option jsstring)
      (tl : list mstate) :
  name <> [] -> ~ In q name ->
  flat_map (fun st => run (Lit L) (fst st) (snd st))
           (run (Star true (notChar q)) (L ++ rest) cap) = (rest, cap) :: tl ->
  exists tl',
    run (Seq (Plus (notChar q)) (Lit L)) (name ++ L ++ rest) cap = (rest, cap) :: tl'.
Proof.
  intros Hne Hq HL. destruct name as [|c name]; [congruence|].
  assert (Hc : xorb true (existsb (citem_match c) [CChar q]) = true).
  { cbn. rewrite orb_false_r. apply negb_true_iff, N.eqb_neq.
    intros ->. apply Hq. left; reflexivity. }
  destruct (run_Star_notChar_app q name (L ++ rest) cap) as [more Hmore].
  { intros H. apply Hq. right; exact H. }
  unfold Plus. rewrite run_Seq, run_Seq. cbn [app].
  change (run (notChar q) (c :: name ++ L ++ rest) cap)
    with (if xorb true (existsb (citem_match c) [CChar q])
          then [(name ++ L ++ rest, cap)] else []).
  rewrite Hc. cbn [flat_map fst snd].
  rewrite app_nil_r, Hmore, flat_map_app.
  exists (tl ++ flat_map (fun st => run (Lit L) (fst st) (snd st)) more).
  rewrite HL. reflexivity.
Qed.

Ltac star_steps :=
  repeat (rewrite run_Star_Cls_cons; cbv zeta;
          cbn [existsb citem_match orb xorb negb N.eqb Pos.eqb]).

(** A per-file stylesheet tag is matched as a whole. *)
Lemma run_linkTag (name rest : jsstring) :
  nameOK name ->
  exists tl, run reLinkTag (linkTag name ++ rest) None = (rest, None) :: tl.
Proof.
  intros (Hne & Hq & _). unfold reLinkTag, linkTag.
  change (jsq "<link rel=`stylesheet` href=`css/") with linkOpen.
  rewrite <- !app_assoc, run_Lit_Seq_some.
  apply run_Plus_notChar_Lit with (tl := []); [assumption..|].
  norm_lit. unfold notChar. cbn [app]. star_steps.
  rewrite !flat_map_app. cbn [flat_map fst snd]. rewrite !run_Lit. reflexivity.
Qed.

(** A per-file script tag on its own indented line is matched as a whole. *)
Lemma run_scriptLine (name rest : jsstring) :
  nameOK name ->
  exists tl, run reScriptTag (scriptLine name ++ rest) None = (rest, None) :: tl.
Proof.
  intros (Hne & Hq & _). unfold reScriptTag, scriptLine, scriptTag.
  change (jsq "    <script src=`js/") with (indent ++ scriptOpen).
  replace ((indent ++ (scriptOpen ++ name ++ jsq ".js`></script>") ++ nl) ++ rest)
    with ((indent ++ scriptOpen) ++ name ++ (jsq ".js`></script>" ++ nl) ++ rest)
    by (rewrite <- !app_assoc; reflexivity).
  rewrite run_Lit_Seq_some.
  apply run_Plus_notChar_Lit with (tl := []); [assumption..|].
  unfold nl. norm_lit. unfold notChar. cbn [app]. star_steps.
  rewrite !flat_map_app. cbn [flat_map fst snd]. rewrite !run_Lit. reflexivity.
Qed.

Lemma linkTag_noMatchIn (t rest : jsstring) :
  cleanFor [linkOpen] t = true -> noMatchIn reLinkTag t rest.
Proof.
  intros Ht j Hj. apply run_Lit_Seq_none.
  change (jsq "<link rel=`stylesheet` href=`css/") with linkOpen.
  apply cleanFor_drop; assumption.
Qed.

Lemma stripPrefix_indent (n : nat) (k s rest r : jsstring) :
  stripPrefix (replicate n 32%N ++ k) (s ++ rest) = Some r ->
  (n < length s /\ stripPrefix k (drop n s ++ rest) = Some r) \/
  (length s <= n /\ stripPrefix (replicate (n - length s) 32%N ++ k) rest = Some r).
Proof.
  revert s; induction n as [|n IH]; intros s H.
  - destruct s as [|c s]; [right|left]; cbn in *; split; auto; lia.
  - destruct s as [|c s].
    + right. cbn [length app] in *. split; [lia|]. exact H.
    + cbn [replicate app stripPrefix] in H.
      destruct (c =? 32)%N; [|discriminate].
      apply IH in H as [[Hlt H]|[Hle H]]; [left|right]; cbn [length drop];
        (split; [lia|exact H]).
Qed.

Lemma scriptTag_noMatchIn (t rest : jsstring) :
  cleanFor [scriptOpen] t = true -> noIndentAhead rest ->
  noMatchIn reScriptTag t rest.
Proof.
  intros Ht Hrest j Hj. apply run_Lit_Seq_none.
  change (jsq "    <script src=`js/") with (replicate 4 32%N ++ scriptOpen).
  destruct (stripPrefix (replicate 4 32%N ++ scriptOpen) (drop j t ++ rest)) as [r|] eqn:E;
    [exfalso|reflexivity].
  apply stripPrefix_indent in E as [[Hlt E]|[Hle E]].
  - rewrite length_drop in Hlt. rewrite drop_drop in E.
    rewrite cleanFor_drop in E by (assumption || lia). discriminate.
  - rewrite length_drop in Hle. rewrite Hrest in E; [discriminate|].
    rewrite length_drop. lia.
Qed.

(** ** Chunks *)

Lemma markers_start : Forall (fun k => exists k', k = 60%N :: k') markers.
Proof. repeat constructor; eexists; vm_compute; reflexivity. Qed.

Lemma clean_name (K : list jsstring) (name : jsstring) :
  (forall k, In k K -> In k markers) -> nameOK name -> cleanFor K name = true.
Proof.
  intros HK (_ & _ & Hlt). apply cleanFor_free with (c0 := 60%N); [|assumption].
  apply List.Forall_forall. intros k Hk.
  pose proof markers_start as Hm. rewrite List.Forall_forall in Hm. auto.
Qed.

Lemma render_cons (it : item) (items : list item) :
  render (it :: items) = render1 it ++ render items.
Proof. reflexivity. Qed.

Lemma render_app (a b : list item) : render (a ++ b) = render a ++ render b.
Proof. unfold render. rewrite map_app, concat_app. reflexivity. Qed.

(** A chunk is clean for every marker but its own. *)
Lemma item_clean (K : list jsstring) (k : jsstring) (it : item) :
  wfItem K it -> In k K -> In k markers -> markerOf it <> Some k ->
  cleanFor [k] (render1 it) = true.
Proof.
  intros Hwf HK Hk Hown.
  assert (Hsub : forall k', In k' [k] -> In k' markers) by (intros k' [<-|[]]; exact Hk).
  destruct it as [t|name|name| | |]; cbn [wfItem render1 markerOf] in *.
  - eapply cleanFor_In; eassumption.
  - unfold linkTag. pose proof (clean_name [k] name Hsub Hwf) as Hn.
    destruct Hk as [<-|[<-|[<-|[<-|[<-|[]]]]]]; try congruence;
      (apply cleanFor_app; [vm_compute; reflexivity|];
       apply cleanFor_app; [exact Hn|vm_compute; reflexivity]).
  - unfold scriptLine, scriptTag. pose proof (clean_name [k] name Hsub Hwf) as Hn.
    destruct Hk as [<-|[<-|[<-|[<-|[<-|[]]]]]]; try congruence;
      (apply cleanFor_app; [vm_compute; reflexivity|];
       apply cleanFor_app; [|vm_compute; reflexivity];
       apply cleanFor_app; [vm_compute; reflexivity|];
       apply cleanFor_app; [exact Hn|vm_compute; reflexivity]).
  - destruct Hk as [<-|[<-|[<-|[<-|[<-|[]]]]]]; try congruence; vm_compute; reflexivity.
  - destruct Hk as [<-|[<-|[<-|[<-|[<-|[]]]]]]; try congruence; vm_compute; reflexivity.
  - destruct Hk as [<-|[<-|[<-|[<-|[<-|[]]]]]]; try congruence; vm_compute; reflexivity.
Qed.

Lemma render_clean (K : list jsstring) (k : jsstring) (items : list item) :
  Forall (wfItem K) items -> In k K -> In k markers ->
  Forall (fun it => markerOf it <> Some k) items ->
  cleanFor [k] (render items) = true.
Proof.
  intros Hwf HK Hk Hown; induction Hwf as [|it items Hit _ IH]; [reflexivity|].
  inversion Hown as [|? ? Ho Hown']; subst.
  rewrite render_cons. apply cleanFor_app; [|auto].
  eapply item_clean; eassumption.
Qed.

(** *** Removing the per-file stylesheet tags *)

Lemma removeStylesheetLinks_items (K : list jsstring) (items : list item) :
  In linkOpen K -> Forall (wfItem K) items ->
  removeStylesheetLinks (render items) =
  render (List.filter (fun it => negb (isLinkTag it)) items).
Proof.
  intros HK Hwf; induction Hwf as [|it items Hit _ IH].
  - change (render []) with (@nil N). cbn [List.filter].
    unfold removeStylesheetLinks. rewrite deleteRegex_none; [reflexivity|].
    intros [|k] Hk; [vm_compute; reflexivity|cbn in Hk; lia].
  - rewrite render_cons. unfold removeStylesheetLinks in *. cbn [List.filter].
    destruct it as [t|name|name| | |]; cbn [isLinkTag negb];
      try (rewrite render_cons, <- IH; apply deleteRegex_skip, linkTag_noMatchIn;
           apply (item_clean K); [assumption|assumption|vm_compute; tauto|
                                  cbn; vm_compute; congruence]).
    cbn [render1]. destruct (run_linkTag name (render items) Hit) as [tl Hrun].
    rewrite <- IH. eapply deleteRegex_hit; [|exact Hrun].
    unfold linkTag, linkOpen. vm_compute. discriminate.
Qed.

(** *** Inserting before or behind a marker *)

Lemma insertBefore_items (mk block : jsstring) (p : item -> bool) (items : list item) :
  mk <> [] -> ~ In 36%N (block ++ mk) ->
  Forall (fun it => if p it then render1 it = mk
                    else cleanFor [mk] (render1 it) = true) items ->
  replaceString mk (block ++ mk) (render items) = render (insertBefore p block items).
Proof.
  intros Hmk Hplain H; induction H as [|it items Hit _ IH].
  - cbn. apply replaceString_nil, Hmk.
  - rewrite render_cons. cbn [insertBefore]. destruct (p it).
    + rewrite Hit, replaceString_here by assumption.
      rewrite !render_cons. cbn [render1]. rewrite Hit, <- app_assoc. reflexivity.
    + rewrite replaceString_skip by assumption. rewrite IH, render_cons. reflexivity.
Qed.

Lemma insertAfter_items (mk block : jsstring) (p : item -> bool) (items : list item) :
  mk <> [] -> ~ In 36%N (mk ++ block) ->
  Forall (fun it => if p it then render1 it = mk
                    else cleanFor [mk] (render1 it) = true) items ->
  replaceString mk (mk ++ block) (render items) = render (insertAfter p block items).
Proof.
  intros Hmk Hplain H; induction H as [|it items Hit _ IH].
  - cbn. apply replaceString_nil, Hmk.
  - rewrite render_cons. cbn [insertAfter]. destruct (p it).
    + rewrite Hit, replaceString_here by assumption.
      rewrite !render_cons. cbn [render1]. rewrite Hit, <- app_assoc. reflexivity.
    + rewrite replaceString_skip by assumption. rewrite IH, render_cons. reflexivity.
Qed.

(** *** Removing the per-file script lines *)

Lemma clash_noPrefix (k x rest : jsstring) :
  clash k x = true -> stripPrefix k (x ++ rest) = None.
Proof. intros H. apply clash_stripPrefix, clash_app, H. Qed.

Lemma noIndentAhead_render (K : list jsstring) (items : list item) :
  In scriptOpen K -> Forall (wfItem K) items -> noIndentAhead (render items).
Proof.
  intros HK Hwf; induction Hwf as [|it items Hit _ IH]; intros j Hj.
  - destruct j as [|[|[|[|]]]]; try lia; reflexivity.
  - rewrite render_cons.
    destruct it as [t|name|name| | |]; cbn [render1];
      try (apply clash_noPrefix;
           destruct j as [|[|[|[|]]]]; try lia; vm_compute; reflexivity).
    destruct (stripPrefix (replicate j 32%N ++ scriptOpen) (t ++ render items))
        as [r|] eqn:E; [exfalso|reflexivity].
    apply stripPrefix_indent in E as [[Hlt E]|[Hle E]].
    + cbn [wfItem] in Hit.
      rewrite cleanFor_drop in E; [discriminate| |assumption].
      eapply cleanFor_In; eassumption.
    + rewrite IH in E by lia. discriminate.
Qed.

Lemma removeScriptTags_items (K : list jsstring) (items : list item) :
  In scriptOpen K -> Forall (wfItem K) items ->
  removeScriptTags (render items) =
  render (List.filter (fun it => negb (isScriptLine it)) items).
Proof.
  intros HK Hwf; induction Hwf as [|it items Hit Hwf IH].
  - change (render []) with (@nil N). cbn [List.filter].
    unfold removeScriptTags. rewrite deleteRegex_none; [reflexivity|].
    intros [|k] Hk; [vm_compute; reflexivity|cbn in Hk; lia].
  - rewrite render_cons. unfold removeScriptTags in *. cbn [List.filter].
    pose proof (noIndentAhead_render K items HK Hwf) as Hahead.
    destruct it as [t|name|name| | |]; cbn [isScriptLine negb];
      try (rewrite render_cons, <- IH; apply deleteRegex_skip, scriptTag_noMatchIn;
           [|exact Hahead];
           apply (item_clean K); [assumption|assumption|vm_compute; tauto|
                                  cbn; vm_compute; congruence]).
    cbn [render1]. destruct (run_scriptLine name (render items) Hit) as [tl Hrun].
    rewrite <- IH. eapply deleteRegex_hit; [|exact Hrun].
    vm_compute. discriminate.
Qed.

(** *** The rewriter on chunks *)

Lemma cleanFor_subset (K K' : list jsstring) (t : jsstring) :
  (forall k, In k K' -> In k K) -> cleanFor K t = true -> cleanFor K' t = true.
Proof.
  intros Hsub Ht; induction t as [|c t IH]; [reflexivity|].
  apply cleanFor_cons in Ht as [Hc Ht]. apply cleanFor_cons. split; auto.
Qed.

Lemma wfItem_weaken (K K' : list jsstring) (it : item) :
  (forall k, In k K' -> In k K) -> wfItem K it -> wfItem K' it.
Proof.
  intros Hsub. destruct it; cbn [wfItem]; auto. apply cleanFor_subset, Hsub.
Qed.

Lemma Forall_weaken (K K' : list jsstring) (items : list item) :
  (forall k, In k K' -> In k K) -> Forall (wfItem K) items -> Forall (wfItem K') items.
Proof. intros Hsub H. eapply Forall_impl; [exact H|]. intros it. apply wfItem_weaken, Hsub. Qed.

Lemma Forall_filter_bool {A : Type} (P : A -> Prop) (f : A -> bool) (l : list A) :
  Forall P l -> Forall P (List.filter f l).
Proof.
  intros H; induction H as [|x l Hx _ IH]; cbn; [constructor|].
  destruct (f x); [constructor|]; assumption.
Qed.

Lemma Forall_insertBefore (P : item -> Prop) (p : item -> bool) (t : jsstring)
      (items : list item) :
  P (Text t) -> Forall P items -> Forall P (insertBefore p t items).
Proof.
  intros Ht H; induction H as [|x l Hx Hl IH]; cbn; [constructor|].
  destruct (p x); repeat constructor; assumption.
Qed.


(** The chunks a marker is searched in: the marker itself, or text and
    tags in which it cannot start. *)
Lemma marker_search (K : list jsstring) (k : jsstring) (p : item -> bool)
      (items : list item) :
  In k K -> In k markers ->
  (forall it, if p it then render1 it = k else markerOf it <> Some k) ->
  Forall (wfItem K) items ->
  Forall (fun it => if p it then render1 it = k
                    else cleanFor [k] (render1 it) = true) items.
Proof.
  intros HK Hk Hp Hwf. eapply Forall_impl; [exact Hwf|]. intros it Hit.
  specialize (Hp it). destruct (p it); [exact Hp|].
  eapply item_clean; eassumption.
Qed.

Lemma isHeadClose_spec (it : item) :
  if isHeadClose it then render1 it = headClose else markerOf it <> Some headClose.
Proof. destruct it; cbn; try reflexivity; vm_compute; congruence. Qed.

Lemma isBodyClose_spec (it : item) :
  if isBodyClose it then render1 it = bodyClose else markerOf it <> Some bodyClose.
Proof. destruct it; cbn; try reflexivity; vm_compute; congruence. Qed.

Lemma isAuthorMeta_spec (it : item) :
  if isAuthorMeta it then render1 it = authorMeta else markerOf it <> Some authorMeta.
Proof. destruct it; cbn; try reflexivity; vm_compute; congruence. Qed.

Lemma not_In_app {A : Type} (x : A) (a b : list A) :
  ~ In x a -> ~ In x b -> ~ In x (a ++ b).
Proof. intros Ha Hb H. apply in_app_or in H as [H|H]; auto. Qed.

Lemma not_In_literal (x : char) (l : jsstring) :
  forallb (fun c => negb (c =? x)%N) l = true -> ~ In x l.
Proof.
  rewrite forallb_forall. intros H Hin. specialize (H x Hin).
  rewrite N.eqb_refl in H. discriminate.
Qed.

Lemma styleBlock_clean (css : jsstring) :
  plainCSS css -> cleanFor markersAfterLinks (styleBlock css) = true.
Proof.
  intros [Hlt _]. unfold styleBlock.
  apply cleanFor_app; [vm_compute; reflexivity|].
  apply cleanFor_app; [|vm_compute; reflexivity].
  apply cleanFor_free with (c0 := 60%N); [|assumption].
  repeat constructor; eexists; vm_compute; reflexivity.
Qed.

Lemma styleBlock_plain (css : jsstring) :
  plainCSS css -> ~ In 36%N (styleBlock css ++ headClose).
Proof.
  intros [_ Hd]. unfold styleBlock. rewrite <- !app_assoc.
  repeat (apply not_In_app; [first [assumption|apply not_In_literal; vm_compute; reflexivity]|]).
  apply not_In_literal; vm_compute; reflexivity.
Qed.

(** On a well-formed document the rewriter does to the text what
    [rewriteItems] does to the chunks. *)
Lemma productionHTML_items (css : jsstring) (items : list item) :
  wfDoc items -> plainCSS css ->
  productionHTML css (render items) = render (rewriteItems css items).
Proof.
  intros Hwf Hcss. unfold productionHTML, rewriteItems. cbv zeta.
  (* the stylesheet tags *)
  set (items1 := List.filter (fun it => negb (isLinkTag it)) items).
  assert (E1 : removeStylesheetLinks (render items) = render items1).
  { apply (removeStylesheetLinks_items markers); [vm_compute; tauto|exact Hwf]. }
  assert (Hwf1 : Forall (wfItem markersAfterLinks) items1).
  { apply Forall_filter_bool. eapply Forall_weaken; [|exact Hwf].
    intros k Hk. vm_compute in Hk. vm_compute. tauto. }
  (* the critical CSS *)
  set (items2 := insertBefore isHeadClose (styleBlock css) items1).
  assert (E2 : inlineCriticalCSS css (render items1) = render items2).
  { unfold inlineCriticalCSS.
    replace (styleTemplate css) with (styleBlock css ++ headClose)
      by (unfold styleTemplate, styleBlock, headClose; rewrite <- !app_assoc; reflexivity).
    apply insertBefore_items;
      [vm_compute; discriminate|apply styleBlock_plain, Hcss|].
    apply (marker_search markersAfterLinks);
      [vm_compute; tauto|vm_compute; tauto|apply isHeadClose_spec|exact Hwf1]. }
  assert (Hwf2 : Forall (wfItem markersAfterLinks) items2).
  { apply Forall_insertBefore; [apply styleBlock_clean, Hcss|exact Hwf1]. }
  (* the preload link *)
  set (items3 := insertBefore isHeadClose preloadBlock items2).
  assert (E3 : addPreload (render items2) = render items3).
  { unfold addPreload.
    replace preloadTemplate with (preloadBlock ++ headClose) by (vm_compute; reflexivity).
    apply insertBefore_items;
      [vm_compute; discriminate|apply not_In_literal; vm_compute; reflexivity|].
    apply (marker_search markersAfterLinks);
      [vm_compute; tauto|vm_compute; tauto|apply isHeadClose_spec|exact Hwf2]. }
  assert (Hwf3 : Forall (wfItem markersAfterLinks) items3).
  { apply Forall_insertBefore; [vm_compute; reflexivity|exact Hwf2]. }
  (* the script lines *)
  set (items4 := List.filter (fun it => negb (isScriptLine it)) items3).
  assert (E4 : removeScriptTags (render items3) = render items4).
  { apply (removeScriptTags_items markersAfterLinks); [vm_compute; tauto|exact Hwf3]. }
  assert (Hwf4 : Forall (wfItem markersAfterScripts) items4).
  { apply Forall_filter_bool. eapply Forall_weaken; [|exact Hwf3].
    intros k Hk. vm_compute in Hk. vm_compute. tauto. }
  (* the bundle script *)
  set (items5 := insertBefore isBodyClose scriptBlock items4).
  assert (E5 : addBundleScript (render items4) = render items5).
  { unfold addBundleScript.
    replace scriptTemplate with (scriptBlock ++ bodyClose) by (vm_compute; reflexivity).
    apply insertBefore_items;
      [vm_compute; discriminate|apply not_In_literal; vm_compute; reflexivity|].
    apply (marker_search markersAfterScripts);
      [vm_compute; tauto|vm_compute; tauto|apply isBodyClose_spec|exact Hwf4]. }
  assert (Hwf5 : Forall (wfItem markersAfterScripts) items5).
  { apply Forall_insertBefore; [vm_compute; reflexivity|exact Hwf4]. }
  (* the meta tags *)
  assert (E6 : addMetaTags (render items5) =
               render (insertAfter isAuthorMeta metaBlock items5)).
  { unfold addMetaTags.
    replace metaTemplate with (authorMeta ++ metaBlock) by (vm_compute; reflexivity).
    apply insertAfter_items;
      [vm_compute; discriminate|apply not_In_literal; vm_compute; reflexivity|].
    apply (marker_search markersAfterScripts);
      [vm_compute; tauto|vm_compute; tauto|apply isAuthorMeta_spec|exact Hwf5]. }
  rewrite E1, E2, E3, E4, E5, E6. reflexivity.
Qed.

(** *** Where the inserted blocks end up *)

Lemma insertBefore_app (p : item -> bool) (t : jsstring) (x y : list item) :
  insertBefore p t (x ++ y) =
  if existsb p x then insertBefore p t x ++ y else x ++ insertBefore p t y.
Proof.
  induction x as [|it x IH]; [reflexivity|].
  cbn [app insertBefore existsb]. destruct (p it); [reflexivity|].
  cbn [orb]. rewrite IH. destruct (existsb p x); reflexivity.
Qed.


(** The first chunk that satisfies [p]. *)
Lemma first_split (p : item -> bool) (items : list item) :
  existsb p items = true ->
  exists a m b, items = a ++ m :: b /\ p m = true /\ existsb p a = false.
Proof.
  induction items as [|it items IH]; [discriminate|].
  cbn [existsb]. destruct (p it) eqn:E.
  - intros _. exists [], it, items. auto.
  - cbn [orb]. intros H. destruct (IH H) as (a & m & b & -> & Hm & Ha).
    exists (it :: a), m, b. cbn [existsb]. rewrite E. auto.
Qed.

(** A run of chunks [mid] that a step does not touch stays in one piece,
    and what holds of the chunks around it still does. *)
Lemma filter_around (P : item -> Prop) (f : item -> bool) (mid a b : list item) :
  forallb f mid = true -> Forall P a -> Forall P b ->
  exists a' b', List.filter f (a ++ mid ++ b) = a' ++ mid ++ b' /\
                Forall P a' /\ Forall P b'.
Proof.
  intros Hmid Ha Hb. exists (List.filter f a), (List.filter f b).
  rewrite !List.filter_app. split; [|split; apply Forall_filter_bool; assumption].
  f_equal. f_equal. clear -Hmid. induction mid as [|x mid IH]; [reflexivity|].
  cbn in *. apply andb_true_iff in Hmid as [Hx Hmid]. rewrite Hx, IH by assumption.
  reflexivity.
Qed.

Lemma insertBefore_around (P : item -> Prop) (p : item -> bool) (t : jsstring)
      (mid a b : list item) :
  existsb p mid = false -> P (Text t) -> Forall P a -> Forall P b ->
  exists a' b', insertBefore p t (a ++ mid ++ b) = a' ++ mid ++ b' /\
                Forall P a' /\ Forall P b'.
Proof.
  intros Hmid Ht Ha Hb. rewrite insertBefore_app. destruct (existsb p a).
  - exists (insertBefore p t a), b. split; [reflexivity|].
    split; [apply Forall_insertBefore|]; assumption.
  - exists a, (insertBefore p t b). rewrite insertBefore_app, Hmid.
    split; [reflexivity|]. split; [|apply Forall_insertBefore]; assumption.
Qed.


















Lemma sampleDoc_wf : wfDoc sampleDoc.
Proof.
  repeat constructor; try (vm_compute; reflexivity);
    try (vm_compute; discriminate); apply not_In_literal; vm_compute; reflexivity.
Qed.

Lemma plainCSS_literal (css : jsstring) :
  forallb (fun c => negb (c =? 60)%N && negb (c =? 36)%N) css = true -> plainCSS css.
Proof.
  intros H. split; apply not_In_literal; rewrite forallb_forall in *; intros c Hc;
    specialize (H c Hc); apply andb_true_iff in H as [H1 H2]; assumption.
Qed.



(** *** A marker that is not there *)

Lemma includes_intro (pat a b : jsstring) : includes pat (a ++ pat ++ b) = true.
Proof.
  unfold includes. induction a as [|c a IH].
  - cbn [app]. rewrite splitAt_here. reflexivity.
  - cbn [app]. rewrite splitAt_unfold.
    destruct (stripPrefix pat (c :: a ++ pat ++ b)); [reflexivity|].
    destruct (splitAt pat (a ++ pat ++ b)) as [[pre post]|]; [reflexivity|discriminate].
Qed.

Lemma insertBefore_absent (p : item -> bool) (t : jsstring) (items : list item) :
  existsb p items = false -> insertBefore p t items = items.
Proof.
  induction items as [|it items IH]; [reflexivity|].
  cbn [existsb insertBefore]. destruct (p it); [discriminate|].
  cbn [orb]. intros H. rewrite IH by assumption. reflexivity.
Qed.

Lemma insertAfter_absent (p : item -> bool) (t : jsstring) (items : list item) :
  existsb p items = false -> insertAfter p t items = items.
Proof.
  induction items as [|it items IH]; [reflexivity|].
  cbn [existsb insertAfter]. destruct (p it); [discriminate|].
  cbn [orb]. intros H. rewrite IH by assumption. reflexivity.
Qed.

Lemma existsb_filter_false {A : Type} (p f : A -> bool) (l : list A) :
  existsb p l = false -> existsb p (List.filter f l) = false.
Proof.
  induction l as [|x l IH]; [reflexivity|]. cbn [existsb List.filter].
  intros H. apply orb_false_iff in H as [Hx Hl].
  destruct (f x); cbn [existsb]; rewrite ?Hx; auto.
Qed.

Lemma existsb_insertBefore_false (p q : item -> bool) (t : jsstring) (items : list item) :
  p (Text t) = false -> existsb p items = false ->
  existsb p (insertBefore q t items) = false.
Proof.
  intros Ht. induction items as [|x l IH]; [reflexivity|]. cbn [existsb insertBefore].
  intros H. apply orb_false_iff in H as [Hx Hl].
  destruct (q x); cbn [existsb]; rewrite ?Ht, ?Hx; cbn [orb]; auto.
Qed.

(** In a document cut into chunks, a marker that the text does not hold
    is not among the chunks. *)
Lemma absent_marker (p : item -> bool) (k : jsstring) (items : list item) :
  (forall it, p it = true -> render1 it = k) ->
  includes k (render items) = false -> existsb p items = false.
Proof.
  intros Hp Hk. destruct (existsb p items) eqn:E; [exfalso|reflexivity].
  destruct (first_split _ _ E) as (a & m & b & -> & Hm & _).
  rewrite render_app, render_cons, (Hp m Hm), includes_intro in Hk. discriminate.
Qed.

Lemma isHeadClose_inv_render (it : item) :
  isHeadClose it = true -> render1 it = headClose.
Proof. destruct it; cbn; congruence. Qed.

Lemma isBodyClose_inv_render (it : item) :
  isBodyClose it = true -> render1 it = bodyClose.
Proof. destruct it; cbn; congruence. Qed.

Lemma isAuthorMeta_inv_render (it : item) :
  isAuthorMeta it = true -> render1 it = authorMeta.
Proof. destruct it; cbn; congruence. Qed.

Lemma writeFileSync_ok (fs : fileSystem) (p d data : jsstring) :
  dirname p = Some d -> fs !! d = Some Dir -> fs !! p <> Some Dir ->
  writeFileSync p data fs = (Ok tt, <[p := File data]> fs).
Proof.
  intros Hd Hdir Hp. unfold writeFileSync. rewrite Hd, Hdir.
  destruct (fs !! p) as [[c|]|]; congruence.
Qed.

(** C8, as the code has it.  The stage returns whether or not the markers
    are there: it only needs the two files it reads and the output
    directory.  An insertion is the identity when its marker is absent
    from the text it is applied to, that is, from the document as the
    earlier steps have left it; the other steps are applied all the same.
    For a document cut into well-formed chunks (and critical CSS without
    [<] and [$]) it is enough that the marker is absent from the source:
    the output is then what the remaining steps make of the chunks. *)
Theorem insertion_without_marker (css html : jsstring) (items : list item)
        (fs : fileSystem) :
  (fs !! js "index.html" = Some (File html) ->
   fs !! js "dist/css/critical.min.css" = Some (File css) ->
   fs !! js "dist" = Some Dir -> fs !! js "dist/index.html" <> Some Dir ->
   updateHTMLForProduction fs =
   (Ok tt, <[js "dist/index.html" := File (productionHTML css html)]> fs)) /\
  (let h1 := removeStylesheetLinks html in
   let h4 := removeScriptTags (addPreload (inlineCriticalCSS css h1)) in
   let h5 := addBundleScript h4 in
   (includes headClose h1 = false -> addPreload (inlineCriticalCSS css h1) = h1) /\
   (includes bodyClose h4 = false -> h5 = h4) /\
   (includes authorMeta h5 = false -> productionHTML css html = h5)) /\
  (wfDoc items -> plainCSS css ->
   let kept := List.filter (fun it => negb (isLinkTag it)) items in
   let withHead :=
     insertBefore isHeadClose preloadBlock
       (insertBefore isHeadClose (styleBlock css) kept) in
   (includes headClose (render items) = false ->
    productionHTML css (render items) =
    render (insertAfter isAuthorMeta metaBlock
              (insertBefore isBodyClose scriptBlock
                 (List.filter (fun it => negb (isScriptLine it)) kept)))) /\
   (includes bodyClose (render items) = false ->
    productionHTML css (render items) =
    render (insertAfter isAuthorMeta metaBlock
              (List.filter (fun it => negb (isScriptLine it)) withHead))) /\
   (includes authorMeta (render items) = false ->
    productionHTML css (render items) =
    render (insertBefore isBodyClose scriptBlock
              (List.filter (fun it => negb (isScriptLine it)) withHead)))).
Proof.
  split; [|split].
  - intros Hhtml Hcss Hdist Hout. unfold updateHTMLForProduction, bind, readFileSync.
    change (pathJoin [outputDir; js "css"; js "critical.min.css"])
      with (js "dist/css/critical.min.css").
    change (pathJoin [outputDir; js "index.html"]) with (js "dist/index.html").
    rewrite Hhtml. cbv beta iota zeta. rewrite Hcss.
    apply writeFileSync_ok with (d := js "dist"); [vm_compute; reflexivity|assumption..].
  - cbv zeta. split; [|split].
    + intros H. unfold inlineCriticalCSS, addPreload.
      rewrite (replaceString_absent _ _ _ H). apply replaceString_absent, H.
    + intros H. apply replaceString_absent, H.
    + intros H. unfold productionHTML. cbv zeta. apply replaceString_absent, H.
  - intros Hwf Hcss. cbv zeta. rewrite productionHTML_items by assumption.
    unfold rewriteItems. cbv zeta.
    split; [|split]; intros H.
    + apply (absent_marker isHeadClose) in H; [|intros it; apply isHeadClose_inv_render].
      assert (H1 : existsb isHeadClose
                     (List.filter (fun it => negb (isLinkTag it)) items) = false)
        by apply existsb_filter_false, H.
      rewrite (insertBefore_absent isHeadClose (styleBlock css)) by exact H1.
      rewrite (insertBefore_absent isHeadClose preloadBlock) by exact H1.
      reflexivity.
    + apply (absent_marker isBodyClose) in H; [|intros it; apply isBodyClose_inv_render].
      rewrite (insertBefore_absent isBodyClose); [reflexivity|].
      apply existsb_filter_false. repeat apply existsb_insertBefore_false; try reflexivity.
      apply existsb_filter_false, H.
    + apply (absent_marker isAuthorMeta) in H; [|intros it; apply isAuthorMeta_inv_render].
      rewrite insertAfter_absent; [reflexivity|].
      repeat first [apply existsb_insertBefore_false; [reflexivity|]
                   |apply existsb_filter_false].
      exact H.
Qed.

Lemma sampleDocNoHead_wf : wfDoc sampleDocNoHead.
Proof.
  repeat constructor; try (vm_compute; reflexivity);
    try (vm_compute; discriminate); apply not_In_literal; vm_compute; reflexivity.
Qed.

Lemma insertion_without_marker_witness :
  updateHTMLForProduction sampleSite =
  (Ok tt, <[js "dist/index.html" := File (productionHTML (js "a{}") (render sampleDocNoHead))]>
            sampleSite)
  /\ includes headClose (render sampleDocNoHead) = false
  /\ productionHTML (js "a{}") (render sampleDocNoHead) =
     render (insertAfter isAuthorMeta metaBlock
               (insertBefore isBodyClose scriptBlock
                  (List.filter (fun it => negb (isScriptLine it))
                     (List.filter (fun it => negb (isLinkTag it)) sampleDocNoHead)))).
Proof.
  pose proof (insertion_without_marker (js "a{}") (render sampleDocNoHead)
                sampleDocNoHead sampleSite) as (Hstage & _ & Hdoc).
  assert (Hno : includes headClose (render sampleDocNoHead) = false)
    by (vm_compute; reflexivity).
  split; [|split; [exact Hno|]].
  - apply Hstage; try (vm_compute; reflexivity). vm_compute. discriminate.
  - destruct (Hdoc sampleDocNoHead_wf
                   (plainCSS_literal (js "a{}") ltac:(vm_compute; reflexivity)))
      as (Hhead & _ & _).
    exact (Hhead Hno).
Defined.

(** C8 as the specification states it fails.  The source below holds no
    [</head>]; removing the stylesheet tag that splits it puts one
    together, and the style block and the preload lines are inserted
    before it. *)
Lemma insertion_without_marker_counterexample :
  let html := jsq "</he<link rel=`stylesheet` href=`css/a.css`>ad>" in
  ~ (includes headClose html = false ->
     includes (js "<style>") (productionHTML (js "a{}") html) = false)
  /\ productionHTML (js "a{}") html = styleBlock (js "a{}") ++ preloadBlock ++ headClose.
Proof.
  split.
  - intros H. specialize (H ltac:(vm_compute; reflexivity)).
    vm_compute in H. discriminate.
  - vm_compute. reflexivity.
Qed.

(** ** Stages and the file system *)

Lemma bind_Ok {A B : Type} (m : M A) (k : A -> M B) (fs fs' : fileSystem) (b : B) :
  bind m k fs = (Ok b, fs') ->
  exists a fs1, m fs = (Ok a, fs1) /\ k a fs1 = (Ok b, fs').
Proof.
  unfold bind. destruct (m fs) as [[a|e] fs1]; [eauto|discriminate].
Qed.

Lemma bind_run {A B : Type} (m : M A) (k : A -> M B) (fs fs1 : fileSystem) (a : A) :
  m fs = (Ok a, fs1) -> bind m k fs = k a fs1.
Proof. intros H. unfold bind. rewrite H. reflexivity. Qed.

Section Keeping.

Variable R : fileSystem -> fileSystem -> Prop.
Hypothesis R_refl : forall fs, R fs fs.
Hypothesis R_trans : forall a b c, R a b -> R b c -> R a c.

Lemma Keeps_ret {A : Type} (a : A) : Keeps R (ret a).
Proof. intros fs. apply R_refl. Qed.

Lemma Keeps_throw {A : Type} (e : error) : Keeps R (@throw A e).
Proof. intros fs. apply R_refl. Qed.

Lemma Keeps_liftRes {A : Type} (x : res A) : Keeps R (liftRes x).
Proof. intros fs. apply R_refl. Qed.

Lemma Keeps_bind {A B : Type} (m : M A) (k : A -> M B) :
  Keeps R m -> (forall a, Keeps R (k a)) -> Keeps R (bind m k).
Proof.
  intros Hm Hk fs. unfold bind. specialize (Hm fs).
  destruct (m fs) as [[a|e] fs1]; cbn [snd] in *; [|exact Hm].
  eapply R_trans; [exact Hm|apply Hk].
Qed.

Lemma Keeps_if {A : Type} (b : bool) (m1 m2 : M A) :
  Keeps R m1 -> Keeps R m2 -> Keeps R (if b then m1 else m2).
Proof. destruct b; auto. Qed.

Lemma Keeps_forEach {A : Type} (l : list A) (body : A -> M unit) :
  (forall x, Keeps R (body x)) -> Keeps R (forEach l body).
Proof.
  intros Hb. induction l as [|x l IH]; cbn [forEach]; [apply Keeps_ret|].
  apply Keeps_bind; auto.
Qed.

Lemma Keeps_foldM {A B : Type} (body : A -> B -> M A) (l : list B) (acc : A) :
  (forall a x, Keeps R (body a x)) -> Keeps R (foldM body l acc).
Proof.
  intros Hb. revert acc; induction l as [|x l IH]; intros acc; cbn [foldM];
    [apply Keeps_ret|].
  apply Keeps_bind; auto.
Qed.

Lemma Keeps_existsSync (p : jsstring) : Keeps R (existsSync p).
Proof. intros fs. apply R_refl. Qed.

Lemma Keeps_readFileSync (p : jsstring) : Keeps R (readFileSync p).
Proof. intros fs. unfold readFileSync. destruct (fs !! p) as [[c|]|]; apply R_refl. Qed.

Lemma Keeps_isDirectory (p : jsstring) : Keeps R (isDirectory p).
Proof. intros fs. unfold isDirectory. destruct (fs !! p) as [[c|]|]; apply R_refl. Qed.

Lemma Keeps_readdirSync (p : jsstring) : Keeps R (readdirSync p).
Proof. intros fs. unfold readdirSync. destruct (fs !! p) as [[c|]|]; apply R_refl. Qed.

Lemma Keeps_combineFiles (files : list jsstring) : Keeps R (combineFiles files).
Proof.
  apply Keeps_foldM. intros a x. unfold appendFile.
  apply Keeps_bind; [apply Keeps_existsSync|]. intros e.
  apply Keeps_if; [|apply Keeps_ret].
  apply Keeps_bind; [apply Keeps_readFileSync|]. intros c. apply Keeps_ret.
Qed.

(** What is left to show for a relation: the two calls that write. *)
Hypothesis R_write : forall p data, Keeps R (writeFileSync p data).
Hypothesis R_mkdir : forall p, Keeps R (mkdirSync p).

Lemma Keeps_copyFileSync (src dest : jsstring) : Keeps R (copyFileSync src dest).
Proof.
  unfold copyFileSync. apply Keeps_bind; [apply Keeps_readFileSync|auto].
Qed.

Lemma Keeps_copyItem (recur : jsstring -> jsstring -> M unit)
      (src dest item : jsstring) :
  (forall a b, Keeps R (recur a b)) -> Keeps R (copyItem recur src dest item).
Proof.
  intros Hrec. unfold copyItem.
  apply Keeps_bind; [apply Keeps_isDirectory|]. intros d.
  apply Keeps_if; [apply Hrec|apply Keeps_copyFileSync].
Qed.

Lemma Keeps_copyDirectory (fuel : nat) (src dest : jsstring) :
  Keeps R (copyDirectory fuel src dest).
Proof.
  revert src dest; induction fuel as [|fuel IH]; intros src dest;
    cbn [copyDirectory]; [apply Keeps_throw|].
  apply Keeps_bind; [apply Keeps_existsSync|]. intros e.
  apply Keeps_bind; [apply Keeps_if; [apply R_mkdir|apply Keeps_ret]|]. intros _.
  apply Keeps_bind; [apply Keeps_readdirSync|]. intros items.
  apply Keeps_forEach. intros item. apply Keeps_copyItem. exact IH.
Qed.

End Keeping.

Lemma Keeps_mono {A : Type} (R R' : fileSystem -> fileSystem -> Prop) (m : M A) :
  (forall a b, R a b -> R' a b) -> Keeps R m -> Keeps R' m.
Proof. intros H Hm fs. apply H, Hm. Qed.

Lemma Keeps_forEach_In {A : Type} (R : fileSystem -> fileSystem -> Prop)
      (l : list A) (body : A -> M unit) :
  (forall fs, R fs fs) -> (forall a b c, R a b -> R b c -> R a c) ->
  (forall x, In x l -> Keeps R (body x)) -> Keeps R (forEach l body).
Proof.
  intros Hrefl Htrans Hb. induction l as [|x l IH]; cbn [forEach];
    [apply Keeps_ret, Hrefl|].
  apply Keeps_bind; [exact Htrans|apply Hb; left; reflexivity|].
  intros _. apply IH. intros y Hy. apply Hb. right; exact Hy.
Qed.

(** *** Entries keep their kind *)

Lemma grows_refl (fs : fileSystem) : grows fs fs.
Proof. intros k. destruct (fs !! k) as [[c|]|]; eauto. Qed.

Lemma grows_trans (a b c : fileSystem) : grows a b -> grows b c -> grows a c.
Proof.
  intros Hab Hbc k. specialize (Hab k). specialize (Hbc k).
  destruct (a !! k) as [[x|]|]; [|rewrite Hab in Hbc; exact Hbc|exact I].
  destruct Hab as [y Hy]. rewrite Hy in Hbc. exact Hbc.
Qed.

Lemma grows_present (fs fs' : fileSystem) (k : jsstring) :
  grows fs fs' -> is_Some (fs !! k) -> is_Some (fs' !! k).
Proof.
  intros H [n Hn]. specialize (H k). rewrite Hn in H.
  destruct n as [c|]; [destruct H as [c' ->]|rewrite H]; eauto.
Qed.

Lemma grows_dir (fs fs' : fileSystem) (k : jsstring) :
  grows fs fs' -> fs !! k = Some Dir -> fs' !! k = Some Dir.
Proof. intros H Hk. specialize (H k). rewrite Hk in H. exact H. Qed.

Lemma grows_file (fs fs' : fileSystem) (k c : jsstring) :
  grows fs fs' -> fs !! k = Some (File c) -> exists c', fs' !! k = Some (File c').
Proof. intros H Hk. specialize (H k). rewrite Hk in H. exact H. Qed.

Lemma grows_writeFileSync (p data : jsstring) : Keeps grows (writeFileSync p data).
Proof.
  intros fs. unfold writeFileSync.
  assert (Hins : fs !! p <> Some Dir -> grows fs (<[p := File data]> fs)).
  { intros Hp k. destruct (decide (p = k)) as [<-|Hne].
    - rewrite lookup_insert_eq. destruct (fs !! p) as [[c|]|]; eauto. congruence.
    - rewrite lookup_insert_ne by assumption. destruct (fs !! k) as [[c|]|]; eauto. }
  destruct (dirname p) as [d|]; destruct (fs !! p) as [[c|]|] eqn:E;
    try destruct (fs !! d) as [[c'|]|]; cbn [snd];
    first [apply grows_refl | apply Hins; congruence].
Qed.

Lemma grows_mkdirOne (p a : jsstring) : Keeps grows (mkdirOne p a).
Proof.
  intros fs. unfold mkdirOne. destruct (fs !! a) as [[c|]|] eqn:E; cbn [snd];
    try apply grows_refl.
  intros k. destruct (decide (a = k)) as [<-|Hne].
  - rewrite E. exact I.
  - rewrite lookup_insert_ne by assumption. destruct (fs !! k) as [[c|]|]; eauto.
Qed.

Lemma grows_mkdirSync (p : jsstring) : Keeps grows (mkdirSync p).
Proof.
  apply Keeps_forEach; [exact grows_refl|exact grows_trans|].
  intros a. apply grows_mkdirOne.
Qed.

Lemma grows_copyDirectory (fuel : nat) (src dest : jsstring) :
  Keeps grows (copyDirectory fuel src dest).
Proof.
  apply Keeps_copyDirectory;
    [exact grows_refl|exact grows_trans|exact grows_writeFileSync|exact grows_mkdirSync].
Qed.

(** *** What a stage leaves alone *)

Lemma sameOff_refl (T : list N -> Prop) (fs : fileSystem) : sameOff T fs fs.
Proof. intros k _. reflexivity. Qed.

Lemma sameOff_trans (T : list N -> Prop) (a b c : fileSystem) :
  sameOff T a b -> sameOff T b c -> sameOff T a c.
Proof. intros Hab Hbc k Hk. rewrite (Hbc k Hk). apply Hab, Hk. Qed.

Lemma sameOff_mono (T T' : list N -> Prop) (a b : fileSystem) :
  (forall k, T k -> T' k) -> sameOff T a b -> sameOff T' a b.
Proof. intros H Hab k Hk. apply Hab. intros HT. apply Hk, H, HT. Qed.

Lemma sameOff_writeFileSync (p data : jsstring) :
  Keeps (sameOff (eq p)) (writeFileSync p data).
Proof.
  intros fs. unfold writeFileSync.
  destruct (dirname p) as [d|]; destruct (fs !! p) as [[c|]|] eqn:E;
    try destruct (fs !! d) as [[c'|]|]; cbn [snd];
    first [apply sameOff_refl | intros k Hk; apply lookup_insert_ne; exact Hk].
Qed.

Lemma sameOff_mkdirOne (p a : jsstring) : Keeps (sameOff (eq a)) (mkdirOne p a).
Proof.
  intros fs. unfold mkdirOne. destruct (fs !! a) as [[c|]|] eqn:E; cbn [snd];
    first [apply sameOff_refl | intros k Hk; apply lookup_insert_ne; exact Hk].
Qed.

Lemma sameOff_mkdirSync (p : jsstring) :
  Keeps (sameOff (fun k => In k (ancestors p))) (mkdirSync p).
Proof.
  apply Keeps_forEach_In; [apply sameOff_refl|apply sameOff_trans|].
  intros a Ha. apply filter_In in Ha as [Ha _].
  eapply Keeps_mono; [|apply sameOff_mkdirOne].
  intros x y. apply sameOff_mono. intros k <-. exact Ha.
Qed.

(** *** Paths *)

Lemma pathJoin2 (a b : jsstring) : pathJoin [a; b] = a ++ slash ++ b.
Proof. reflexivity. Qed.

Lemma ancestors_join (d i k : jsstring) :
  In k (ancestors (d ++ slash ++ i)) ->
  In k (ancestors d) \/ exists r, k = d ++ slash ++ r.
Proof.
  revert k; induction d as [|c d IH]; intros k.
  - change ([] ++ slash ++ i) with (47%N :: i). cbn [ancestors N.eqb Pos.eqb app].
    intros [<-|H]; [left; left; reflexivity|].
    apply in_map_iff in H as (x & <- & _). right. exists x. reflexivity.
  - cbn [app ancestors]. intros H. apply in_app_or in H as [H|H].
    + left. apply in_or_app. left. exact H.
    + apply in_map_iff in H as (x & <- & Hx). apply IH in Hx as [Hx|[r ->]].
      * left. apply in_or_app. right. apply in_map. exact Hx.
      * right. exists r. reflexivity.
Qed.

Lemma ancestors_self (p : jsstring) : exists l, ancestors p = l ++ [p].
Proof.
  induction p as [|c p [l IH]].
  - exists []. reflexivity.
  - cbn [ancestors]. rewrite IH, map_app. cbn [map].
    eexists. rewrite app_assoc. reflexivity.
Qed.

Lemma touches_join (dest item k : jsstring) :
  touches (dest ++ slash ++ item) k -> touches dest k.
Proof.
  intros [[r ->]|H].
  - left. exists (item ++ slash ++ r). rewrite <- !app_assoc. reflexivity.
  - apply ancestors_join in H as [H|H]; [right|left]; exact H.
Qed.

Lemma touches_child (dest item : jsstring) : touches dest (dest ++ slash ++ item).
Proof. left. eauto. Qed.

Lemma under_join (src item k : jsstring) :
  under (src ++ slash ++ item) k -> under src k.
Proof.
  intros [->|[r ->]]; right; [eauto|].
  exists (item ++ slash ++ r). rewrite <- !app_assoc. reflexivity.
Qed.

Lemma disjointTrees_join (src dest item : jsstring) :
  disjointTrees src dest ->
  disjointTrees (src ++ slash ++ item) (dest ++ slash ++ item).
Proof.
  intros H k Hu Ht. apply (H k); [eapply under_join|eapply touches_join]; eassumption.
Qed.

Lemma sameOff_copyItem (recur : jsstring -> jsstring -> M unit)
      (src dest item : jsstring) :
  (forall a b, Keeps (sameOff (touches b)) (recur a b)) ->
  Keeps (sameOff (touches dest)) (copyItem recur src dest item).
Proof.
  intros Hrec. unfold copyItem.
  apply Keeps_bind; [apply sameOff_trans|apply Keeps_isDirectory, sameOff_refl|].
  intros d. rewrite !pathJoin2. apply Keeps_if.
  - eapply Keeps_mono; [|apply Hrec]. intros x y. apply sameOff_mono.
    intros k. apply touches_join.
  - unfold copyFileSync.
    apply Keeps_bind; [apply sameOff_trans|apply Keeps_readFileSync, sameOff_refl|].
    intros c. eapply Keeps_mono; [|apply sameOff_writeFileSync].
    intros x y. apply sameOff_mono. intros k <-. apply touches_child.
Qed.

(** Copying into [dest] writes at and below [dest] only, and may create
    the directories above it. *)
Lemma sameOff_copyDirectory (fuel : nat) (src dest : jsstring) :
  Keeps (sameOff (touches dest)) (copyDirectory fuel src dest).
Proof.
  revert src dest; induction fuel as [|fuel IH]; intros src dest;
    cbn [copyDirectory]; [apply Keeps_throw, sameOff_refl|].
  apply Keeps_bind; [apply sameOff_trans|apply Keeps_existsSync, sameOff_refl|]. intros e.
  apply Keeps_bind; [apply sameOff_trans| |].
  { apply Keeps_if; [|apply Keeps_ret, sameOff_refl].
    eapply Keeps_mono; [|apply sameOff_mkdirSync].
    intros x y. apply sameOff_mono. intros k Hk. right; exact Hk. }
  intros _.
  apply Keeps_bind; [apply sameOff_trans|apply Keeps_readdirSync, sameOff_refl|].
  intros items.
  apply Keeps_forEach; [apply sameOff_refl|apply sameOff_trans|]. intros item.
  apply sameOff_copyItem. intros a b. apply IH.
Qed.

(** *** Running [copyDirectory] again *)

Lemma forEach_app {A : Type} (l1 l2 : list A) (body : A -> M unit) (fs : fileSystem) :
  forEach (l1 ++ l2) body fs = bind (forEach l1 body) (fun _ => forEach l2 body) fs.
Proof.
  revert fs; induction l1 as [|x l1 IH]; intros fs; [reflexivity|].
  cbn [app forEach]. unfold bind at 1 2 3.
  destruct (body x fs) as [[u|e] fs1]; [|reflexivity].
  rewrite IH. reflexivity.
Qed.

Lemma mkdirOne_dir (p : jsstring) (s s1 : fileSystem) :
  mkdirOne p p s = (Ok tt, s1) -> s1 !! p = Some Dir.
Proof.
  unfold mkdirOne. destruct (s !! p) as [[c|]|] eqn:E; [discriminate| |].
  - intros [= <-]. exact E.
  - intros [= <-]. apply lookup_insert_eq.
Qed.

(** After [mkdirSync] the directory is there. *)
Lemma mkdirSync_dir (p : jsstring) (s s1 : fileSystem) :
  p <> [] -> mkdirSync p s = (Ok tt, s1) -> s1 !! p = Some Dir.
Proof.
  intros Hp. unfold mkdirSync. destruct (ancestors_self p) as [l ->].
  rewrite List.filter_app. cbn [List.filter].
  rewrite bool_decide_eq_false_2 by assumption. cbn [negb].
  rewrite forEach_app. intros H. apply bind_Ok in H as (u & sx & _ & H).
  cbn [forEach] in H. apply bind_Ok in H as (u' & sy & H1 & H2).
  unfold ret in H2. injection H2 as <-. destruct u'. eapply mkdirOne_dir, H1.
Qed.

Lemma childName_under (p k name : jsstring) :
  childName p k = Some name -> under p k.
Proof.
  unfold childName. destruct (stripPrefix (p ++ slash) k) as [n|] eqn:E; [|discriminate].
  intros _. apply stripPrefix_Some in E. right. exists n.
  rewrite E, <- app_assoc. reflexivity.
Qed.

(** The listing of a directory depends on the entries below it only. *)
Lemma readdirSync_agree (src : jsstring) (s t : fileSystem) :
  (forall k, under src k -> t !! k = s !! k) -> s !! src = Some Dir ->
  fst (readdirSync src t) = fst (readdirSync src s).
Proof.
  intros H Hdir. unfold readdirSync. rewrite (H src) by (left; reflexivity).
  rewrite Hdir. cbn [fst].
  do 4 f_equal. apply map_filter_strong_ext_1. intros i x. cbn [fst].
  split; intros [[n Hn] Hi]; (split; [eauto|]);
    pose proof (childName_under _ _ _ Hn) as Hu; rewrite <- Hi;
    [symmetry; apply H|apply H]; exact Hu.
Qed.

Lemma readdirSync_Ok (src : jsstring) (s s1 : fileSystem) (items : list jsstring) :
  readdirSync src s = (Ok items, s1) -> s1 = s /\ s !! src = Some Dir.
Proof.
  unfold readdirSync. destruct (s !! src) as [[c|]|]; try discriminate.
  intros [= _ <-]. auto.
Qed.

Lemma writeFileSync_Ok (p data : jsstring) (s s1 : fileSystem) :
  writeFileSync p data s = (Ok tt, s1) ->
  s1 = <[p := File data]> s /\ s !! p <> Some Dir /\
  (forall d, dirname p = Some d -> s !! d = Some Dir).
Proof.
  unfold writeFileSync.
  destruct (dirname p) as [d|]; destruct (s !! p) as [[c|]|] eqn:E;
    try destruct (s !! d) as [[c'|]|] eqn:Ed; try discriminate;
    intros [= <-]; (split; [reflexivity|split; [congruence|]]);
    intros d' [= <-]; try assumption.
Qed.

Lemma writeFileSync_run (p data : jsstring) (t : fileSystem) :
  t !! p <> Some Dir -> (forall d, dirname p = Some d -> t !! d = Some Dir) ->
  writeFileSync p data t = (Ok tt, <[p := File data]> t).
Proof.
  intros Hp Hd. unfold writeFileSync. destruct (dirname p) as [d|].
  - rewrite (Hd d eq_refl). destruct (t !! p) as [[c|]|]; congruence.
  - destruct (t !! p) as [[c|]|]; congruence.
Qed.

Section Rerun.

Variable fuel : nat.

(** The recursive call can be run again. *)
Hypothesis IH : forall src dest s s',
    disjointTrees src dest -> dest <> [] ->
    copyDirectory fuel src dest s = (Ok tt, s') ->
    forall t, (forall k, under src k -> t !! k = s !! k) -> grows s' t ->
              exists t', copyDirectory fuel src dest t = (Ok tt, t').

Lemma copyItem_rerun (src dest item : jsstring) (s s' t : fileSystem) :
  disjointTrees src dest ->
  copyItem (copyDirectory fuel) src dest item s = (Ok tt, s') ->
  (forall k, under src k -> t !! k = s !! k) -> grows s' t ->
  exists t', copyItem (copyDirectory fuel) src dest item t = (Ok tt, t').
Proof.
  intros Hdis Hrun Hsrc Hgrow. unfold copyItem in *. rewrite !pathJoin2 in *.
  apply bind_Ok in Hrun as (d & s0 & Hd & Hrun).
  assert (Hu : under src (src ++ slash ++ item)) by (right; eauto).
  assert (Hd' : isDirectory (src ++ slash ++ item) t = (Ok d, t)).
  { revert Hd. unfold isDirectory. rewrite (Hsrc _ Hu).
    destruct (s !! (src ++ slash ++ item)) as [[c|]|]; intros [= <- <-]; reflexivity. }
  assert (s0 = s) as ->.
  { revert Hd. unfold isDirectory.
    destruct (s !! (src ++ slash ++ item)) as [[c|]|]; intros [= _ <-]; reflexivity. }
  rewrite (bind_run _ _ _ _ _ Hd'). destruct d.
  - eapply IH; [apply disjointTrees_join, Hdis| |exact Hrun| |exact Hgrow].
    + intros H. apply app_eq_nil in H as [_ H]. discriminate.
    + intros k Hk. apply Hsrc. eapply under_join, Hk.
  - unfold copyFileSync in *. apply bind_Ok in Hrun as (c & s1 & Hc & Hw).
    assert (s1 = s /\ s !! (src ++ slash ++ item) = Some (File c)) as [-> Hfile].
    { revert Hc. unfold readFileSync.
      destruct (s !! (src ++ slash ++ item)) as [[c0|]|]; intros [= <- <-] || intros [=]; auto. }
    assert (Hc' : readFileSync (src ++ slash ++ item) t = (Ok c, t)).
    { unfold readFileSync. rewrite (Hsrc _ Hu), Hfile. reflexivity. }
    rewrite (bind_run _ _ _ _ _ Hc').
    apply writeFileSync_Ok in Hw as (-> & Hnd & Hpar).
    eexists. apply writeFileSync_run.
    + destruct (grows_file _ _ (dest ++ slash ++ item) c Hgrow) as [c' Hc''];
        [apply lookup_insert_eq|]. congruence.
    + intros d0 Hd0. apply (grows_dir _ _ _ Hgrow).
      destruct (decide (dest ++ slash ++ item = d0)) as [<-|Hne].
      * rewrite (Hpar _ Hd0) in Hnd. congruence.
      * rewrite lookup_insert_ne by assumption. apply Hpar, Hd0.
Qed.

Lemma copyItems_rerun (src dest : jsstring) (items : list jsstring)
      (s s' t : fileSystem) :
  disjointTrees src dest ->
  forEach items (copyItem (copyDirectory fuel) src dest) s = (Ok tt, s') ->
  (forall k, under src k -> t !! k = s !! k) -> grows s' t ->
  exists t', forEach items (copyItem (copyDirectory fuel) src dest) t = (Ok tt, t').
Proof.
  intros Hdis. revert s t; induction items as [|item items IHl]; intros s t Hrun Hsrc Hgrow.
  - eexists. reflexivity.
  - cbn [forEach] in *. apply bind_Ok in Hrun as (u & s1 & Hitem & Hrest). destruct u.
    assert (Hg1 : grows s1 s').
    { pose proof (Keeps_forEach grows grows_refl grows_trans items
                    (copyItem (copyDirectory fuel) src dest)) as HK.
      specialize (HK (fun x => Keeps_copyItem grows grows_refl grows_trans
                                 grows_writeFileSync (copyDirectory fuel) src dest x
                                 (grows_copyDirectory fuel)) s1).
      rewrite Hrest in HK. exact HK. }
    destruct (copyItem_rerun src dest item s s1 t Hdis Hitem Hsrc
                (grows_trans _ _ _ Hg1 Hgrow)) as [t1 Ht1].
    rewrite (bind_run _ _ _ _ _ Ht1).
    apply (IHl s1 t1 Hrest).
    + intros k Hk.
      pose proof (sameOff_copyItem (copyDirectory fuel) src dest item
                    (fun a b => sameOff_copyDirectory fuel a b)) as HF.
      pose proof (HF s k (Hdis k Hk)) as Hs. rewrite Hitem in Hs.
      pose proof (HF t k (Hdis k Hk)) as Ht. rewrite Ht1 in Ht.
      cbn [snd] in Hs, Ht. rewrite Hs, Ht. apply Hsrc, Hk.
    + apply (grows_trans _ _ _ Hgrow).
      pose proof (Keeps_copyItem grows grows_refl grows_trans grows_writeFileSync
                    (copyDirectory fuel) src dest item (grows_copyDirectory fuel) t) as HK.
      rewrite Ht1 in HK. exact HK.
Qed.

End Rerun.

(** A copy that returned can be run again, on any file system that has
    the same source tree and in which what the copy left as a file or a
    directory still is one: it returns again. *)
Lemma copyDirectory_rerun (fuel : nat) (src dest : jsstring) (s s' : fileSystem) :
  disjointTrees src dest -> dest <> [] ->
  copyDirectory fuel src dest s = (Ok tt, s') ->
  forall t, (forall k, under src k -> t !! k = s !! k) -> grows s' t ->
            exists t', copyDirectory fuel src dest t = (Ok tt, t').
Proof.
  revert src dest s s'; induction fuel as [|fuel IH]; intros src dest s s' Hdis Hne Hrun t Hsrc Hgrow.
  - discriminate.
  - cbn [copyDirectory] in *.
    apply bind_Ok in Hrun as (e & s0 & He & Hrun).
    injection He as <- <-.
    apply bind_Ok in Hrun as (u & s1 & Hmk & Hrun). destruct u.
    apply bind_Ok in Hrun as (items & s2 & Hrd & Hloop).
    apply readdirSync_Ok in Hrd as Hrd'. destruct Hrd' as [-> Hdir].
    (* what the first run did before the loop *)
    assert (Hoff : sameOff (touches dest) s s1).
    { destruct (s !! dest) eqn:E; cbn [negb] in Hmk.
      - unfold ret in Hmk. injection Hmk as <-. apply sameOff_refl.
      - pose proof (sameOff_mkdirSync dest s) as H. rewrite Hmk in H.
        eapply sameOff_mono; [|exact H]. intros k Hk. right; exact Hk. }
    assert (Hthere : is_Some (s1 !! dest)).
    { destruct (s !! dest) eqn:E; cbn [negb] in Hmk.
      - unfold ret in Hmk. injection Hmk as <-. eauto.
      - rewrite (mkdirSync_dir dest s s1 Hne Hmk). eauto. }
    assert (Hg1 : grows s1 s').
    { pose proof (Keeps_forEach grows grows_refl grows_trans items
                    (copyItem (copyDirectory fuel) src dest)) as HK.
      specialize (HK (fun x => Keeps_copyItem grows grows_refl grows_trans
                                 grows_writeFileSync (copyDirectory fuel) src dest x
                                 (grows_copyDirectory fuel)) s1).
      rewrite Hloop in HK. exact HK. }
    assert (Hsrc1 : forall k, under src k -> t !! k = s1 !! k).
    { intros k Hk. rewrite (Hoff k (Hdis k Hk)). apply Hsrc, Hk. }
    (* the second run *)
    assert (Ht : is_Some (t !! dest)).
    { eapply grows_present; [exact Hgrow|]. eapply grows_present; [exact Hg1|exact Hthere]. }
    unfold bind at 1. unfold existsSync at 1. destruct Ht as [n ->]. cbn [negb].
    unfold bind at 1. unfold ret at 1.
    assert (Hrd2 : readdirSync src t = (Ok items, t)).
    { pose proof (readdirSync_agree src s1 t Hsrc1 Hdir) as Hfst.
      rewrite Hrd in Hfst. cbn [fst] in Hfst.
      unfold readdirSync in *. rewrite (Hsrc1 src) by (left; reflexivity).
      rewrite (Hsrc1 src) in Hfst by (left; reflexivity).
      rewrite Hdir in *. cbn [fst] in Hfst. injection Hfst as ->. reflexivity. }
    rewrite (bind_run _ _ _ _ _ Hrd2).
    eapply copyItems_rerun; [exact IH|exact Hdis|exact Hloop|exact Hsrc1|exact Hgrow].
Qed.

(** *** The stages, one by one *)

Lemma touchesb_spec (dest k : jsstring) : touches dest k -> touchesb dest k = true.
Proof.
  unfold touchesb. intros [[r ->]|H].
  - rewrite app_assoc, stripPrefix_app. reflexivity.
  - apply orb_true_iff. right. apply existsb_exists. exists k.
    split; [exact H|apply bool_decide_eq_true; reflexivity].
Qed.

Lemma not_copied (k : jsstring) :
  touchesb (js "dist/assets") k = false -> touchesb (js "dist/fonts") k = false ->
  ~ copied k.
Proof.
  intros H1 H2 [H|H]; apply touchesb_spec in H; congruence.
Qed.

Lemma ancestors_head (d : char) (dest k : jsstring) :
  d <> 47%N -> In k (ancestors (d :: dest)) -> exists k', k = d :: k'.
Proof.
  intros Hd. cbn [ancestors]. rewrite (proj2 (N.eqb_neq d 47) Hd). cbn [app].
  intros H. apply in_map_iff in H as (x & <- & _). eauto.
Qed.

(** Trees that start with different characters do not meet. *)
Lemma disjointTrees_head (a d : char) (src dest : jsstring) :
  a <> d -> d <> 47%N -> disjointTrees (a :: src) (d :: dest).
Proof.
  intros Had Hd k Hu Ht.
  assert (Hk : exists k', k = a :: k') by (destruct Hu as [->|[r ->]]; cbn; eauto).
  destruct Hk as [k' ->].
  destruct Ht as [[r Hr]|H].
  - cbn in Hr. congruence.
  - apply ancestors_head in H as [k'' H]; congruence.
Qed.

Lemma source_not_copied (k : jsstring) : assetSource k -> ~ copied k.
Proof.
  intros Hs [Hc|Hc]; revert Hc;
    destruct Hs as [Hs|Hs]; revert Hs;
    first [apply (disjointTrees_head 97 100 (js "ssets") (js "ist/assets"))
          |apply (disjointTrees_head 102 100 (js "onts") (js "ist/assets"))
          |apply (disjointTrees_head 97 100 (js "ssets") (js "ist/fonts"))
          |apply (disjointTrees_head 102 100 (js "onts") (js "ist/fonts"))];
    discriminate.
Qed.

Lemma bind_assoc {A B C : Type} (m : M A) (f : A -> M B) (g : B -> M C)
      (fs : fileSystem) :
  bind (bind m f) g fs = bind m (fun x => bind (f x) g) fs.
Proof. unfold bind. destruct (m fs) as [[a|e] fs1]; reflexivity. Qed.

Lemma ensureDir_present (p : jsstring) (s s' : fileSystem) :
  p <> [] -> ensureDir p s = (Ok tt, s') -> is_Some (s' !! p).
Proof.
  intros Hp. unfold ensureDir, bind, existsSync.
  destruct (s !! p) as [n|] eqn:E; cbn [negb].
  - intros [= <-]. eauto.
  - intros H. rewrite (mkdirSync_dir p s s' Hp H). eauto.
Qed.

Lemma ensureDir_again (p : jsstring) (t : fileSystem) :
  is_Some (t !! p) -> ensureDir p t = (Ok tt, t).
Proof. intros [n Hn]. unfold ensureDir, bind, existsSync. rewrite Hn. reflexivity. Qed.

Lemma grows_ensureDir (p : jsstring) : Keeps grows (ensureDir p).
Proof.
  unfold ensureDir. apply Keeps_bind; [exact grows_trans|apply Keeps_existsSync, grows_refl|].
  intros e. apply Keeps_if; [apply grows_mkdirSync|apply Keeps_ret, grows_refl].
Qed.

Lemma createOutputDirectory_ensure (fs : fileSystem) :
  createOutputDirectory fs = forEach outputDirs ensureDir fs.
Proof.
  transitivity (bind (ensureDir (js "dist"))
                     (fun _ => forEach (tl outputDirs) ensureDir) fs); [|reflexivity].
  unfold ensureDir at 1. rewrite bind_assoc. reflexivity.
Qed.

Lemma forEach_ensureDir (l : list jsstring) (s s' : fileSystem) :
  Forall (fun p => p <> []) l ->
  forEach l ensureDir s = (Ok tt, s') -> Forall (fun p => is_Some (s' !! p)) l.
Proof.
  intros Hl; revert s; induction Hl as [|p l Hp _ IH]; intros s H; [constructor|].
  cbn [forEach] in H. apply bind_Ok in H as ([] & s1 & H1 & H2).
  constructor; [|eapply IH; exact H2].
  apply ensureDir_present in H1; [|exact Hp].
  eapply grows_present; [|exact H1].
  pose proof (Keeps_forEach grows grows_refl grows_trans l ensureDir grows_ensureDir s1) as HK.
  rewrite H2 in HK. exact HK.
Qed.

Lemma forEach_ensureDir_again (l : list jsstring) (t : fileSystem) :
  Forall (fun p => is_Some (t !! p)) l -> forEach l ensureDir t = (Ok tt, t).
Proof.
  intros H; induction H as [|p l Hp _ IH]; [reflexivity|].
  cbn [forEach]. rewrite (bind_run _ _ _ _ _ (ensureDir_again p t Hp)). exact IH.
Qed.

Lemma grows_createOutputDirectory : Keeps grows createOutputDirectory.
Proof.
  intros fs. rewrite createOutputDirectory_ensure.
  apply (Keeps_forEach grows grows_refl grows_trans). exact grows_ensureDir.
Qed.

(** Bundling reads only, and reads only the listed files. *)
Lemma combineFiles_state (files : list jsstring) (fs : fileSystem) :
  snd (combineFiles files fs) = fs.
Proof.
  unfold combineFiles. generalize (@nil N) as acc.
  induction files as [|f files IH]; intros acc; [reflexivity|].
  cbn [foldM]. unfold bind. pose proof (appendFile_state fs acc f) as H.
  destruct (appendFile acc f fs) as [[a|e] fs1]; cbn [snd] in *; subst; [apply IH|reflexivity].
Qed.

Lemma appendFile_agree (s t : fileSystem) (acc f : jsstring) :
  t !! f = s !! f -> fst (appendFile acc f t) = fst (appendFile acc f s).
Proof.
  intros H. unfold appendFile, bind, existsSync, readFileSync, ret. rewrite H.
  destruct (s !! f) as [[c|]|] eqn:E; cbv beta iota zeta; rewrite ?H, ?E; reflexivity.
Qed.

Lemma combineFiles_agree (files : list jsstring) (s t : fileSystem) :
  Forall (fun f => t !! f = s !! f) files ->
  fst (combineFiles files t) = fst (combineFiles files s).
Proof.
  unfold combineFiles. generalize (@nil N) as acc. intros acc H; revert acc.
  induction H as [|f files Hf _ IH]; intros acc; [reflexivity|].
  cbn [foldM]. unfold bind.
  pose proof (appendFile_agree s t acc f Hf) as Ha.
  pose proof (appendFile_state s acc f) as Hs.
  pose proof (appendFile_state t acc f) as Ht.
  destruct (appendFile acc f t) as [[a|e] t1]; destruct (appendFile acc f s) as [[a'|e'] s1];
    cbn [fst snd] in *; subst; try discriminate; [|exact Ha].
  injection Ha as ->. apply IH.
Qed.

(** A stage that bundles a list of files and writes the minified text. *)
Lemma bundleStage_Ok (files : list jsstring) (minify : jsstring -> jsstring)
      (k : jsstring) (s s' : fileSystem) :
  bind (combineFiles files) (fun combined => writeFileSync k (minify combined)) s
  = (Ok tt, s') ->
  exists combined,
    fst (combineFiles files s) = Ok combined /\
    s' = <[k := File (minify combined)]> s /\
    (forall d, dirname k = Some d -> s !! d = Some Dir).
Proof.
  intros H. apply bind_Ok in H as (combined & s0 & Hc & Hw).
  pose proof (combineFiles_state files s) as Hs. rewrite Hc in Hs. cbn in Hs. subst s0.
  apply writeFileSync_Ok in Hw as (-> & _ & Hd).
  exists combined. rewrite Hc. auto.
Qed.

Lemma bundleStage_again (files : list jsstring) (minify : jsstring -> jsstring)
      (k combined : jsstring) (t : fileSystem) :
  fst (combineFiles files t) = Ok combined ->
  t !! k = Some (File (minify combined)) ->
  (forall d, dirname k = Some d -> t !! d = Some Dir) ->
  bind (combineFiles files) (fun combined => writeFileSync k (minify combined)) t
  = (Ok tt, t).
Proof.
  intros Hc Hk Hd.
  pose proof (combineFiles_state files t) as Hs.
  destruct (combineFiles files t) as [r t0] eqn:E. cbn in Hc, Hs. subst.
  rewrite (bind_run _ _ _ _ _ E).
  rewrite writeFileSync_run; [|congruence|assumption].
  rewrite insert_id by assumption. reflexivity.
Qed.

Lemma readFileSync_Ok (p c : jsstring) (s s' : fileSystem) :
  readFileSync p s = (Ok c, s') -> s' = s /\ s !! p = Some (File c).
Proof.
  unfold readFileSync. destruct (s !! p) as [[c0|]|]; try discriminate.
  intros [= <- <-]. auto.
Qed.

Lemma readFileSync_run (p c : jsstring) (t : fileSystem) :
  t !! p = Some (File c) -> readFileSync p t = (Ok c, t).
Proof. intros H. unfold readFileSync. rewrite H. reflexivity. Qed.

Lemma grows_copyAssets (fuel : nat) : Keeps grows (copyAssets fuel).
Proof.
  unfold copyAssets.
  apply Keeps_bind; [exact grows_trans|apply Keeps_existsSync, grows_refl|]. intros e.
  apply Keeps_bind; [exact grows_trans| |].
  { apply Keeps_if; [apply grows_copyDirectory|apply Keeps_ret, grows_refl]. }
  intros _.
  apply Keeps_bind; [exact grows_trans|apply Keeps_existsSync, grows_refl|]. intros e'.
  apply Keeps_if; [apply grows_copyDirectory|apply Keeps_ret, grows_refl].
Qed.

Lemma sameOff_copyAssets (fuel : nat) : Keeps (sameOff copied) (copyAssets fuel).
Proof.
  unfold copyAssets.
  apply Keeps_bind; [apply sameOff_trans|apply Keeps_existsSync, sameOff_refl|]. intros e.
  apply Keeps_bind; [apply sameOff_trans| |].
  { apply Keeps_if; [|apply Keeps_ret, sameOff_refl].
    eapply Keeps_mono; [|apply sameOff_copyDirectory].
    intros x y. apply sameOff_mono. intros k Hk. left; exact Hk. }
  intros _.
  apply Keeps_bind; [apply sameOff_trans|apply Keeps_existsSync, sameOff_refl|]. intros e'.
  apply Keeps_if; [|apply Keeps_ret, sameOff_refl].
  eapply Keeps_mono; [|apply sameOff_copyDirectory].
  intros x y. apply sameOff_mono. intros k Hk. right; exact Hk.
Qed.

(** [copyAssets] can be run again after it returned. *)
Lemma copyAssets_rerun (fuel : nat) (s s' t : fileSystem) :
  copyAssets fuel s = (Ok tt, s') ->
  (forall k, assetSource k -> t !! k = s !! k) -> grows s' t ->
  exists t', copyAssets fuel t = (Ok tt, t').
Proof.
  intros Hrun Hsrc Hgrow. unfold copyAssets in *.
  change (pathJoin [outputDir; js "assets"]) with (js "dist/assets") in *.
  change (pathJoin [outputDir; js "fonts"]) with (js "dist/fonts") in *.
  apply bind_Ok in Hrun as (e & s0 & He & Hrun). injection He as <- <-.
  apply bind_Ok in Hrun as ([] & s1 & H1 & Hrun).
  apply bind_Ok in Hrun as (e' & s2 & He' & H2). injection He' as <- <-.
  assert (Hg1 : grows s1 s').
  { destruct (s1 !! js "fonts").
    - pose proof (grows_copyDirectory fuel (js "fonts") (js "dist/fonts") s1) as HK.
      rewrite H2 in HK. exact HK.
    - injection H2 as <-. apply grows_refl. }
  assert (Hoff1 : sameOff (touches (js "dist/assets")) s s1).
  { destruct (s !! js "assets").
    - pose proof (sameOff_copyDirectory fuel (js "assets") (js "dist/assets") s) as HK.
      rewrite H1 in HK. exact HK.
    - injection H1 as <-. apply sameOff_refl. }
  (* the first copy *)
  assert (Ht1 : exists t1,
             (if match t !! js "assets" with Some _ => true | None => false end
              then copyDirectory fuel (js "assets") (js "dist/assets")
              else ret tt) t = (Ok tt, t1) /\
             sameOff (touches (js "dist/assets")) t t1 /\ grows t t1).
  { rewrite (Hsrc (js "assets")) by (left; left; reflexivity).
    destruct (s !! js "assets").
    - destruct (copyDirectory_rerun fuel (js "assets") (js "dist/assets") s s1) with (t := t)
        as [t1 Ht1]; [apply (disjointTrees_head 97 100); discriminate|discriminate
                     |exact H1| |exact (grows_trans _ _ _ Hg1 Hgrow)|].
      + intros k Hk. apply Hsrc. left; exact Hk.
      + exists t1. split; [exact Ht1|].
        pose proof (sameOff_copyDirectory fuel (js "assets") (js "dist/assets") t) as HF.
        pose proof (grows_copyDirectory fuel (js "assets") (js "dist/assets") t) as HG.
        rewrite Ht1 in HF, HG. auto.
    - exists t. split; [reflexivity|]. split; [apply sameOff_refl|apply grows_refl]. }
  destruct Ht1 as (t1 & Ht1 & Hofft & Hgt).
  unfold bind at 1. unfold existsSync at 1. unfold bind at 1. rewrite Ht1.
  (* the second copy *)
  assert (Hfonts : forall k, under (js "fonts") k -> t1 !! k = s1 !! k).
  { intros k Hk.
    assert (Hnt : ~ touches (js "dist/assets") k)
      by (apply (disjointTrees_head 102 100 (js "onts") (js "ist/assets")); [discriminate..|exact Hk]).
    rewrite (Hofft k Hnt), (Hoff1 k Hnt). apply Hsrc. right; exact Hk. }
  unfold bind at 1. unfold existsSync at 1.
  rewrite (Hfonts (js "fonts")) by (left; reflexivity).
  destruct (s1 !! js "fonts").
  - eapply (copyDirectory_rerun fuel (js "fonts") (js "dist/fonts") s1 s');
      [apply (disjointTrees_head 102 100); discriminate|discriminate|exact H2
      |exact Hfonts|exact (grows_trans _ _ _ Hgrow Hgt)].
  - eexists. reflexivity.
Qed.

(** *** What a stage that returned has read and written *)

Ltac neq := let H := fresh in intros H; vm_compute in H; discriminate H.

Lemma minifyCSS_Ok (s s' : fileSystem) :
  minifyCSS s = (Ok tt, s') ->
  exists combined,
    fst (combineFiles cssFiles s) = Ok combined /\
    s' = <[stylesMin := File (minifyCSSContent combined)]> s /\
    s !! js "dist/css" = Some Dir.
Proof.
  intros H.
  apply (bundleStage_Ok cssFiles minifyCSSContent stylesMin) in H as (c & Hc & Hs & Hd).
  exists c. split; [exact Hc|]. split; [exact Hs|]. apply Hd. reflexivity.
Qed.

Lemma minifyCSS_again (t : fileSystem) (combined : jsstring) :
  fst (combineFiles cssFiles t) = Ok combined ->
  t !! stylesMin = Some (File (minifyCSSContent combined)) ->
  t !! js "dist/css" = Some Dir ->
  minifyCSS t = (Ok tt, t).
Proof.
  intros Hc Hk Hd.
  apply (bundleStage_again cssFiles minifyCSSContent stylesMin combined t Hc Hk).
  intros d [= <-]. exact Hd.
Qed.

Lemma minifyJavaScript_Ok (s s' : fileSystem) :
  minifyJavaScript s = (Ok tt, s') ->
  exists combined,
    fst (combineFiles jsFiles s) = Ok combined /\
    s' = <[scriptsMin := File (minifyJSContent combined)]> s /\
    s !! js "dist/js" = Some Dir.
Proof.
  intros H.
  apply (bundleStage_Ok jsFiles minifyJSContent scriptsMin) in H as (c & Hc & Hs & Hd).
  exists c. split; [exact Hc|]. split; [exact Hs|]. apply Hd. reflexivity.
Qed.

Lemma minifyJavaScript_again (t : fileSystem) (combined : jsstring) :
  fst (combineFiles jsFiles t) = Ok combined ->
  t !! scriptsMin = Some (File (minifyJSContent combined)) ->
  t !! js "dist/js" = Some Dir ->
  minifyJavaScript t = (Ok tt, t).
Proof.
  intros Hc Hk Hd.
  apply (bundleStage_again jsFiles minifyJSContent scriptsMin combined t Hc Hk).
  intros d [= <-]. exact Hd.
Qed.

Lemma extractCriticalCSS_Ok (s s' : fileSystem) :
  extractCriticalCSS s = (Ok tt, s') ->
  exists fullCSS criticalCSS,
    s !! stylesMin = Some (File fullCSS) /\
    criticalCSSOf fullCSS = Ok criticalCSS /\
    s' = <[criticalMin := File criticalCSS]> s /\
    s !! js "dist/css" = Some Dir.
Proof.
  intros H. unfold extractCriticalCSS in H. fold stylesMin criticalMin in H.
  apply bind_Ok in H as (full & s0 & Hr & H).
  apply readFileSync_Ok in Hr as [-> Hr].
  apply bind_Ok in H as (crit & s1 & Hl & H).
  unfold liftRes in Hl. injection Hl as Hl <-.
  apply writeFileSync_Ok in H as (-> & _ & Hd).
  exists full, crit. do 2 (split; [assumption|]). split; [reflexivity|].
  apply Hd. reflexivity.
Qed.

Lemma extractCriticalCSS_again (t : fileSystem) (fullCSS criticalCSS : jsstring) :
  t !! stylesMin = Some (File fullCSS) ->
  criticalCSSOf fullCSS = Ok criticalCSS ->
  t !! criticalMin = Some (File criticalCSS) ->
  t !! js "dist/css" = Some Dir ->
  extractCriticalCSS t = (Ok tt, t).
Proof.
  intros Hf Hc Hk Hd. unfold extractCriticalCSS. fold stylesMin criticalMin.
  rewrite (bind_run _ _ _ _ _ (readFileSync_run _ _ _ Hf)).
  unfold liftRes, bind at 1. rewrite Hc.
  rewrite writeFileSync_run; [|congruence|intros d [= <-]; exact Hd].
  rewrite insert_id by assumption. reflexivity.
Qed.

Lemma updateHTMLForProduction_Ok (s s' : fileSystem) :
  updateHTMLForProduction s = (Ok tt, s') ->
  exists html criticalCSS,
    s !! js "index.html" = Some (File html) /\
    s !! criticalMin = Some (File criticalCSS) /\
    s' = <[indexOut := File (productionHTML criticalCSS html)]> s /\
    s !! js "dist" = Some Dir.
Proof.
  intros H. unfold updateHTMLForProduction in H. fold criticalMin indexOut in H.
  apply bind_Ok in H as (html & s0 & Hr & H).
  apply readFileSync_Ok in Hr as [-> Hr].
  apply bind_Ok in H as (crit & s1 & Hr' & H).
  apply readFileSync_Ok in Hr' as [-> Hr'].
  apply writeFileSync_Ok in H as (-> & _ & Hd).
  exists html, crit. do 2 (split; [assumption|]). split; [reflexivity|].
  apply Hd. reflexivity.
Qed.

Lemma updateHTMLForProduction_run (t : fileSystem) (html criticalCSS : jsstring) :
  t !! js "index.html" = Some (File html) ->
  t !! criticalMin = Some (File criticalCSS) ->
  t !! indexOut <> Some Dir ->
  t !! js "dist" = Some Dir ->
  updateHTMLForProduction t
  = (Ok tt, <[indexOut := File (productionHTML criticalCSS html)]> t).
Proof.
  intros Hh Hc Hk Hd. unfold updateHTMLForProduction. fold criticalMin indexOut.
  rewrite (bind_run _ _ _ _ _ (readFileSync_run _ _ _ Hh)).
  rewrite (bind_run _ _ _ _ _ (readFileSync_run _ _ _ Hc)).
  apply writeFileSync_run; [exact Hk|intros d [= <-]; exact Hd].
Qed.

Lemma artifact_not_copied (k : jsstring) : In k artifacts -> ~ copied k.
Proof.
  intros Hk. apply not_copied; revert k Hk; apply List.Forall_forall;
    repeat constructor.
Qed.

Lemma source_not_artifact (k : jsstring) : assetSource k -> ~ In k artifacts.
Proof.
  intros Hs Hk.
  assert (Hd : exists k', k = 100%N :: k').
  { clear Hs. revert k Hk. apply List.Forall_forall. repeat constructor; vm_compute; eauto. }
  destruct Hd as [k' ->].
  destruct Hs as [[E|[r E]]|[E|[r E]]]; vm_compute in E; discriminate E.
Qed.

Lemma grows_minifyCSS : Keeps grows minifyCSS.
Proof.
  apply Keeps_bind; [exact grows_trans|apply Keeps_combineFiles; [exact grows_refl|exact grows_trans]|].
  intros c. apply grows_writeFileSync.
Qed.

Lemma grows_minifyJavaScript : Keeps grows minifyJavaScript.
Proof.
  apply Keeps_bind; [exact grows_trans|apply Keeps_combineFiles; [exact grows_refl|exact grows_trans]|].
  intros c. apply grows_writeFileSync.
Qed.

Lemma grows_extractCriticalCSS : Keeps grows extractCriticalCSS.
Proof.
  apply Keeps_bind; [exact grows_trans|apply Keeps_readFileSync, grows_refl|]. intros full.
  apply Keeps_bind; [exact grows_trans|apply Keeps_liftRes, grows_refl|]. intros crit.
  apply grows_writeFileSync.
Qed.

Lemma grows_updateHTMLForProduction : Keeps grows updateHTMLForProduction.
Proof.
  apply Keeps_bind; [exact grows_trans|apply Keeps_readFileSync, grows_refl|]. intros html.
  apply Keeps_bind; [exact grows_trans|apply Keeps_readFileSync, grows_refl|]. intros crit.
  apply grows_writeFileSync.
Qed.

Lemma Keeps_run {A : Type} (R : fileSystem -> fileSystem -> Prop) (m : M A)
      (r : res A) (s s' : fileSystem) :
  Keeps R m -> m s = (r, s') -> R s s'.
Proof. intros HK H. specialize (HK s). rewrite H in HK. exact HK. Qed.

Lemma not_In_decide (k : jsstring) (l : list jsstring) :
  existsb (fun a => bool_decide (a = k)) l = false -> ~ In k l.
Proof.
  intros H Hk. apply not_true_iff_false in H. apply H, existsb_exists.
  exists k. split; [exact Hk|apply bool_decide_eq_true; reflexivity].
Qed.

Lemma sourcePath_decide (k : jsstring) :
  existsb (fun a => bool_decide (a = k)) artifacts = false ->
  touchesb (js "dist/assets") k = false -> touchesb (js "dist/fonts") k = false ->
  sourcePath k.
Proof.
  intros H1 H2 H3. split; [apply not_In_decide, H1|apply not_copied; assumption].
Qed.

Lemma assetSource_sourcePath (k : jsstring) : assetSource k -> sourcePath k.
Proof.
  intros H. split; [apply source_not_artifact, H|apply source_not_copied, H].
Qed.

Section BuildTwice.

Variable fuel : nat.
Variables fs a b c d e fs1 : fileSystem.
Hypothesis H1 : createOutputDirectory fs = (Ok tt, a).
Hypothesis H2 : minifyCSS a = (Ok tt, b).
Hypothesis H3 : minifyJavaScript b = (Ok tt, c).
Hypothesis H4 : extractCriticalCSS c = (Ok tt, d).
Hypothesis H5 : copyAssets fuel d = (Ok tt, e).
Hypothesis H6 : updateHTMLForProduction e = (Ok tt, fs1).

Lemma build_grows :
  grows a b /\ grows b c /\ grows c d /\ grows d e /\ grows e fs1.
Proof.
  split; [exact (Keeps_run _ _ _ _ _ grows_minifyCSS H2)|].
  split; [exact (Keeps_run _ _ _ _ _ grows_minifyJavaScript H3)|].
  split; [exact (Keeps_run _ _ _ _ _ grows_extractCriticalCSS H4)|].
  split; [exact (Keeps_run _ _ _ _ _ (grows_copyAssets fuel) H5)|].
  exact (Keeps_run _ _ _ _ _ grows_updateHTMLForProduction H6).
Qed.

(** The build leaves its sources as they are. *)
Lemma build_sources (k : jsstring) :
  sourcePath k ->
  fs1 !! k = a !! k /\ fs1 !! k = b !! k /\ fs1 !! k = d !! k /\ fs1 !! k = e !! k.
Proof.
  intros [Hart Hcop].
  assert (N2 : stylesMin <> k) by (intros <-; apply Hart; left; reflexivity).
  assert (N3 : scriptsMin <> k) by (intros <-; apply Hart; right; left; reflexivity).
  assert (N4 : criticalMin <> k) by (intros <-; apply Hart; do 2 right; left; reflexivity).
  assert (N6 : indexOut <> k) by (intros <-; apply Hart; do 3 right; left; reflexivity).
  apply minifyCSS_Ok in H2 as (cssText & _ & Eb & _).
  apply minifyJavaScript_Ok in H3 as (jsText & _ & Ec & _).
  apply extractCriticalCSS_Ok in H4 as (full & crit & _ & _ & Ed & _).
  pose proof (Keeps_run _ _ _ _ _ (sameOff_copyAssets fuel) H5 k Hcop) as Ee.
  apply updateHTMLForProduction_Ok in H6 as (html & crit' & _ & _ & Efs1 & _).
  assert (E1 : fs1 !! k = e !! k) by (rewrite Efs1; apply lookup_insert_ne, N6).
  assert (E2 : d !! k = b !! k).
  { rewrite Ed, lookup_insert_ne by exact N4. rewrite Ec. apply lookup_insert_ne, N3. }
  assert (E3 : b !! k = a !! k) by (rewrite Eb; apply lookup_insert_ne, N2).
  rewrite E1, Ee, E2, E3. auto.
Qed.

(** What the artifacts hold after the build. *)
Lemma build_artifacts :
  exists cssText jsText criticalCSS html,
    fst (combineFiles cssFiles a) = Ok cssText /\
    fst (combineFiles jsFiles b) = Ok jsText /\
    criticalCSSOf (minifyCSSContent cssText) = Ok criticalCSS /\
    e !! js "index.html" = Some (File html) /\
    fs1 !! stylesMin = Some (File (minifyCSSContent cssText)) /\
    fs1 !! scriptsMin = Some (File (minifyJSContent jsText)) /\
    fs1 !! criticalMin = Some (File criticalCSS) /\
    fs1 = <[indexOut := File (productionHTML criticalCSS html)]> e.
Proof.
  pose proof (Keeps_run _ _ _ _ _ (sameOff_copyAssets fuel) H5) as Hoff.
  apply minifyCSS_Ok in H2 as (cssText & Hcss & Eb & _).
  apply minifyJavaScript_Ok in H3 as (jsText & Hjs & Ec & _).
  apply extractCriticalCSS_Ok in H4 as (full & crit & Hfull & Hcrit & Ed & _).
  apply updateHTMLForProduction_Ok in H6 as (html & crit' & Hhtml & Hcrit' & Efs1 & _).
  assert (K2 : e !! stylesMin = Some (File (minifyCSSContent cssText))).
  { rewrite Hoff by (apply artifact_not_copied; left; reflexivity).
    rewrite Ed, lookup_insert_ne by neq. rewrite Ec, lookup_insert_ne by neq.
    rewrite Eb. apply lookup_insert_eq. }
  assert (K3 : e !! scriptsMin = Some (File (minifyJSContent jsText))).
  { rewrite Hoff by (apply artifact_not_copied; right; left; reflexivity).
    rewrite Ed, lookup_insert_ne by neq. rewrite Ec. apply lookup_insert_eq. }
  assert (K4 : e !! criticalMin = Some (File crit)).
  { rewrite Hoff by (apply artifact_not_copied; do 2 right; left; reflexivity).
    rewrite Ed. apply lookup_insert_eq. }
  assert (full = minifyCSSContent cssText) as ->.
  { rewrite Ec, lookup_insert_ne in Hfull by neq.
    rewrite Eb, lookup_insert_eq in Hfull. congruence. }
  assert (crit' = crit) as -> by congruence.
  exists cssText, jsText, crit, html.
  do 4 (split; [assumption|]).
  split; [rewrite Efs1, lookup_insert_ne by neq; exact K2|].
  split; [rewrite Efs1, lookup_insert_ne by neq; exact K3|].
  split; [rewrite Efs1, lookup_insert_ne by neq; exact K4|exact Efs1].
Qed.

End BuildTwice.

(** ** Building twice *)

(** C9. A second run of the whole build, on the file system that a first
    run has left, returns as well, and each of the four artifacts
    (styles.min.css, scripts.min.js, critical.min.css and index.html under
    dist) is a file that holds after the second run the very text it held
    after the first. *)
Theorem build_twice_same_artifacts (fuel : nat) (fs fs1 : fileSystem) :
  build fuel fs = (Ok tt, fs1) ->
  exists fs2,
    build fuel fs1 = (Ok tt, fs2) /\
    Forall (fun k => (exists text, fs1 !! k = Some (File text)) /\ fs2 !! k = fs1 !! k)
           artifacts.
Proof.
  intros H. unfold build in H.
  apply bind_Ok in H as ([] & a & H1 & H).
  apply bind_Ok in H as ([] & b & H2 & H).
  apply bind_Ok in H as ([] & c & H3 & H).
  apply bind_Ok in H as ([] & d & H4 & H).
  apply bind_Ok in H as ([] & e & H5 & H6).
  destruct (build_grows fuel a b c d e fs1 H2 H3 H4 H5 H6) as (Gab & Gbc & Gcd & Gde & Ge1).
  pose proof (build_sources fuel a b c d e fs1 H2 H3 H4 H5 H6) as Hsrc.
  destruct (build_artifacts fuel a b c d e fs1 H2 H3 H4 H5 H6)
    as (cssText & jsText & crit & html & Hcss & Hjs & Hcrit & Hhtml & K2 & K3 & K4 & Efs1).
  assert (Gb1 : grows b fs1) by eauto using grows_trans.
  assert (Ga1 : grows a fs1) by eauto using grows_trans.
  (* the directories *)
  rewrite createOutputDirectory_ensure in H1.
  apply forEach_ensureDir in H1; [|repeat constructor; discriminate].
  assert (S1 : createOutputDirectory fs1 = (Ok tt, fs1)).
  { rewrite createOutputDirectory_ensure. apply forEach_ensureDir_again.
    revert H1. apply List.Forall_impl. intros p. apply grows_present, Ga1. }
  assert (Dcss : fs1 !! js "dist/css" = Some Dir).
  { apply minifyCSS_Ok in H2 as (? & _ & _ & D). exact (grows_dir _ _ _ Ga1 D). }
  assert (Djs : fs1 !! js "dist/js" = Some Dir).
  { apply minifyJavaScript_Ok in H3 as (? & _ & _ & D). exact (grows_dir _ _ _ Gb1 D). }
  assert (Ddist : fs1 !! js "dist" = Some Dir).
  { apply updateHTMLForProduction_Ok in H6 as (? & ? & _ & _ & _ & D).
    exact (grows_dir _ _ _ Ge1 D). }
  (* the bundles *)
  assert (S2 : minifyCSS fs1 = (Ok tt, fs1)).
  { apply (minifyCSS_again fs1 cssText); [|exact K2|exact Dcss].
    rewrite <- Hcss. apply combineFiles_agree.
    unfold cssFiles; cbn [map]; repeat constructor;
      apply Hsrc, sourcePath_decide; vm_compute; reflexivity. }
  assert (S3 : minifyJavaScript fs1 = (Ok tt, fs1)).
  { apply (minifyJavaScript_again fs1 jsText); [|exact K3|exact Djs].
    rewrite <- Hjs. apply combineFiles_agree.
    unfold jsFiles; cbn [map]; repeat constructor;
      apply Hsrc, sourcePath_decide; vm_compute; reflexivity. }
  assert (S4 : extractCriticalCSS fs1 = (Ok tt, fs1)).
  { exact (extractCriticalCSS_again fs1 _ crit K2 Hcrit K4 Dcss). }
  (* the copy *)
  destruct (copyAssets_rerun fuel d e fs1 H5) as [t5 S5]; [|exact Ge1|].
  { intros k Hk. apply Hsrc, assetSource_sourcePath, Hk. }
  pose proof (Keeps_run _ _ _ _ _ (sameOff_copyAssets fuel) S5) as Hoff5.
  pose proof (Keeps_run _ _ _ _ _ (grows_copyAssets fuel) S5) as G15.
  (* the page *)
  assert (S6 : updateHTMLForProduction t5
               = (Ok tt, <[indexOut := File (productionHTML crit html)]> t5)).
  { apply updateHTMLForProduction_run.
    - rewrite Hoff5 by (apply not_copied; vm_compute; reflexivity).
      rewrite Efs1, lookup_insert_ne by neq. exact Hhtml.
    - rewrite Hoff5 by (apply artifact_not_copied; do 2 right; left; reflexivity).
      exact K4.
    - rewrite Hoff5 by (apply artifact_not_copied; do 3 right; left; reflexivity).
      rewrite Efs1 at 1. rewrite lookup_insert_eq. discriminate.
    - exact (grows_dir _ _ _ G15 Ddist). }
  exists (<[indexOut := File (productionHTML crit html)]> t5). split.
  - unfold build.
    rewrite (bind_run _ _ _ _ _ S1), (bind_run _ _ _ _ _ S2), (bind_run _ _ _ _ _ S3),
      (bind_run _ _ _ _ _ S4), (bind_run _ _ _ _ _ S5). exact S6.
  - assert (K6 : fs1 !! indexOut = Some (File (productionHTML crit html)))
      by (rewrite Efs1 at 1; apply lookup_insert_eq).
    apply List.Forall_forall. intros k Hk.
    destruct Hk as [<-|[<-|[<-|[<-|[]]]]].
    + split; [eauto|]. rewrite lookup_insert_ne by neq.
      apply Hoff5, artifact_not_copied. left; reflexivity.
    + split; [eauto|]. rewrite lookup_insert_ne by neq.
      apply Hoff5, artifact_not_copied. right; left; reflexivity.
    + split; [eauto|]. rewrite lookup_insert_ne by neq.
      apply Hoff5, artifact_not_copied. do 2 right; left; reflexivity.
    + split; [eauto|]. rewrite lookup_insert_eq, K6. reflexivity.
Qed.

Lemma build_twice_same_artifacts_witness :
  build 3 smallSite = (Ok tt, snd (build 3 smallSite)) /\
  exists fs2,
    build 3 (snd (build 3 smallSite)) = (Ok tt, fs2) /\
    Forall (fun k => (exists text, snd (build 3 smallSite) !! k = Some (File text)) /\
                     fs2 !! k = snd (build 3 smallSite) !! k)
           artifacts.
Proof.
  assert (H : build 3 smallSite = (Ok tt, snd (build 3 smallSite)))
    by (vm_compute; reflexivity).
  split; [exact H|].
  exact (build_twice_same_artifacts 3 smallSite (snd (build 3 smallSite)) H).
Defined.

(** ** The output directories *)

Lemma addsDirs_refl (T : jsstring -> Prop) (fs : fileSystem) : addsDirs T fs fs.
Proof. split; auto. Qed.

Lemma addsDirs_trans (T : jsstring -> Prop) (a b c : fileSystem) :
  addsDirs T a b -> addsDirs T b c -> addsDirs T a c.
Proof.
  intros [H1 H2] [H3 H4]. split; [auto|].
  intros k Hk. destruct (H2 k Hk) as [Hb|[Hb HT]].
  - exact (H4 k Hb).
  - right. split; [exact (H3 k _ Hb)|exact HT].
Qed.

Lemma addsDirs_mkdirOne (T : jsstring -> Prop) (p a : jsstring) :
  T a -> Keeps (addsDirs T) (mkdirOne p a).
Proof.
  intros Ha fs. unfold mkdirOne. destruct (fs !! a) as [[c|]|] eqn:E; cbn [snd];
    try apply addsDirs_refl.
  split.
  - intros k n Hk. rewrite lookup_insert_ne; [exact Hk|congruence].
  - intros k Hk. destruct (decide (a = k)) as [<-|Hne].
    + right. rewrite lookup_insert_eq. auto.
    + left. rewrite lookup_insert_ne by exact Hne. exact Hk.
Qed.

Lemma addsDirs_mkdirSync (T : jsstring -> Prop) (p : jsstring) :
  (forall a, In a (ancestors p) -> a <> [] -> T a) -> Keeps (addsDirs T) (mkdirSync p).
Proof.
  intros HT. unfold mkdirSync.
  apply Keeps_forEach_In; [apply addsDirs_refl|apply addsDirs_trans|].
  intros a Ha. apply List.filter_In in Ha as [Ha Hne].
  apply addsDirs_mkdirOne, HT; [exact Ha|].
  intros ->. discriminate.
Qed.

Lemma addsDirs_ensureDir (T : jsstring -> Prop) (p : jsstring) :
  (forall a, In a (ancestors p) -> a <> [] -> T a) -> Keeps (addsDirs T) (ensureDir p).
Proof.
  intros HT. unfold ensureDir.
  apply Keeps_bind; [apply addsDirs_trans|apply Keeps_existsSync, addsDirs_refl|].
  intros e. apply Keeps_if; [apply addsDirs_mkdirSync, HT|apply Keeps_ret, addsDirs_refl].
Qed.

Lemma outputDirs_ancestors (p a : jsstring) :
  In p outputDirs -> In a (ancestors p) -> a <> [] -> In a outputDirs.
Proof.
  intros Hp Ha Hne.
  destruct Hp as [<-|[<-|[<-|[<-|[<-|[]]]]]]; vm_compute in Ha;
    repeat (destruct Ha as [<-|Ha]; [try (vm_compute; tauto)|]);
    try contradiction; exfalso; apply Hne; reflexivity.
Qed.

Lemma addsDirs_createOutputDirectory :
  Keeps (addsDirs (fun k => In k outputDirs)) createOutputDirectory.
Proof.
  intros fs. rewrite createOutputDirectory_ensure.
  apply Keeps_forEach_In; [apply addsDirs_refl|apply addsDirs_trans|].
  intros p Hp. apply addsDirs_ensureDir. intros a. apply outputDirs_ancestors, Hp.
Qed.

(** X1. When [createOutputDirectory] has returned, the output directory
    and its four subdirectories exist, and calling it again returns and
    leaves the file system as it is. *)
Theorem createOutputDirectory_idempotent (fs fs' : fileSystem) :
  createOutputDirectory fs = (Ok tt, fs') ->
  Forall (fun p => is_Some (fs' !! p)) (outputDir :: outputSubdirs) /\
  createOutputDirectory fs' = (Ok tt, fs').
Proof.
  intros H. rewrite createOutputDirectory_ensure in H.
  apply forEach_ensureDir in H; [|repeat constructor; discriminate].
  split; [exact H|].
  rewrite createOutputDirectory_ensure. apply forEach_ensureDir_again, H.
Qed.

Lemma createOutputDirectory_idempotent_witness :
  createOutputDirectory ∅ = (Ok tt, snd (createOutputDirectory ∅)) /\
  Forall (fun p => is_Some (snd (createOutputDirectory ∅) !! p))
         (outputDir :: outputSubdirs) /\
  createOutputDirectory (snd (createOutputDirectory ∅))
  = (Ok tt, snd (createOutputDirectory ∅)).
Proof.
  assert (H : createOutputDirectory ∅ = (Ok tt, snd (createOutputDirectory ∅)))
    by (vm_compute; reflexivity).
  split; [exact H|].
  exact (createOutputDirectory_idempotent ∅ _ H).
Defined.

(** X2. Whether it returns or throws, [createOutputDirectory] leaves every
    entry that exists as it is, and what it adds is a directory at the
    output directory or at one of its four subdirectories. *)
Theorem createOutputDirectory_only_adds_directories (fs : fileSystem) :
  let fs' := snd (createOutputDirectory fs) in
  (forall k n, fs !! k = Some n -> fs' !! k = Some n) /\
  (forall k, fs !! k = None ->
             fs' !! k = None \/
             (fs' !! k = Some Dir /\ In k (outputDir :: outputSubdirs))).
Proof. exact (addsDirs_createOutputDirectory fs). Qed.

Lemma mkdirSync_top (p : jsstring) (s : fileSystem) :
  List.filter (fun a => negb (bool_decide (a = []))) (ancestors p) = [p] ->
  s !! p = None -> mkdirSync p s = (Ok tt, <[p := Dir]> s).
Proof.
  intros Hanc Hp. unfold mkdirSync. rewrite Hanc. cbn [forEach].
  unfold bind, mkdirOne. rewrite Hp. reflexivity.
Qed.

Lemma mkdirSync_in_dir (d p : jsstring) (s : fileSystem) :
  List.filter (fun a => negb (bool_decide (a = []))) (ancestors p) = [d; p] ->
  s !! d = Some Dir -> s !! p = None -> d <> p ->
  mkdirSync p s = (Ok tt, <[p := Dir]> s).
Proof.
  intros Hanc Hd Hp Hne. unfold mkdirSync. rewrite Hanc. cbn [forEach].
  unfold bind, mkdirOne. rewrite Hd, Hp. reflexivity.
Qed.

Lemma mkdirSync_in_file (d p c : jsstring) (s : fileSystem) :
  List.filter (fun a => negb (bool_decide (a = []))) (ancestors p) = [d; p] ->
  s !! d = Some (File c) -> d <> p ->
  mkdirSync p s = (Throw (ENOTDIR p), s).
Proof.
  intros Hanc Hd Hne. unfold mkdirSync. rewrite Hanc. cbn [forEach].
  unfold bind, mkdirOne. rewrite Hd. rewrite bool_decide_eq_false_2 by exact Hne.
  reflexivity.
Qed.

Lemma outputSubdirs_ancestors (p : jsstring) :
  In p outputSubdirs ->
  List.filter (fun a => negb (bool_decide (a = []))) (ancestors p) = [outputDir; p] /\
  outputDir <> p.
Proof.
  intros Hp. destruct Hp as [<-|[<-|[<-|[<-|[]]]]]; split;
    solve [vm_compute; reflexivity | neq].
Qed.

(** X3. When the output directory is a regular file, [createOutputDirectory]
    throws ENOTDIR for the first of the four subdirectories that is missing,
    and has changed nothing. *)
Theorem createOutputDirectory_output_is_file
        (fs : fileSystem) (c : jsstring) (l1 l2 : list jsstring) (p : jsstring) :
  fs !! outputDir = Some (File c) ->
  outputSubdirs = l1 ++ p :: l2 ->
  Forall (fun q => is_Some (fs !! q)) l1 ->
  fs !! p = None ->
  createOutputDirectory fs = (Throw (ENOTDIR p), fs).
Proof.
  intros Hout Hsplit Hl1 Hp.
  assert (Hin : In p outputSubdirs) by (rewrite Hsplit; apply in_elt).
  destruct (outputSubdirs_ancestors p Hin) as [Hanc Hne].
  rewrite createOutputDirectory_ensure.
  change outputDirs with (outputDir :: outputSubdirs). cbn [forEach].
  rewrite (bind_run _ _ _ _ _ (ensureDir_again outputDir fs (mk_is_Some _ _ Hout))).
  rewrite Hsplit, forEach_app.
  rewrite (bind_run _ _ _ _ _ (forEach_ensureDir_again l1 fs Hl1)).
  cbn [forEach]. unfold bind at 1. unfold ensureDir, bind at 1, existsSync.
  rewrite Hp. cbn [negb].
  rewrite (mkdirSync_in_file outputDir p c fs Hanc Hout Hne). reflexivity.
Qed.

Lemma createOutputDirectory_output_is_file_witness :
  let fs : fileSystem := <[js "dist/css" := Dir]> (<[js "dist" := File (js "x")]> ∅) in
  createOutputDirectory fs = (Throw (ENOTDIR (js "dist/js")), fs).
Proof.
  intros fs.
  apply (createOutputDirectory_output_is_file fs (js "x") [js "dist/css"]
           [js "dist/assets"; js "dist/fonts"] (js "dist/js")).
  - vm_compute. reflexivity.
  - vm_compute. reflexivity.
  - repeat constructor. vm_compute. eauto.
  - vm_compute. reflexivity.
Defined.

Lemma ensureDir_sub (p : jsstring) (s : fileSystem) :
  In p outputSubdirs -> s !! outputDir = Some Dir ->
  exists s', ensureDir p s = (Ok tt, s') /\ s' !! outputDir = Some Dir /\
             (s' !! p = Some Dir \/ exists c, s !! p = Some (File c)).
Proof.
  intros Hp Hout. destruct (outputSubdirs_ancestors p Hp) as [Hanc Hne].
  unfold ensureDir, bind, existsSync.
  destruct (s !! p) as [[c|]|] eqn:E; cbn [negb].
  - exists s. eauto.
  - exists s. eauto.
  - rewrite (mkdirSync_in_dir outputDir p s Hanc Hout E Hne).
    exists (<[p := Dir]> s). split; [reflexivity|].
    rewrite lookup_insert_ne by (intros H; apply Hne; symmetry; exact H).
    rewrite lookup_insert_eq. auto.
Qed.

Lemma addsDirs_file (T : jsstring -> Prop) (s s' : fileSystem) (k c : jsstring) :
  addsDirs T s s' -> s' !! k = Some (File c) -> s !! k = Some (File c).
Proof.
  intros [H1 H2] Hk. destruct (s !! k) as [n|] eqn:E.
  - rewrite (H1 k n E) in Hk. exact Hk.
  - destruct (H2 k E) as [H|[H _]]; congruence.
Qed.

Lemma forEach_ensureDir_sub (l : list jsstring) (s : fileSystem) :
  Forall (fun p => In p outputSubdirs) l -> s !! outputDir = Some Dir ->
  exists s', forEach l ensureDir s = (Ok tt, s') /\ s' !! outputDir = Some Dir /\
             Forall (fun p => s' !! p = Some Dir \/ exists c, s !! p = Some (File c)) l.
Proof.
  intros Hl; revert s; induction Hl as [|p l Hp Hl IH]; intros s Hout.
  - exists s. split; [reflexivity|]. split; [exact Hout|constructor].
  - destruct (ensureDir_sub p s Hp Hout) as (s1 & H1 & Hout1 & Hp1).
    destruct (IH s1 Hout1) as (s' & H2 & Hout' & Hall).
    exists s'. cbn [forEach]. rewrite (bind_run _ _ _ _ _ H1).
    split; [exact H2|]. split; [exact Hout'|].
    assert (Hadd : addsDirs (fun _ => True) s s1).
    { apply (Keeps_run _ _ _ _ _ (addsDirs_ensureDir (fun _ => True) p (fun _ _ _ => I)) H1). }
    assert (Hadd' : addsDirs (fun _ => True) s1 s').
    { refine (Keeps_run _ _ _ _ _ _ H2).
      apply Keeps_forEach; [apply addsDirs_refl|apply addsDirs_trans|].
      intros q. apply addsDirs_ensureDir. auto. }
    constructor.
    + destruct Hp1 as [Hd|Hf]; [left|right; exact Hf].
      exact (proj1 Hadd' _ _ Hd).
    + revert Hall. apply List.Forall_impl. intros q [Hd|[c Hf]]; [left; exact Hd|].
      right. exists c. exact (addsDirs_file _ _ _ _ _ Hadd Hf).
Qed.

Lemma createOutputDirectory_dirs (fs : fileSystem) :
  (forall c, fs !! outputDir <> Some (File c)) ->
  exists fs',
    createOutputDirectory fs = (Ok tt, fs') /\
    fs' !! outputDir = Some Dir /\
    Forall (fun p => fs' !! p = Some Dir \/ exists c, fs !! p = Some (File c))
           outputSubdirs.
Proof.
  intros Hout. rewrite createOutputDirectory_ensure.
  change outputDirs with (outputDir :: outputSubdirs). cbn [forEach].
  assert (H0 : exists s0, ensureDir outputDir fs = (Ok tt, s0) /\
                          s0 !! outputDir = Some Dir).
  { unfold ensureDir, bind, existsSync.
    destruct (fs !! outputDir) as [[c|]|] eqn:E; cbn [negb].
    - destruct (Hout c eq_refl).
    - exists fs. auto.
    - rewrite (mkdirSync_top outputDir fs eq_refl E).
      eexists. split; [reflexivity|apply lookup_insert_eq]. }
  destruct H0 as (s0 & H0 & Hd0).
  destruct (forEach_ensureDir_sub outputSubdirs s0) as (fs' & H1 & Hd' & Hall);
    [apply List.Forall_forall; auto|exact Hd0|].
  exists fs'. rewrite (bind_run _ _ _ _ _ H0). split; [exact H1|]. split; [exact Hd'|].
  assert (Hadd : addsDirs (fun _ => True) fs s0).
  { apply (Keeps_run _ _ _ _ _ (addsDirs_ensureDir (fun _ => True) outputDir (fun _ _ _ => I)) H0). }
  revert Hall. apply List.Forall_impl. intros q [Hd|[c Hf]]; [left; exact Hd|].
  right. exists c. exact (addsDirs_file _ _ _ _ _ Hadd Hf).
Qed.

(** X4. Unless the output directory is a regular file, [createOutputDirectory]
    returns; the output directory is then a directory, and so is each of the
    four subdirectories that was not a regular file before. *)
Theorem createOutputDirectory_returns (fs : fileSystem) :
  (forall c, fs !! outputDir <> Some (File c)) ->
  exists fs',
    createOutputDirectory fs = (Ok tt, fs') /\
    fs' !! outputDir = Some Dir /\
    Forall (fun p => fs' !! p = Some Dir \/ exists c, fs !! p = Some (File c))
           outputSubdirs.
Proof. exact (createOutputDirectory_dirs fs). Qed.

Lemma createOutputDirectory_returns_witness :
  let fs : fileSystem := <[js "dist/js" := File (js "x")]> (<[js "dist" := Dir]> ∅) in
  (forall c, fs !! outputDir <> Some (File c)) /\
  exists fs',
    createOutputDirectory fs = (Ok tt, fs') /\
    fs' !! outputDir = Some Dir /\
    Forall (fun p => fs' !! p = Some Dir \/ exists c, fs !! p = Some (File c))
           outputSubdirs.
Proof.
  intros fs.
  assert (H : forall c, fs !! outputDir <> Some (File c))
    by (intros c; vm_compute; discriminate).
  split; [exact H|]. exact (createOutputDirectory_returns fs H).
Defined.

(** ** What the stages write *)

Lemma addsDirs_sameOff (T : jsstring -> Prop) (fs fs' : fileSystem) :
  addsDirs T fs fs' -> sameOff T fs fs'.
Proof.
  intros [H1 H2] k Hk. destruct (fs !! k) as [n|] eqn:E; [exact (H1 k n E)|].
  destruct (H2 k E) as [H|[_ H]]; [exact H|contradiction].
Qed.

Lemma sameOff_createOutputDirectory :
  Keeps (sameOff (fun k => In k (outputDir :: outputSubdirs))) createOutputDirectory.
Proof. intros fs. apply addsDirs_sameOff, addsDirs_createOutputDirectory. Qed.

Lemma sameOff_bundleStage (files : list jsstring) (minify : jsstring -> jsstring)
      (k : jsstring) :
  Keeps (sameOff (eq k))
        (bind (combineFiles files) (fun combined => writeFileSync k (minify combined))).
Proof.
  apply Keeps_bind; [apply sameOff_trans| |intros c; apply sameOff_writeFileSync].
  apply Keeps_combineFiles; [apply sameOff_refl|apply sameOff_trans].
Qed.

Lemma sameOff_extractCriticalCSS : Keeps (sameOff (eq criticalMin)) extractCriticalCSS.
Proof.
  apply Keeps_bind; [apply sameOff_trans|apply Keeps_readFileSync, sameOff_refl|]. intros full.
  apply Keeps_bind; [apply sameOff_trans|apply Keeps_liftRes, sameOff_refl|]. intros crit.
  apply sameOff_writeFileSync.
Qed.

Lemma sameOff_updateHTMLForProduction : Keeps (sameOff (eq indexOut)) updateHTMLForProduction.
Proof.
  apply Keeps_bind; [apply sameOff_trans|apply Keeps_readFileSync, sameOff_refl|]. intros html.
  apply Keeps_bind; [apply sameOff_trans|apply Keeps_readFileSync, sameOff_refl|]. intros crit.
  apply sameOff_writeFileSync.
Qed.

(** The paths that the first five stages may write. *)
Lemma sameOff_buildAssets (fuel : nat) :
  Keeps (sameOff (fun k => written k /\ k <> indexOut)) (buildAssets fuel).
Proof.
  unfold buildAssets.
  apply Keeps_bind; [apply sameOff_trans| |intros _].
  { eapply Keeps_mono; [|apply sameOff_createOutputDirectory].
    intros x y. apply sameOff_mono. intros k Hk. split; [left; exact Hk|].
    intros ->. revert Hk. apply not_In_decide. vm_compute. reflexivity. }
  apply Keeps_bind; [apply sameOff_trans| |intros _].
  { eapply Keeps_mono; [|apply (sameOff_bundleStage cssFiles minifyCSSContent stylesMin)].
    intros x y. apply sameOff_mono. intros k <-.
    split; [right; left; left; reflexivity|neq]. }
  apply Keeps_bind; [apply sameOff_trans| |intros _].
  { eapply Keeps_mono; [|apply (sameOff_bundleStage jsFiles minifyJSContent scriptsMin)].
    intros x y. apply sameOff_mono. intros k <-.
    split; [right; left; right; left; reflexivity|neq]. }
  apply Keeps_bind; [apply sameOff_trans| |intros _].
  { eapply Keeps_mono; [|apply sameOff_extractCriticalCSS].
    intros x y. apply sameOff_mono. intros k <-.
    split; [right; left; do 2 right; left; reflexivity|neq]. }
  eapply Keeps_mono; [|apply sameOff_copyAssets].
  intros x y. apply sameOff_mono. intros k Hk. split; [do 2 right; exact Hk|].
  intros ->. revert Hk. apply artifact_not_copied. do 3 right. left. reflexivity.
Qed.

Lemma build_buildAssets (fuel : nat) (fs : fileSystem) :
  build fuel fs = bind (buildAssets fuel) (fun _ => updateHTMLForProduction) fs.
Proof.
  unfold build, buildAssets. rewrite !bind_assoc.
  unfold bind. repeat match goal with
  | |- context [match ?m ?s with _ => _ end] =>
      lazymatch m with
      | createOutputDirectory => destruct (m s) as [[[]|?] ?]
      | minifyCSS => destruct (m s) as [[[]|?] ?]
      | minifyJavaScript => destruct (m s) as [[[]|?] ?]
      | extractCriticalCSS => destruct (m s) as [[[]|?] ?]
      | copyAssets _ => destruct (m s) as [[[]|?] ?]
      end
  end; reflexivity.
Qed.

Lemma sameOff_build (fuel : nat) : Keeps (sameOff written) (build fuel).
Proof.
  intros fs. rewrite build_buildAssets. revert fs.
  apply Keeps_bind; [apply sameOff_trans| |intros _].
  - eapply Keeps_mono; [|apply sameOff_buildAssets].
    intros x y. apply sameOff_mono. intros k [Hk _]. exact Hk.
  - eapply Keeps_mono; [|apply sameOff_updateHTMLForProduction].
    intros x y. apply sameOff_mono. intros k <-. right; left. do 3 right. left. reflexivity.
Qed.

Lemma copied_under_output (k : jsstring) : copied k -> under outputDir k.
Proof.
  intros [[[r ->]|H]|[[r ->]|H]].
  - right. exists (js "assets" ++ slash ++ r). reflexivity.
  - vm_compute in H. destruct H as [<-|[<-|[]]]; [left|right; exists (js "assets")]; reflexivity.
  - right. exists (js "fonts" ++ slash ++ r). reflexivity.
  - vm_compute in H. destruct H as [<-|[<-|[]]]; [left|right; exists (js "fonts")]; reflexivity.
Qed.

Lemma written_under_output (k : jsstring) : written k -> under outputDir k.
Proof.
  intros [H|[H|H]]; [| |exact (copied_under_output k H)].
  - destruct H as [<-|[<-|[<-|[<-|[<-|[]]]]]]; [left; reflexivity|right..];
      [exists (js "css")|exists (js "js")|exists (js "assets")|exists (js "fonts")];
      reflexivity.
  - destruct H as [<-|[<-|[<-|[<-|[]]]]]; right;
      [exists (js "css/styles.min.css")|exists (js "js/scripts.min.js")
      |exists (js "css/critical.min.css")|exists (js "index.html")]; reflexivity.
Qed.

(** X5. Whether it returns or throws, a build changes nothing but the output
    directories, the four artifacts and the copies below the assets and
    fonts directories of the output; in particular nothing outside the
    output directory. *)
Theorem build_writes_only_output (fuel : nat) (fs : fileSystem) :
  (forall k, ~ written k -> snd (build fuel fs) !! k = fs !! k) /\
  (forall k, ~ under outputDir k -> snd (build fuel fs) !! k = fs !! k).
Proof.
  pose proof (sameOff_build fuel fs) as H. split; [exact H|].
  intros k Hk. apply H. intros Hw. apply Hk, written_under_output, Hw.
Qed.

Lemma grows_build (fuel : nat) : Keeps grows (build fuel).
Proof.
  unfold build.
  apply Keeps_bind; [exact grows_trans|exact grows_createOutputDirectory|intros _].
  apply Keeps_bind; [exact grows_trans|exact grows_minifyCSS|intros _].
  apply Keeps_bind; [exact grows_trans|exact grows_minifyJavaScript|intros _].
  apply Keeps_bind; [exact grows_trans|exact grows_extractCriticalCSS|intros _].
  apply Keeps_bind; [exact grows_trans|exact (grows_copyAssets fuel)|intros _].
  exact grows_updateHTMLForProduction.
Qed.

(** X6. A build removes nothing and changes the kind of nothing, whether it
    returns or throws: what was a directory is a directory afterwards, and
    what was a regular file is a regular file. *)
Theorem build_keeps_entries (fuel : nat) (fs : fileSystem) (k : jsstring) :
  (fs !! k = Some Dir -> snd (build fuel fs) !! k = Some Dir) /\
  (forall text, fs !! k = Some (File text) ->
                exists text2, snd (build fuel fs) !! k = Some (File text2)).
Proof.
  pose proof (grows_build fuel fs) as H. split.
  - exact (grows_dir _ _ _ H).
  - intros text. exact (grows_file _ _ _ _ H).
Qed.

(** X7. Without [index.html] a build throws, and it writes no page to the
    output directory; what the earlier stages wrote stays written. *)
Theorem build_without_index_html (fuel : nat) (fs : fileSystem) :
  fs !! js "index.html" = None ->
  exists e fs1,
    build fuel fs = (Throw e, fs1) /\
    fs1 = snd (buildAssets fuel fs) /\
    fs1 !! indexOut = fs !! indexOut.
Proof.
  intros Hmiss. rewrite build_buildAssets. unfold bind.
  pose proof (sameOff_buildAssets fuel fs) as Hoff.
  destruct (buildAssets fuel fs) as [[[]|e] s5] eqn:E5; cbn [snd] in Hoff.
  - assert (Hidx : s5 !! js "index.html" = None).
    { rewrite Hoff; [exact Hmiss|]. intros [Hw _].
      apply written_under_output in Hw. destruct Hw as [Hw|[r Hw]]; vm_compute in Hw;
        discriminate Hw. }
    unfold updateHTMLForProduction, bind, readFileSync. rewrite Hidx.
    eexists _, s5. split; [reflexivity|]. split; [reflexivity|].
    apply Hoff. intros [_ Hne]. apply Hne. reflexivity.
  - exists e, s5. split; [reflexivity|]. split; [reflexivity|].
    apply Hoff. intros [_ Hne]. apply Hne. reflexivity.
Qed.

Lemma build_without_index_html_witness :
  let fs : fileSystem := <[js "css/main.css" := File (js "a { b: c }")]> ∅ in
  fs !! js "index.html" = None /\
  exists e fs1,
    build 1 fs = (Throw e, fs1) /\
    fs1 = snd (buildAssets 1 fs) /\
    fs1 !! indexOut = fs !! indexOut.
Proof.
  intros fs.
  assert (H : fs !! js "index.html" = None) by (vm_compute; reflexivity).
  split; [exact H|]. exact (build_without_index_html 1 fs H).
Defined.

(** ** The two bundling stages *)

Lemma appendFile_dir (fs : fileSystem) (combined file : jsstring) :
  fs !! file = Some Dir -> appendFile combined file fs = (Throw (EISDIR file), fs).
Proof.
  intros H. unfold appendFile, bind, existsSync, readFileSync. rewrite !H. reflexivity.
Qed.

Lemma combineFiles_dir (fs : fileSystem) (l1 l2 : list jsstring) (file : jsstring) :
  Forall (fileOrMissing fs) l1 -> fs !! file = Some Dir ->
  combineFiles (l1 ++ file :: l2) fs = (Throw (EISDIR file), fs).
Proof.
  intros Hl1 Hdir. unfold combineFiles. rewrite foldM_app.
  rewrite (bind_run _ _ _ _ _ (foldM_appendFile fs l1 [] Hl1)).
  cbn [foldM]. unfold bind. rewrite appendFile_dir by exact Hdir. reflexivity.
Qed.

Lemma combineFiles_bundleOf (fs : fileSystem) (files : list jsstring) :
  Forall (fileOrMissing fs) files -> combineFiles files fs = (Ok (bundleOf fs files), fs).
Proof. intros H. unfold combineFiles. rewrite foldM_appendFile by exact H. reflexivity. Qed.

(** X8. A directory at a listed path is not skipped: [existsSync] holds for
    it, reading it throws EISDIR, and the stage ends there with nothing
    written. *)
Theorem minify_directory_entry
        (fs : fileSystem) (l1 l2 : list jsstring) (file : jsstring) :
  Forall (fileOrMissing fs) l1 -> fs !! file = Some Dir ->
  (cssFiles = l1 ++ file :: l2 -> minifyCSS fs = (Throw (EISDIR file), fs)) /\
  (jsFiles = l1 ++ file :: l2 -> minifyJavaScript fs = (Throw (EISDIR file), fs)).
Proof.
  intros Hl1 Hdir. split; intros Heq.
  - unfold minifyCSS, bind. rewrite Heq, combineFiles_dir by assumption. reflexivity.
  - unfold minifyJavaScript, bind. rewrite Heq, combineFiles_dir by assumption. reflexivity.
Qed.

Lemma minify_directory_entry_witness :
  let fs : fileSystem :=
    <[js "css/components.css" := Dir]>
      (<[js "js/font-loader.js" := Dir]>
         (<[js "css/main.css" := File (js "a{}")]> ∅)) in
  minifyCSS fs = (Throw (EISDIR (js "css/components.css")), fs) /\
  minifyJavaScript fs = (Throw (EISDIR (js "js/font-loader.js")), fs).
Proof.
  intros fs. split.
  - apply (minify_directory_entry fs [js "css/main.css"] (tl (tl cssFiles))
             (js "css/components.css")).
    + repeat constructor. vm_compute. discriminate.
    + vm_compute. reflexivity.
    + reflexivity.
  - apply (minify_directory_entry fs [] (tl jsFiles) (js "js/font-loader.js")).
    + constructor.
    + vm_compute. reflexivity.
    + reflexivity.
Defined.

(** X9. With every listed entry a regular file or missing, the directory of
    the artifact in place and no directory at the artifact's path, each of
    the two stages returns and has written, and only written, the minified
    bundle of the entries that exist. *)
Theorem minify_writes_bundle (fs : fileSystem) :
  (Forall (fileOrMissing fs) cssFiles ->
   fs !! pathJoin [outputDir; js "css"] = Some Dir -> fs !! stylesMin <> Some Dir ->
   minifyCSS fs
   = (Ok tt, <[stylesMin := File (minifyCSSContent (bundleOf fs cssFiles))]> fs)) /\
  (Forall (fileOrMissing fs) jsFiles ->
   fs !! pathJoin [outputDir; js "js"] = Some Dir -> fs !! scriptsMin <> Some Dir ->
   minifyJavaScript fs
   = (Ok tt, <[scriptsMin := File (minifyJSContent (bundleOf fs jsFiles))]> fs)).
Proof.
  split; intros Hall Hdir Hart.
  - unfold minifyCSS. rewrite (bind_run _ _ _ _ _ (combineFiles_bundleOf fs cssFiles Hall)).
    apply (writeFileSync_run stylesMin); [exact Hart|]. intros d [= <-]. exact Hdir.
  - unfold minifyJavaScript.
    rewrite (bind_run _ _ _ _ _ (combineFiles_bundleOf fs jsFiles Hall)).
    apply (writeFileSync_run scriptsMin); [exact Hart|]. intros d [= <-]. exact Hdir.
Qed.

Lemma minify_writes_bundle_witness :
  let fs : fileSystem :=
    <[js "dist/css" := Dir]> (<[js "dist/js" := Dir]> (<[js "dist" := Dir]>
      (<[js "css/main.css" := File (js "a { b: c; }")]>
         (<[js "js/main.js" := File (js "let a = 1;")]> ∅)))) in
  minifyCSS fs
  = (Ok tt, <[stylesMin := File (minifyCSSContent (bundleOf fs cssFiles))]> fs) /\
  minifyJavaScript fs
  = (Ok tt, <[scriptsMin := File (minifyJSContent (bundleOf fs jsFiles))]> fs).
Proof.
  intros fs. split.
  - apply (proj1 (minify_writes_bundle fs)).
    + repeat constructor; vm_compute; discriminate.
    + vm_compute. reflexivity.
    + vm_compute. discriminate.
  - apply (proj2 (minify_writes_bundle fs)).
    + repeat constructor; vm_compute; discriminate.
    + vm_compute. reflexivity.
    + vm_compute. discriminate.
Defined.

Lemma noFileOnPath_decide (fs : fileSystem) (p : jsstring) :
  fileOnPath fs p = false -> noFileOnPath fs p.
Proof.
  unfold fileOnPath. intros H a c Ha Hfile.
  apply not_true_iff_false in H. apply H, existsb_exists.
  exists a. rewrite Hfile. auto.
Qed.

Lemma missing_ENOENT (fs : fileSystem) (p q : jsstring) :
  noFileOnPath fs q -> missing fs p q = ENOENT p.
Proof.
  intros H. unfold missing, fileOnPath.
  destruct (existsb _ (ancestors q)) eqn:E; [exfalso|reflexivity].
  apply existsb_exists in E as (a & Ha & Hfile).
  destruct (fs !! a) as [[c|]|] eqn:Ea; try discriminate. exact (H a c Ha Ea).
Qed.

Lemma missing_ENOTDIR (fs : fileSystem) (p q a c : jsstring) :
  In a (ancestors q) -> fs !! a = Some (File c) -> missing fs p q = ENOTDIR p.
Proof.
  intros Ha Hfile. unfold missing, fileOnPath.
  replace (existsb _ (ancestors q)) with true; [reflexivity|].
  symmetry. apply existsb_exists. exists a. rewrite Hfile. auto.
Qed.

(** Below a regular file nothing can be read: the error is ENOTDIR. *)
Lemma readFileSync_below_file (fs : fileSystem) (p a c : jsstring) :
  fs !! p = None -> In a (ancestors p) -> fs !! a = Some (File c) ->
  readFileSync p fs = (Throw (ENOTDIR p), fs).
Proof.
  intros Hp Ha Hfile. unfold readFileSync.
  rewrite Hp, (missing_ENOTDIR fs p p a c Ha Hfile). reflexivity.
Qed.

(** X10. Called before the output directories exist, a bundling stage reads
    and minifies its files and then throws ENOENT on writing: the existence
    check of the stage covers its inputs, not the directory it writes to.
    No regular file stands where the output directory should be: that
    would be ENOTDIR. *)
Theorem minify_without_output_directory (fs : fileSystem) :
  (Forall (fileOrMissing fs) cssFiles ->
   fs !! pathJoin [outputDir; js "css"] = None -> fs !! stylesMin = None ->
   noFileOnPath fs (pathJoin [outputDir; js "css"]) ->
   minifyCSS fs = (Throw (ENOENT stylesMin), fs)) /\
  (Forall (fileOrMissing fs) jsFiles ->
   fs !! pathJoin [outputDir; js "js"] = None -> fs !! scriptsMin = None ->
   noFileOnPath fs (pathJoin [outputDir; js "js"]) ->
   minifyJavaScript fs = (Throw (ENOENT scriptsMin), fs)).
Proof.
  split; intros Hall Hdir Hart Hwalk.
  - unfold minifyCSS. rewrite (bind_run _ _ _ _ _ (combineFiles_bundleOf fs cssFiles Hall)).
    fold stylesMin. unfold writeFileSync.
    change (dirname stylesMin) with (Some (pathJoin [outputDir; js "css"])).
    rewrite Hart, Hdir, (missing_ENOENT _ _ _ Hwalk). reflexivity.
  - unfold minifyJavaScript.
    rewrite (bind_run _ _ _ _ _ (combineFiles_bundleOf fs jsFiles Hall)).
    fold scriptsMin. unfold writeFileSync.
    change (dirname scriptsMin) with (Some (pathJoin [outputDir; js "js"])).
    rewrite Hart, Hdir, (missing_ENOENT _ _ _ Hwalk). reflexivity.
Qed.

Lemma minify_without_output_directory_witness :
  let fs : fileSystem := <[js "css/main.css" := File (js "a { b: c; }")]> ∅ in
  minifyCSS fs = (Throw (ENOENT stylesMin), fs) /\
  minifyJavaScript fs = (Throw (ENOENT scriptsMin), fs).
Proof.
  intros fs. split.
  - apply (proj1 (minify_without_output_directory fs)).
    + repeat constructor; vm_compute; discriminate.
    + vm_compute. reflexivity.
    + vm_compute. reflexivity.
    + apply noFileOnPath_decide. vm_compute. reflexivity.
  - apply (proj2 (minify_without_output_directory fs)).
    + repeat constructor; vm_compute; discriminate.
    + vm_compute. reflexivity.
    + vm_compute. reflexivity.
    + apply noFileOnPath_decide. vm_compute. reflexivity.
Defined.

(** ** Copying a tree *)

Lemma noSlash_ancestors (j : jsstring) :
  existsb (N.eqb 47) j = false -> ancestors j = [j].
Proof.
  induction j as [|c j IH]; [reflexivity|].
  cbn [existsb ancestors]. intros H. apply orb_false_iff in H as [Hc Hj].
  rewrite N.eqb_sym, Hc, (IH Hj). reflexivity.
Qed.

Lemma ancestors_app_entry (d j : jsstring) :
  existsb (N.eqb 47) j = false ->
  ancestors (d ++ slash ++ j) = ancestors d ++ [d ++ slash ++ j].
Proof.
  intros Hj. induction d as [|c d IH].
  - cbn. rewrite (noSlash_ancestors j Hj). reflexivity.
  - cbn [app ancestors]. change ((c :: d) ++ slash ++ j) with (c :: (d ++ slash ++ j)).
    cbn [ancestors]. rewrite IH, map_app, app_assoc. reflexivity.
Qed.

Lemma ancestors_length (d k : jsstring) : In k (ancestors d) -> length k <= length d.
Proof.
  revert k; induction d as [|c d IH]; intros k.
  - cbn. intros [<-|[]]. reflexivity.
  - cbn [ancestors]. intros H. apply in_app_or in H as [H|H].
    + destruct (c =? 47)%N; [destruct H as [<-|[]]; cbn; lia|destruct H].
    + apply in_map_iff in H as (t & <- & Ht). cbn. apply IH in Ht. lia.
Qed.

Lemma entry_prefix (i j t1 t2 : jsstring) :
  existsb (N.eqb 47) i = false -> existsb (N.eqb 47) j = false ->
  (t1 = [] \/ exists r, t1 = slash ++ r) -> (t2 = [] \/ exists r, t2 = slash ++ r) ->
  i ++ t1 = j ++ t2 -> i = j.
Proof.
  revert j; induction i as [|a i IH]; intros [|b j] Hi Hj H1 H2 E.
  - reflexivity.
  - cbn in E. destruct H1 as [->|[r ->]]; [discriminate|].
    cbn in E. injection E as <- _. cbn in Hj. discriminate.
  - cbn in E. destruct H2 as [->|[r ->]]; [discriminate|].
    cbn in E. injection E as -> _. cbn in Hi. discriminate.
  - cbn in E. injection E as -> E. f_equal.
    cbn in Hi, Hj. apply orb_false_iff in Hi as [_ Hi]. apply orb_false_iff in Hj as [_ Hj].
    exact (IH j Hi Hj H1 H2 E).
Qed.

Lemma entryName_spec (i : jsstring) :
  entryName i = true <-> i <> [] /\ existsb (N.eqb 47) i = false.
Proof.
  unfold entryName. rewrite andb_true_iff, !negb_true_iff, bool_decide_eq_false.
  reflexivity.
Qed.

Lemma pathJoin_cons (p i : jsstring) (rest : list jsstring) :
  pathJoin (p :: i :: rest) = pathJoin ((p ++ slash ++ i) :: rest).
Proof. reflexivity. Qed.

Lemma pathJoin_tail (p : jsstring) (rest : list jsstring) :
  exists t, pathJoin (p :: rest) = p ++ t /\ (t = [] \/ exists r, t = slash ++ r).
Proof.
  revert p; induction rest as [|i rest IH]; intros p.
  - exists []. split; [cbn; rewrite app_nil_r; reflexivity|left; reflexivity].
  - destruct (IH (p ++ slash ++ i)) as (t & Ht & _).
    exists (slash ++ i ++ t). rewrite pathJoin_cons, Ht, <- !app_assoc.
    split; [reflexivity|right; eauto].
Qed.

(** Copying another entry leaves what was copied for the entry [i]. *)
Lemma target_untouched (dest i j tail : jsstring) :
  entryName i = true -> entryName j = true -> i <> j ->
  (tail = [] \/ exists r, tail = slash ++ r) ->
  ~ touches (dest ++ slash ++ j) (dest ++ slash ++ i ++ tail).
Proof.
  intros Hi Hj Hne Htail.
  apply entryName_spec in Hi as [_ Hi]. apply entryName_spec in Hj as [_ Hj].
  intros [[r E]|H].
  - rewrite <- !app_assoc in E. do 2 apply app_inv_head in E.
    apply Hne. eapply (entry_prefix i j tail (slash ++ r)); eauto.
  - rewrite (ancestors_app_entry dest j Hj) in H. apply in_app_or in H as [H|[E|[]]].
    + apply ancestors_length in H. rewrite !length_app in H. cbn in H. lia.
    + do 2 apply app_inv_head in E. apply Hne. symmetry.
      eapply (entry_prefix j i [] tail); eauto. rewrite app_nil_r. exact E.
Qed.

Lemma sameOff_copyItem_entry (fuel : nat) (src dest j : jsstring) :
  Keeps (sameOff (touches (dest ++ slash ++ j)))
        (copyItem (copyDirectory fuel) src dest j).
Proof.
  unfold copyItem. rewrite !pathJoin2.
  apply Keeps_bind; [apply sameOff_trans|apply Keeps_isDirectory, sameOff_refl|].
  intros d. apply Keeps_if; [apply sameOff_copyDirectory|].
  unfold copyFileSync.
  apply Keeps_bind; [apply sameOff_trans|apply Keeps_readFileSync, sameOff_refl|].
  intros c. eapply Keeps_mono; [|apply sameOff_writeFileSync].
  intros x y. apply sameOff_mono. intros k <-. right.
  destruct (ancestors_self (dest ++ slash ++ j)) as [l ->]. apply in_elt.
Qed.

Lemma childName_entry (p i : jsstring) :
  entryName i = true -> childName p (p ++ slash ++ i) = Some i.
Proof.
  intros Hi. apply entryName_spec in Hi as [Hne Hs].
  unfold childName. rewrite app_assoc, stripPrefix_app, Hs.
  rewrite bool_decide_eq_false_2 by exact Hne. reflexivity.
Qed.

Lemma childName_inv (p k i : jsstring) :
  childName p k = Some i -> k = p ++ slash ++ i /\ entryName i = true.
Proof.
  unfold childName. destruct (stripPrefix (p ++ slash) k) as [name|] eqn:E; [|discriminate].
  apply stripPrefix_Some in E.
  destruct (bool_decide (name = []) || existsb (N.eqb 47) name) eqn:B; [discriminate|].
  intros [= <-]. split; [rewrite E, <- app_assoc; reflexivity|].
  apply orb_false_iff in B as [B1 B2]. unfold entryName. rewrite B1, B2. reflexivity.
Qed.

(** [readdirSync] lists the entries of a directory, and only those. *)
Lemma readdirSync_spec (p : jsstring) (fs fs' : fileSystem) (items : list jsstring)
      (i : jsstring) :
  readdirSync p fs = (Ok items, fs') ->
  In i items <-> entryName i = true /\ is_Some (fs !! (p ++ slash ++ i)).
Proof.
  unfold readdirSync. destruct (fs !! p) as [[c|]|]; try discriminate.
  intros [= <- _]. rewrite <- list_elem_of_In, list_elem_of_omap. split.
  - intros (k & Hk & Hc). apply childName_inv in Hc as [-> Hi]. split; [exact Hi|].
    apply list_elem_of_fmap in Hk as ([k n] & Ek & Hkn). cbn in Ek. subst k.
    apply elem_of_map_to_list in Hkn. apply map_lookup_filter_Some in Hkn as [Hn _].
    eauto.
  - intros [Hi [n Hn]]. exists (p ++ slash ++ i). split; [|apply childName_entry, Hi].
    apply list_elem_of_fmap. exists (p ++ slash ++ i, n). split; [reflexivity|].
    apply elem_of_map_to_list, map_lookup_filter_Some. split; [exact Hn|].
    cbn [fst]. rewrite (childName_entry p i Hi). eauto.
Qed.

Lemma reaches_agree (s t : fileSystem) (p : jsstring) (segs : list jsstring)
      (text : jsstring) :
  (forall k, under p k -> t !! k = s !! k) -> reaches s p segs text -> reaches t p segs text.
Proof.
  revert p; induction segs as [|i rest IH]; intros p Hag; [exact (fun H => H)|].
  cbn [reaches]. rewrite !pathJoin2. intros [Hi H]. split; [exact Hi|].
  assert (Hu : under p (p ++ slash ++ i)) by (right; eauto).
  destruct rest as [|i2 rest].
  - rewrite (Hag _ Hu). exact H.
  - destruct H as [Hd H]. rewrite (Hag _ Hu). split; [exact Hd|].
    apply IH; [|exact H]. intros k Hk. apply Hag. eapply under_join, Hk.
Qed.

Lemma sameOff_source (src dest : jsstring) (s s' : fileSystem) :
  disjointTrees src dest -> sameOff (touches dest) s s' ->
  forall k, under src k -> s' !! k = s !! k.
Proof. intros Hdis Hoff k Hk. apply Hoff, Hdis, Hk. Qed.

Lemma sameOff_copyItems (fuel : nat) (src dest : jsstring) (l : list jsstring) :
  Keeps (sameOff (touches dest)) (forEach l (copyItem (copyDirectory fuel) src dest)).
Proof.
  apply Keeps_forEach; [apply sameOff_refl|apply sameOff_trans|].
  intros j. apply sameOff_copyItem. intros a b. apply sameOff_copyDirectory.
Qed.

Section CopyFiles.

Variable fuel : nat.
Hypothesis IH : forall src dest s s' segs text,
    disjointTrees src dest ->
    copyDirectory fuel src dest s = (Ok tt, s') ->
    reaches s src segs text ->
    s' !! pathJoin (dest :: segs) = Some (File text).

Lemma copyItem_copies (src dest i : jsstring) (rest : list jsstring) (text : jsstring)
      (s0 s1 s2 : fileSystem) :
  disjointTrees src dest ->
  (forall k, under src k -> s1 !! k = s0 !! k) ->
  reaches s0 src (i :: rest) text ->
  copyItem (copyDirectory fuel) src dest i s1 = (Ok tt, s2) ->
  s2 !! pathJoin (dest :: i :: rest) = Some (File text).
Proof.
  intros Hdis Hag Hreach Hrun.
  apply (reaches_agree s0 s1 src _ _ Hag) in Hreach.
  cbn [reaches] in Hreach. destruct Hreach as [Hi Hreach].
  unfold copyItem in Hrun. unfold isDirectory, bind at 1 in Hrun.
  destruct rest as [|i2 rest].
  - rewrite Hreach in Hrun. unfold copyFileSync, bind, readFileSync in Hrun.
    rewrite Hreach in Hrun. apply writeFileSync_Ok in Hrun as (-> & _).
    apply lookup_insert_eq.
  - destruct Hreach as [Hd Hreach]. rewrite Hd in Hrun.
    rewrite pathJoin_cons. rewrite !pathJoin2 in *.
    eapply IH; [apply disjointTrees_join, Hdis|exact Hrun|exact Hreach].
Qed.

Lemma copyItems_keep (src dest i : jsstring) (rest : list jsstring) (text : jsstring)
      (s0 : fileSystem) (l : list jsstring) (s1 s' : fileSystem) :
  disjointTrees src dest ->
  reaches s0 src (i :: rest) text ->
  (forall k, under src k -> s1 !! k = s0 !! k) ->
  Forall (fun j => entryName j = true) l ->
  s1 !! pathJoin (dest :: i :: rest) = Some (File text) ->
  forEach l (copyItem (copyDirectory fuel) src dest) s1 = (Ok tt, s') ->
  s' !! pathJoin (dest :: i :: rest) = Some (File text).
Proof.
  intros Hdis Hreach Hag Hl; revert s1 Hag; induction Hl as [|j l Hj Hl IHl];
    intros s1 Hag Htarget Hrun.
  - cbn in Hrun. injection Hrun as <-. exact Htarget.
  - cbn [forEach] in Hrun. apply bind_Ok in Hrun as ([] & s2 & Hstep & Hrun).
    assert (Hag2 : forall k, under src k -> s2 !! k = s0 !! k).
    { intros k Hk. rewrite <- (Hag k Hk). apply (sameOff_source src dest); [exact Hdis| |exact Hk].
      refine (Keeps_run _ _ _ _ _ _ Hstep). apply sameOff_copyItem.
      intros a b. apply sameOff_copyDirectory. }
    apply (IHl s2 Hag2); [|exact Hrun].
    destruct (decide (i = j)) as [<-|Hne].
    + exact (copyItem_copies src dest i rest text s0 s1 s2 Hdis Hag Hreach Hstep).
    + rewrite <- Htarget.
      refine (Keeps_run _ _ _ _ _ (sameOff_copyItem_entry fuel src dest j) Hstep _ _).
      destruct (pathJoin_tail (dest ++ slash ++ i) rest) as (t & Ht & Htail).
      rewrite pathJoin_cons, Ht, <- !app_assoc.
      apply target_untouched; [|exact Hj|exact Hne|exact Htail].
      cbn [reaches] in Hreach. exact (proj1 Hreach).
Qed.

End CopyFiles.

Lemma copyDirectory_reaches (fuel : nat) (src dest : jsstring) (s s' : fileSystem)
      (segs : list jsstring) (text : jsstring) :
  disjointTrees src dest ->
  copyDirectory fuel src dest s = (Ok tt, s') ->
  reaches s src segs text ->
  s' !! pathJoin (dest :: segs) = Some (File text).
Proof.
  revert src dest s s' segs text; induction fuel as [|fuel IH];
    intros src dest s s' segs text Hdis Hrun Hreach; [discriminate|].
  destruct segs as [|i rest]; [destruct Hreach|].
  cbn [copyDirectory] in Hrun.
  apply bind_Ok in Hrun as (e & s00 & He & Hrun). injection He as <- <-.
  apply bind_Ok in Hrun as ([] & s0 & Hmk & Hrun).
  apply bind_Ok in Hrun as (items & s0' & Hread & Hrun).
  pose proof (readdirSync_Ok _ _ _ _ Hread) as [-> _].
  assert (Hag0 : forall k, under src k -> s0 !! k = s !! k).
  { apply (sameOff_source src dest); [exact Hdis|].
    refine (Keeps_run _ _ _ _ _ _ Hmk).
    apply Keeps_if; [|apply Keeps_ret, sameOff_refl].
    eapply Keeps_mono; [|apply sameOff_mkdirSync].
    intros x y. apply sameOff_mono. intros k Hk. right; exact Hk. }
  assert (Hi : entryName i = true) by exact (proj1 Hreach).
  assert (Hin : In i items).
  { apply (readdirSync_spec _ _ _ _ i Hread). split; [exact Hi|].
    rewrite Hag0 by (right; eauto). cbn [reaches] in Hreach. rewrite pathJoin2 in Hreach.
    destruct Hreach as [_ Hreach]. destruct rest; [|destruct Hreach as [Hreach _]];
      rewrite Hreach; eauto. }
  assert (Hnames : Forall (fun j => entryName j = true) items).
  { apply List.Forall_forall. intros j Hj.
    exact (proj1 (proj1 (readdirSync_spec _ _ _ _ j Hread) Hj)). }
  apply in_split in Hin as (l1 & l2 & ->).
  rewrite forEach_app in Hrun. apply bind_Ok in Hrun as ([] & s1 & Hl1 & Hrun).
  cbn [forEach] in Hrun. apply bind_Ok in Hrun as ([] & s2 & Hstep & Hl2).
  assert (Hag1 : forall k, under src k -> s1 !! k = s !! k).
  { intros k Hk. rewrite <- (Hag0 k Hk).
    apply (sameOff_source src dest); [exact Hdis| |exact Hk].
    exact (Keeps_run _ _ _ _ _ (sameOff_copyItems fuel src dest l1) Hl1). }
  assert (Hag2 : forall k, under src k -> s2 !! k = s !! k).
  { intros k Hk. rewrite <- (Hag1 k Hk).
    apply (sameOff_source src dest); [exact Hdis| |exact Hk].
    refine (Keeps_run _ _ _ _ _ _ Hstep). apply sameOff_copyItem.
    intros a b. apply sameOff_copyDirectory. }
  apply List.Forall_app in Hnames as [_ Hnames]. apply List.Forall_cons_iff in Hnames as [_ Hnames].
  eapply (copyItems_keep fuel IH src dest i rest text s l2 s2); eauto.
  exact (copyItem_copies fuel IH src dest i rest text s s1 s2 Hdis Hag1 Hreach Hstep).
Qed.

(** X11. When [copyDirectory] has returned, every regular file of the
    source tree, at any depth, stands at the same relative path below the
    destination with the same text; the destination must not lie in the
    source tree, nor the source in the path of the destination. *)
Theorem copyDirectory_copies_files (fuel : nat) (src dest : jsstring)
        (fs fs' : fileSystem) (segs : list jsstring) (text : jsstring) :
  disjointTrees src dest ->
  copyDirectory fuel src dest fs = (Ok tt, fs') ->
  reaches fs src segs text ->
  fs' !! pathJoin (dest :: segs) = Some (File text).
Proof. apply copyDirectory_reaches. Qed.

Lemma copyDirectory_copies_files_witness :
  let fs' := snd (copyDirectory 2 (js "assets") (js "dist/assets") sampleTree) in
  disjointTrees (js "assets") (js "dist/assets") /\
  copyDirectory 2 (js "assets") (js "dist/assets") sampleTree = (Ok tt, fs') /\
  reaches sampleTree (js "assets") [js "img"; js "hero.jpg"] (js "JFIF") /\
  fs' !! pathJoin [js "dist/assets"; js "img"; js "hero.jpg"] = Some (File (js "JFIF")).
Proof.
  intros fs'.
  assert (H1 : disjointTrees (js "assets") (js "dist/assets"))
    by (apply (disjointTrees_head 97 100); discriminate).
  assert (H2 : copyDirectory 2 (js "assets") (js "dist/assets") sampleTree = (Ok tt, fs'))
    by (vm_compute; reflexivity).
  assert (H3 : reaches sampleTree (js "assets") [js "img"; js "hero.jpg"] (js "JFIF"))
    by (vm_compute; auto).
  split; [exact H1|]. split; [exact H2|]. split; [exact H3|].
  exact (copyDirectory_copies_files 2 _ _ sampleTree fs' _ _ H1 H2 H3).
Defined.

(** X12. Whether it returns or throws, [copyDirectory] changes nothing but
    the destination, the entries below it and the directories above it. *)
Theorem copyDirectory_writes_only_destination (fuel : nat) (src dest : jsstring)
        (fs : fileSystem) (k : jsstring) :
  (forall r, k <> dest ++ slash ++ r) -> ~ In k (ancestors dest) ->
  snd (copyDirectory fuel src dest fs) !! k = fs !! k.
Proof.
  intros Hbelow Habove. apply (sameOff_copyDirectory fuel src dest fs).
  intros [[r Hr]|H]; [exact (Hbelow r Hr)|exact (Habove H)].
Qed.

Lemma copyDirectory_writes_only_destination_witness :
  snd (copyDirectory 2 (js "assets") (js "dist/assets") sampleTree) !! js "assets/logo.svg"
  = sampleTree !! js "assets/logo.svg".
Proof.
  apply copyDirectory_writes_only_destination.
  - intros r H. vm_compute in H. discriminate H.
  - vm_compute. intuition discriminate.
Defined.

(** X13. [copyDirectory] makes the destination before it reads the source:
    with the source missing, and no regular file standing above it, it
    throws ENOENT for the source, and the destination directory that it
    made stays. *)
Theorem copyDirectory_missing_source (fuel : nat) (src dest : jsstring)
        (fs fs1 : fileSystem) :
  fs !! src = None -> noFileOnPath fs src ->
  fs !! dest = None -> ~ In src (ancestors dest) -> dest <> [] ->
  mkdirSync dest fs = (Ok tt, fs1) ->
  copyDirectory (S fuel) src dest fs = (Throw (ENOENT src), fs1) /\
  fs1 !! dest = Some Dir.
Proof.
  intros Hsrc Hwalk Hdest Hnot Hne Hmk. split; [|exact (mkdirSync_dir dest fs fs1 Hne Hmk)].
  assert (Hwalk1 : noFileOnPath fs1 src).
  { intros a c Ha Hfile. apply (Hwalk a c Ha).
    apply (addsDirs_file (fun _ => True) fs fs1 a c); [|exact Hfile].
    refine (Keeps_run _ _ _ _ _ (addsDirs_mkdirSync (fun _ => True) dest _) Hmk). auto. }
  cbn [copyDirectory]. unfold bind at 1, existsSync. rewrite Hdest. cbn [negb].
  rewrite (bind_run _ _ _ _ _ Hmk). unfold bind, readdirSync.
  rewrite (Keeps_run _ _ _ _ _ (sameOff_mkdirSync dest) Hmk src Hnot), Hsrc.
  rewrite (missing_ENOENT _ _ _ Hwalk1). reflexivity.
Qed.

Lemma copyDirectory_missing_source_witness :
  let fs1 : fileSystem := <[js "out" := Dir]> ∅ in
  copyDirectory 1 (js "assets") (js "out") ∅ = (Throw (ENOENT (js "assets")), fs1) /\
  fs1 !! js "out" = Some Dir.
Proof.
  intros fs1.
  apply (copyDirectory_missing_source 0 (js "assets") (js "out") ∅ fs1).
  - reflexivity.
  - apply noFileOnPath_decide. vm_compute. reflexivity.
  - reflexivity.
  - vm_compute. intuition discriminate.
  - discriminate.
  - vm_compute. reflexivity.
Defined.

(** X14. A regular file named [assets] passes the existence check of
    [copyAssets]; reading it as a directory then throws ENOTDIR. *)
Theorem copyAssets_assets_is_file (fuel : nat) (fs : fileSystem) (text : jsstring) :
  fs !! js "assets" = Some (File text) ->
  is_Some (fs !! pathJoin [outputDir; js "assets"]) ->
  copyAssets (S fuel) fs = (Throw (ENOTDIR (js "assets")), fs).
Proof.
  intros Hfile [n Hn]. unfold copyAssets. unfold bind at 1, existsSync at 1. rewrite Hfile.
  unfold bind at 1. cbn [copyDirectory]. unfold bind at 1, existsSync at 1. rewrite Hn.
  cbn [negb]. unfold bind at 1, ret. unfold bind at 1, readdirSync. rewrite Hfile.
  reflexivity.
Qed.

Lemma copyAssets_assets_is_file_witness :
  let fs : fileSystem := <[js "assets" := File (js "x")]> (<[js "dist/assets" := Dir]> ∅) in
  copyAssets 1 fs = (Throw (ENOTDIR (js "assets")), fs).
Proof.
  intros fs. apply (copyAssets_assets_is_file 0 fs (js "x")).
  - vm_compute. reflexivity.
  - vm_compute. eauto.
Defined.

(** *** When the copy returns *)

Lemma copiesInto_refl (dest : jsstring) (fs : fileSystem) : copiesInto dest fs fs.
Proof. intros k. right; left; reflexivity. Qed.

Lemma copiesInto_trans (dest : jsstring) (a b c : fileSystem) :
  copiesInto dest a b -> copiesInto dest b c -> copiesInto dest a c.
Proof.
  intros H1 H2 k. destruct (H1 k) as [H|[H|(Hin & Ha & Hb)]]; [left; exact H| |];
    destruct (H2 k) as [H'|[H'|(Hin' & Hb' & Hc')]]; try (left; assumption).
  - right; left. congruence.
  - right; right. rewrite <- H. auto.
  - right; right. rewrite H'. auto.
  - congruence.
Qed.

Lemma copiesInto_join (dest j : jsstring) (fs fs' : fileSystem) :
  copiesInto (dest ++ slash ++ j) fs fs' -> copiesInto dest fs fs'.
Proof.
  intros H k. destruct (H k) as [[r ->]|[Hk|(Hin & Hk)]].
  - left. exists (j ++ slash ++ r). rewrite <- !app_assoc. reflexivity.
  - right; left; exact Hk.
  - apply ancestors_join in Hin as [Hin|Hin]; [right; right; auto|left; exact Hin].
Qed.

Lemma copiesInto_mkdirSync (dest : jsstring) : Keeps (copiesInto dest) (mkdirSync dest).
Proof.
  intros fs k.
  destruct (addsDirs_mkdirSync (fun a => In a (ancestors dest)) dest (fun a H _ => H) fs)
    as [H1 H2].
  destruct (fs !! k) as [n|] eqn:E.
  - right; left. exact (H1 k n E).
  - destruct (H2 k E) as [H|[H Hin]]; [right; left; exact H|right; right; auto].
Qed.

Lemma copiesInto_write (dest j data : jsstring) :
  Keeps (copiesInto dest) (writeFileSync (dest ++ slash ++ j) data).
Proof.
  intros fs k. destruct (decide (dest ++ slash ++ j = k)) as [<-|Hne].
  - left. eauto.
  - right; left. exact (sameOff_writeFileSync _ data fs k Hne).
Qed.

Lemma copiesInto_copyItem (recur : jsstring -> jsstring -> M unit)
      (src dest item : jsstring) :
  (forall a b, Keeps (copiesInto b) (recur a b)) ->
  Keeps (copiesInto dest) (copyItem recur src dest item).
Proof.
  intros Hrec. unfold copyItem. rewrite !pathJoin2.
  apply Keeps_bind; [apply copiesInto_trans|apply Keeps_isDirectory, copiesInto_refl|].
  intros d. apply Keeps_if.
  - eapply Keeps_mono; [|apply Hrec]. intros x y. apply copiesInto_join.
  - unfold copyFileSync.
    apply Keeps_bind; [apply copiesInto_trans|apply Keeps_readFileSync, copiesInto_refl|].
    intros c. apply copiesInto_write.
Qed.

Lemma copiesInto_copyDirectory (fuel : nat) (src dest : jsstring) :
  Keeps (copiesInto dest) (copyDirectory fuel src dest).
Proof.
  revert src dest; induction fuel as [|fuel IH]; intros src dest;
    cbn [copyDirectory]; [apply Keeps_throw, copiesInto_refl|].
  apply Keeps_bind; [apply copiesInto_trans|apply Keeps_existsSync, copiesInto_refl|].
  intros e.
  apply Keeps_bind; [apply copiesInto_trans| |intros _].
  { apply Keeps_if; [apply copiesInto_mkdirSync|apply Keeps_ret, copiesInto_refl]. }
  apply Keeps_bind; [apply copiesInto_trans|apply Keeps_readdirSync, copiesInto_refl|].
  intros items. apply Keeps_forEach; [apply copiesInto_refl|apply copiesInto_trans|].
  intros item. apply copiesInto_copyItem. exact IH.
Qed.

Lemma below_not_ancestor (dest r : jsstring) : ~ In (dest ++ slash ++ r) (ancestors dest).
Proof.
  intros H. apply ancestors_length in H. rewrite !length_app in H. cbn in H. lia.
Qed.

Lemma ancestor_not_below (dest a : jsstring) :
  In a (ancestors dest) -> ~ exists r, a = dest ++ slash ++ r.
Proof. intros H [r ->]. exact (below_not_ancestor dest r H). Qed.

(** The directories above the destination stay directories or get made. *)
Lemma copiesInto_ancestors (dest : jsstring) (fs fs' : fileSystem) :
  copiesInto dest fs fs' ->
  (forall a c, In a (ancestors dest) -> fs !! a <> Some (File c)) ->
  (forall a c, In a (ancestors dest) -> fs' !! a <> Some (File c)).
Proof.
  intros H Hfs a c Ha. destruct (H a) as [Hb|[E|(_ & _ & E)]].
  - destruct (ancestor_not_below dest a Ha Hb).
  - rewrite E. apply Hfs, Ha.
  - rewrite E. discriminate.
Qed.

Lemma copiesInto_dir (dest : jsstring) (fs fs' : fileSystem) :
  copiesInto dest fs fs' -> fs !! dest = Some Dir -> fs' !! dest = Some Dir.
Proof.
  intros H Hd. destruct (ancestors_self dest) as [l Hl].
  assert (Ha : In dest (ancestors dest)) by (rewrite Hl; apply in_elt).
  destruct (H dest) as [Hb|[E|(_ & E & _)]].
  - destruct (ancestor_not_below dest dest Ha Hb).
  - rewrite E. exact Hd.
  - congruence.
Qed.

Lemma mkdirOnes_return (p : jsstring) (l : list jsstring) (s : fileSystem) :
  (forall a c, In a l -> s !! a <> Some (File c)) ->
  exists s', forEach l (mkdirOne p) s = (Ok tt, s').
Proof.
  revert s; induction l as [|a l IH]; intros s Hl; [eexists; reflexivity|].
  cbn [forEach].
  assert (H1 : exists s1, mkdirOne p a s = (Ok tt, s1) /\
                          forall b c, In b l -> s1 !! b <> Some (File c)).
  { unfold mkdirOne. destruct (s !! a) as [[c|]|] eqn:E.
    - destruct (Hl a c (or_introl eq_refl) E).
    - exists s. split; [reflexivity|]. intros b c Hb. apply Hl. right; exact Hb.
    - exists (<[a := Dir]> s). split; [reflexivity|]. intros b c Hb.
      destruct (decide (a = b)) as [<-|Hne].
      + rewrite lookup_insert_eq. discriminate.
      + rewrite lookup_insert_ne by exact Hne. apply Hl. right; exact Hb. }
  destruct H1 as (s1 & H1 & Hl1). rewrite (bind_run _ _ _ _ _ H1). apply IH, Hl1.
Qed.

Lemma mkdirSync_returns (p : jsstring) (s : fileSystem) :
  (forall a c, In a (ancestors p) -> s !! a <> Some (File c)) ->
  exists s', mkdirSync p s = (Ok tt, s').
Proof.
  intros H. apply mkdirOnes_return. intros a c Ha. apply List.filter_In in Ha as [Ha _].
  apply H, Ha.
Qed.

Lemma noSlash_dirname (i : jsstring) : existsb (N.eqb 47) i = false -> dirname i = None.
Proof.
  induction i as [|c i IH]; [reflexivity|]. cbn [existsb dirname]. intros H.
  apply orb_false_iff in H as [Hc Hi]. rewrite (IH Hi), N.eqb_sym, Hc. reflexivity.
Qed.

Lemma dirname_entry (d i : jsstring) :
  existsb (N.eqb 47) i = false -> dirname (d ++ slash ++ i) = Some d.
Proof.
  intros Hi. induction d as [|c d IH].
  - cbn. rewrite (noSlash_dirname i Hi). reflexivity.
  - change ((c :: d) ++ slash ++ i) with (c :: (d ++ slash ++ i)).
    cbn [dirname]. rewrite IH. reflexivity.
Qed.

Lemma NoDup_omap_inj {A B : Type} (f : A -> option B) (l : list A) :
  (forall x y z, f x = Some z -> f y = Some z -> x = y) ->
  List.NoDup l -> List.NoDup (omap f l).
Proof.
  intros Hinj H; induction H as [|x l Hx Hl IH]; [constructor|].
  change (omap f (x :: l))
    with (match f x with Some y => y :: omap f l | None => omap f l end).
  destruct (f x) as [z|] eqn:E; [|exact IH].
  constructor; [|exact IH]. intros Hz. apply Hx.
  apply list_elem_of_In, list_elem_of_omap in Hz as (y & Hy & Ey).
  rewrite (Hinj x y z E Ey). apply list_elem_of_In, Hy.
Qed.

Lemma readdirSync_NoDup (p : jsstring) (fs fs' : fileSystem) (items : list jsstring) :
  readdirSync p fs = (Ok items, fs') -> List.NoDup items.
Proof.
  unfold readdirSync. destruct (fs !! p) as [[c|]|]; try discriminate.
  intros [= <- _]. apply NoDup_omap_inj.
  - intros x y z Hx Hy. apply childName_inv in Hx as [-> _].
    apply childName_inv in Hy as [-> _]. reflexivity.
  - apply NoDup_ListNoDup, NoDup_fst_map_to_list.
Qed.

Section CopyReturns.

Variable fuel : nat.
Hypothesis IH : forall src dest s,
    disjointTrees src dest -> dest <> [] ->
    s !! src = Some Dir -> shallow s src fuel -> clearAt s dest ->
    exists s', copyDirectory fuel src dest s = (Ok tt, s').

Variables src dest : jsstring.
Variable s : fileSystem.
Hypothesis Hdis : disjointTrees src dest.
Hypothesis Hshallow : shallow s src (S fuel).

Lemma copyItem_returns (i : jsstring) (l : list jsstring) (sj : fileSystem) :
  entryName i = true -> is_Some (s !! (src ++ slash ++ i)) ->
  copying src dest s (i :: l) sj ->
  exists s', copyItem (copyDirectory fuel) src dest i sj = (Ok tt, s').
Proof.
  intros Hi [n Hn] (Hag & Hdest & Hanc & Hclear).
  pose proof (proj1 (entryName_spec i) Hi) as [Hne Hslash].
  assert (Hu : under src (src ++ slash ++ i)) by (right; eauto).
  assert (Hnone : sj !! (dest ++ slash ++ i) = None).
  { rewrite <- (app_nil_r i) at 1. apply Hclear; [left; reflexivity|left; reflexivity]. }
  unfold copyItem. rewrite !pathJoin2. unfold bind at 1, isDirectory.
  rewrite (Hag _ Hu), Hn. destruct n as [c|].
  - assert (Hf : sj !! (src ++ slash ++ i) = Some (File c))
      by (rewrite (Hag _ Hu); exact Hn).
    unfold copyFileSync. rewrite (bind_run _ _ _ _ _ (readFileSync_run _ _ _ Hf)).
    eexists. apply writeFileSync_run; [congruence|].
    rewrite (dirname_entry dest i Hslash). intros d [= <-]. exact Hdest.
  - apply IH.
    + apply disjointTrees_join, Hdis.
    + intros E. apply app_eq_nil in E as [_ E]. discriminate.
    + rewrite (Hag _ Hu). exact Hn.
    + intros k Hk Hd. pose proof (under_join _ _ _ Hk) as Hk'.
      rewrite (Hag _ Hk') in Hd. pose proof (Hshallow k Hk' Hd) as Hlen.
      rewrite !length_app. cbn [length slash js]. 
      destruct i as [|c0 i]; [destruct (Hne eq_refl)|]. cbn [length]. 
      change (length (js "/")) with 1. lia.
    + split.
      * intros r. rewrite <- !app_assoc. apply Hclear; [left; reflexivity|right; eauto].
      * intros a c Ha. rewrite (ancestors_app_entry dest i Hslash) in Ha.
        apply in_app_or in Ha as [Ha|[<-|[]]]; [apply Hanc, Ha|congruence].
Qed.

Lemma copying_step (i : jsstring) (l : list jsstring) (sj s1 : fileSystem) :
  entryName i = true -> Forall (fun j => entryName j = true) l -> ~ In i l ->
  copying src dest s (i :: l) sj ->
  copyItem (copyDirectory fuel) src dest i sj = (Ok tt, s1) ->
  copying src dest s l s1.
Proof.
  intros Hi Hl Hnot (Hag & Hdest & Hanc & Hclear) Hstep.
  assert (Hoff : sameOff (touches dest) sj s1).
  { refine (Keeps_run _ _ _ _ _ _ Hstep). apply sameOff_copyItem.
    intros a b. apply sameOff_copyDirectory. }
  assert (Hinto : copiesInto dest sj s1).
  { refine (Keeps_run _ _ _ _ _ _ Hstep). apply copiesInto_copyItem.
    intros a b. apply copiesInto_copyDirectory. }
  split; [|split; [|split]].
  - intros k Hk. rewrite <- (Hag k Hk). exact (sameOff_source src dest _ _ Hdis Hoff k Hk).
  - exact (copiesInto_dir dest _ _ Hinto Hdest).
  - exact (copiesInto_ancestors dest _ _ Hinto Hanc).
  - intros j tail Hj Htail. rewrite <- (Hclear j tail (or_intror Hj) Htail).
    refine (Keeps_run _ _ _ _ _ (sameOff_copyItem_entry fuel src dest i) Hstep _ _).
    apply target_untouched; [|exact Hi| |exact Htail].
    + rewrite List.Forall_forall in Hl. exact (Hl j Hj).
    + intros ->. exact (Hnot Hj).
Qed.

Lemma copyItems_return (l : list jsstring) (sj : fileSystem) :
  List.NoDup l ->
  Forall (fun i => entryName i = true /\ is_Some (s !! (src ++ slash ++ i))) l ->
  copying src dest s l sj ->
  exists s', forEach l (copyItem (copyDirectory fuel) src dest) sj = (Ok tt, s').
Proof.
  intros Hnd; revert sj; induction Hnd as [|i l Hnot Hnd IHl]; intros sj Hl Hinv;
    [eexists; reflexivity|].
  apply List.Forall_cons_iff in Hl as [[Hi Hsome] Hl].
  destruct (copyItem_returns i l sj Hi Hsome Hinv) as [s1 Hstep].
  cbn [forEach]. rewrite (bind_run _ _ _ _ _ Hstep). apply IHl; [exact Hl|].
  apply (copying_step i l sj s1); auto.
  revert Hl. apply List.Forall_impl. intros j [Hj _]. exact Hj.
Qed.

End CopyReturns.

Lemma copyDirectory_clear_returns (fuel : nat) (src dest : jsstring) (s : fileSystem) :
  disjointTrees src dest -> dest <> [] ->
  s !! src = Some Dir -> shallow s src fuel -> clearAt s dest ->
  exists s', copyDirectory fuel src dest s = (Ok tt, s').
Proof.
  revert src dest s; induction fuel as [|fuel IH];
    intros src dest s Hdis Hne Hsrc Hshallow [Hbelow Hanc].
  { specialize (Hshallow src (or_introl eq_refl) Hsrc). lia. }
  cbn [copyDirectory]. unfold bind at 1, existsSync.
  assert (H0 : exists s0,
             (if negb (match s !! dest with Some _ => true | None => false end)
              then mkdirSync dest else ret tt) s = (Ok tt, s0) /\
             s0 !! dest = Some Dir /\ copiesInto dest s s0 /\
             sameOff (fun k => In k (ancestors dest)) s s0).
  { destruct (s !! dest) as [[c|]|] eqn:E; cbn [negb].
    - destruct (ancestors_self dest) as [l Hl].
      destruct (Hanc dest c); [rewrite Hl; apply in_elt|exact E].
    - exists s. split; [reflexivity|]. split; [exact E|].
      split; [apply copiesInto_refl|apply sameOff_refl].
    - destruct (mkdirSync_returns dest s) as [s0 Hmk]; [exact Hanc|].
      exists s0. split; [exact Hmk|]. split; [exact (mkdirSync_dir dest s s0 Hne Hmk)|].
      split; [exact (Keeps_run _ _ _ _ _ (copiesInto_mkdirSync dest) Hmk)
             |exact (Keeps_run _ _ _ _ _ (sameOff_mkdirSync dest) Hmk)]. }
  destruct H0 as (s0 & Hmk & Hdest0 & Hinto & Hoff). rewrite (bind_run _ _ _ _ _ Hmk).
  assert (Hag0 : forall k, under src k -> s0 !! k = s !! k).
  { intros k Hk. apply Hoff. intros Ha. apply (Hdis k Hk). right; exact Ha. }
  destruct (readdirSync src s0) as [[items|e] s0'] eqn:Hread.
  2:{ unfold readdirSync in Hread. rewrite (Hag0 src (or_introl eq_refl)), Hsrc in Hread.
      discriminate. }
  pose proof (readdirSync_Ok _ _ _ _ Hread) as [-> _].
  rewrite (bind_run _ _ _ _ _ Hread).
  apply (copyItems_return fuel IH src dest s Hdis Hshallow).
  - exact (readdirSync_NoDup _ _ _ _ Hread).
  - apply List.Forall_forall. intros i Hi.
    apply (readdirSync_spec _ _ _ _ i Hread) in Hi as [Hi Hsome]. split; [exact Hi|].
    rewrite <- Hag0 by (right; eauto). exact Hsome.
  - split; [exact Hag0|]. split; [exact Hdest0|].
    split; [exact (copiesInto_ancestors dest _ _ Hinto Hanc)|].
    intros i tail _ _. rewrite Hoff; [|apply (below_not_ancestor dest (i ++ tail))].
    apply (Hbelow (i ++ tail)).
Qed.

Lemma depthBound_spec (fs : fileSystem) (k : jsstring) (n : node) :
  fs !! k = Some n -> length k < depthBound fs.
Proof.
  intros H. unfold depthBound. apply Nat.lt_succ_r.
  pose proof (proj1 (list_max_le (map (fun kv => length (fst kv)) (map_to_list fs)) _)
                    (Nat.le_refl _)) as Hall.
  rewrite List.Forall_forall in Hall. apply Hall.
  apply in_map_iff. exists (k, n). split; [reflexivity|].
  apply list_elem_of_In, elem_of_map_to_list, H.
Qed.

Lemma depthBound_shallow (fs : fileSystem) (src : jsstring) (fuel : nat) :
  depthBound fs <= fuel -> shallow fs src fuel.
Proof.
  intros Hb k _ Hk. pose proof (depthBound_spec fs k Dir Hk). lia.
Qed.

(** X15. On a source directory, with nothing yet below the destination and
    no regular file at the destination or above it, [copyDirectory]
    returns: the recursion ends within the depth of the file system. *)
Theorem copyDirectory_returns (fuel : nat) (src dest : jsstring) (fs : fileSystem) :
  disjointTrees src dest -> dest <> [] ->
  fs !! src = Some Dir -> clearAt fs dest -> depthBound fs <= fuel ->
  exists fs', copyDirectory fuel src dest fs = (Ok tt, fs').
Proof.
  intros Hdis Hne Hsrc Hclear Hfuel.
  apply copyDirectory_clear_returns; auto using depthBound_shallow.
Qed.

Lemma copyDirectory_returns_witness :
  disjointTrees (js "assets") (js "dist/assets") /\ js "dist/assets" <> [] /\
  sampleTree !! js "assets" = Some Dir /\ clearAt sampleTree (js "dist/assets") /\
  depthBound sampleTree <= 30 /\
  exists fs', copyDirectory 30 (js "assets") (js "dist/assets") sampleTree = (Ok tt, fs').
Proof.
  assert (H1 : disjointTrees (js "assets") (js "dist/assets"))
    by (apply (disjointTrees_head 97 100); discriminate).
  assert (H2 : js "dist/assets" <> []) by discriminate.
  assert (H3 : sampleTree !! js "assets" = Some Dir) by (vm_compute; reflexivity).
  assert (H4 : clearAt sampleTree (js "dist/assets")).
  { split.
    - intros r. unfold sampleTree.
      rewrite !lookup_insert_ne by (intros H; vm_compute in H; discriminate H).
      apply lookup_empty.
    - intros a c Ha. vm_compute in Ha. destruct Ha as [<-|[<-|[]]]; vm_compute; discriminate. }
  assert (H5 : depthBound sampleTree <= 30) by (vm_compute; lia).
  do 5 (split; [assumption|]).
  exact (copyDirectory_returns 30 _ _ sampleTree H1 H2 H3 H4 H5).
Defined.

(** ** A first build *)

(** A path that copying into a destination with a literal name leaves alone. *)
Ltac untouched :=
  let r := fresh "r" in let E := fresh "E" in let H := fresh "H" in
  intros [[r E]|H];
  [vm_compute in E; discriminate E
  |vm_compute in H; repeat (destruct H as [H|H]; [discriminate H|]); exact H].

Lemma copiesInto_notFile (dest : jsstring) (s s' : fileSystem) (k : jsstring) :
  copiesInto dest s s' -> (forall r, k <> dest ++ slash ++ r) ->
  (forall c, s !! k <> Some (File c)) -> forall c, s' !! k <> Some (File c).
Proof.
  intros H Hk Hs c. destruct (H k) as [[r Hr]|[E|(_ & _ & E)]].
  - destruct (Hk r Hr).
  - rewrite E. apply Hs.
  - rewrite E. discriminate.
Qed.

Lemma copyDirectory_if_returns (fuel : nat) (src dest : jsstring) (d : fileSystem) :
  disjointTrees src dest -> dest <> [] ->
  (forall c, d !! src <> Some (File c)) -> clearAt d dest -> shallow d src fuel ->
  exists d1,
    (let* e := existsSync src in
     if e then copyDirectory fuel src dest else ret tt) d = (Ok tt, d1) /\
    sameOff (touches dest) d d1 /\ copiesInto dest d d1 /\
    (d !! src = Some Dir ->
     forall segs text, reaches d src segs text ->
                       d1 !! pathJoin (dest :: segs) = Some (File text)).
Proof.
  intros Hdis Hne Hsrc Hclear Hshallow. unfold bind, existsSync.
  destruct (d !! src) as [[c|]|] eqn:E.
  - destruct (Hsrc c eq_refl).
  - destruct (copyDirectory_clear_returns fuel src dest d Hdis Hne E Hshallow Hclear)
      as [d1 Hrun].
    exists d1. split; [exact Hrun|].
    split; [exact (Keeps_run _ _ _ _ _ (sameOff_copyDirectory fuel src dest) Hrun)|].
    split; [exact (Keeps_run _ _ _ _ _ (copiesInto_copyDirectory fuel src dest) Hrun)|].
    intros _ segs text. exact (copyDirectory_reaches fuel src dest d d1 segs text Hdis Hrun).
  - exists d. split; [reflexivity|]. split; [apply sameOff_refl|].
    split; [apply copiesInto_refl|discriminate].
Qed.

Lemma copyAssets_unfold (fuel : nat) (d : fileSystem) :
  copyAssets fuel d =
  bind (let* e := existsSync (js "assets") in
        if e then copyDirectory fuel (js "assets") (js "dist/assets") else ret tt)
       (fun _ => let* e := existsSync (js "fonts") in
                 if e then copyDirectory fuel (js "fonts") (js "dist/fonts") else ret tt) d.
Proof. unfold copyAssets. rewrite bind_assoc. reflexivity. Qed.

Lemma copyAssets_clear_returns (fuel : nat) (d : fileSystem) :
  (forall c, d !! js "assets" <> Some (File c)) ->
  (forall c, d !! js "fonts" <> Some (File c)) ->
  clearAt d (js "dist/assets") -> clearAt d (js "dist/fonts") ->
  shallow d (js "assets") fuel -> shallow d (js "fonts") fuel ->
  exists e,
    copyAssets fuel d = (Ok tt, e) /\
    (d !! js "assets" = Some Dir ->
     forall segs text, reaches d (js "assets") segs text ->
                       e !! pathJoin (js "dist/assets" :: segs) = Some (File text)) /\
    (d !! js "fonts" = Some Dir ->
     forall segs text, reaches d (js "fonts") segs text ->
                       e !! pathJoin (js "dist/fonts" :: segs) = Some (File text)).
Proof.
  intros Ha Hf [Hca1 Hca2] [Hcf1 Hcf2] Hsa Hsf.
  destruct (copyDirectory_if_returns fuel (js "assets") (js "dist/assets") d)
    as (d1 & H1 & Hoff1 & Hinto1 & Hcopy1);
    [apply (disjointTrees_head 97 100); discriminate|discriminate|exact Ha
    |split; assumption|exact Hsa|].
  assert (Hag : forall k, under (js "fonts") k -> d1 !! k = d !! k).
  { intros k Hk. apply Hoff1.
    apply (disjointTrees_head 102 100 (js "onts") (js "ist/assets")); [discriminate..|exact Hk]. }
  destruct (copyDirectory_if_returns fuel (js "fonts") (js "dist/fonts") d1)
    as (e & H2 & Hoff2 & Hinto2 & Hcopy2).
  - apply (disjointTrees_head 102 100); discriminate.
  - discriminate.
  - intros c. rewrite Hag by (left; reflexivity). apply Hf.
  - split.
    + intros r. rewrite <- (Hcf1 r). apply Hoff1. untouched.
    + intros a c Hin. apply (copiesInto_notFile _ _ _ _ Hinto1); [|intros c'; apply Hcf2, Hin].
      intros r E. vm_compute in Hin. destruct Hin as [<-|[<-|[]]]; vm_compute in E;
        discriminate E.
  - intros k Hk Hd. rewrite (Hag k Hk) in Hd. exact (Hsf k Hk Hd).
  - exists e. rewrite copyAssets_unfold, (bind_run _ _ _ _ _ H1). split; [exact H2|]. split.
    + intros Hdir segs text Hr. rewrite <- (Hcopy1 Hdir segs text Hr). apply Hoff2.
      destruct (pathJoin_tail (js "dist/assets") segs) as (t & -> & _). untouched.
    + intros Hdir segs text Hr. apply Hcopy2.
      * rewrite Hag by (left; reflexivity). exact Hdir.
      * apply (reaches_agree d d1); [exact Hag|exact Hr].
Qed.

Lemma createOutputDirectory_fresh (fs : fileSystem) :
  (forall k, under outputDir k -> fs !! k = None) ->
  exists a, createOutputDirectory fs = (Ok tt, a) /\
            (forall p, In p (outputDir :: outputSubdirs) -> a !! p = Some Dir) /\
            (forall k, ~ In k (outputDir :: outputSubdirs) -> a !! k = fs !! k).
Proof.
  intros Hfresh.
  destruct (createOutputDirectory_dirs fs) as (a & Hrun & Hd & Hsub).
  { intros c. rewrite Hfresh by (left; reflexivity). discriminate. }
  exists a. split; [exact Hrun|]. split.
  - intros p [<-|Hp]; [exact Hd|]. rewrite List.Forall_forall in Hsub.
    destruct (Hsub p Hp) as [H|[c H]]; [exact H|].
    rewrite Hfresh in H; [discriminate|]. apply written_under_output. left. right. exact Hp.
  - exact (Keeps_run _ _ _ _ _ sameOff_createOutputDirectory Hrun).
Qed.

Lemma bundleOf_agree (s t : fileSystem) (files : list jsstring) :
  Forall (fun f => t !! f = s !! f) files -> bundleOf t files = bundleOf s files.
Proof.
  unfold bundleOf. intros H; induction H as [|f files Hf _ IH]; [reflexivity|].
  assert (Hp : present t f = present s f) by (unfold present; rewrite Hf; reflexivity).
  assert (Hs : sectionOf t f = sectionOf s f) by (unfold sectionOf; rewrite Hf; reflexivity).
  cbn [List.filter]. rewrite Hp. destruct (present s f); [|exact IH].
  cbn [map concat]. rewrite Hs, IH. reflexivity.
Qed.

Section FirstBuild.

Variable fuel : nat.
Variable fs : fileSystem.
Variable html : jsstring.
Hypothesis Hfresh : forall k, under outputDir k -> fs !! k = None.
Hypothesis Hcss : Forall (fileOrMissing fs) cssFiles.
Hypothesis Hjs : Forall (fileOrMissing fs) jsFiles.
Hypothesis Hhtml : fs !! js "index.html" = Some (File html).
Hypothesis Hassets : forall c, fs !! js "assets" <> Some (File c).
Hypothesis Hfonts : forall c, fs !! js "fonts" <> Some (File c).
Hypothesis Hfuel : depthBound fs <= fuel.

(** The first four stages on a site without an output directory. *)
Lemma firstBuild_texts :
  let css := minifyCSSContent (bundleOf fs cssFiles) in
  let d := <[criticalMin := File (join (emitted css))]>
             (<[scriptsMin := File (minifyJSContent (bundleOf fs jsFiles))]>
                (<[stylesMin := File css]> (snd (createOutputDirectory fs)))) in
  (let* _ := createOutputDirectory in
   let* _ := minifyCSS in
   let* _ := minifyJavaScript in
   extractCriticalCSS) fs = (Ok tt, d) /\
  (forall p, In p (outputDir :: outputSubdirs) -> d !! p = Some Dir) /\
  (forall k, ~ under outputDir k -> d !! k = fs !! k) /\
  (forall k, under outputDir k -> ~ In k (outputDir :: outputSubdirs) ->
             k <> stylesMin -> k <> scriptsMin -> k <> criticalMin -> d !! k = None).
Proof.
  intros css d.
  destruct (createOutputDirectory_fresh fs Hfresh) as (a & H1 & Hdirs & Hfa).
  assert (Ea : snd (createOutputDirectory fs) = a) by (rewrite H1; reflexivity).
  subst d. rewrite Ea. clear Ea.
  assert (Hsrc : forall k, ~ under outputDir k -> a !! k = fs !! k).
  { intros k Hk. apply Hfa. intros Hin. apply Hk, written_under_output. left; exact Hin. }
  assert (Hnone : forall k, under outputDir k -> ~ In k (outputDir :: outputSubdirs) ->
                            a !! k = None).
  { intros k Hk Hin. rewrite (Hfa k Hin). exact (Hfresh k Hk). }
  assert (Dcss : a !! js "dist/css" = Some Dir) by (apply Hdirs; right; left; reflexivity).
  assert (Djs : a !! js "dist/js" = Some Dir) by (apply Hdirs; do 2 right; left; reflexivity).
  assert (Hfiles : forall files,
             Forall (fun f => ~ under outputDir f) files ->
             Forall (fun f => a !! f = fs !! f) files).
  { intros files. apply List.Forall_impl. exact Hsrc. }
  (* the style sheet *)
  set (b := <[stylesMin := File css]> a).
  assert (Acss : Forall (fun f => a !! f = fs !! f) cssFiles).
  { apply Hfiles. repeat constructor; intros [E|[r E]]; vm_compute in E; discriminate E. }
  assert (H2 : minifyCSS a = (Ok tt, b)).
  { assert (Fa : Forall (fileOrMissing a) cssFiles).
    { revert Hcss. rewrite !List.Forall_forall in *. intros Hc f Hf.
      unfold fileOrMissing. rewrite (Acss f Hf). exact (Hc f Hf). }
    unfold minifyCSS. rewrite (bind_run _ _ _ _ _ (combineFiles_bundleOf a cssFiles Fa)).
    rewrite (bundleOf_agree fs a cssFiles Acss).
    apply (writeFileSync_run stylesMin); [|intros p [= <-]; exact Dcss].
    rewrite Hnone; [discriminate|right; exists (js "css/styles.min.css"); reflexivity|].
    apply not_In_decide. vm_compute. reflexivity. }
  (* the script *)
  set (c := <[scriptsMin := File (minifyJSContent (bundleOf fs jsFiles))]> b).
  assert (Ajs : Forall (fun f => b !! f = fs !! f) jsFiles).
  { assert (A : Forall (fun f => a !! f = fs !! f) jsFiles).
    { apply Hfiles. repeat constructor; intros [E|[r E]]; vm_compute in E; discriminate E. }
    assert (B : Forall (fun f => stylesMin <> f) jsFiles) by (repeat constructor; neq).
    rewrite !List.Forall_forall in *. intros f Hf. unfold b.
    rewrite lookup_insert_ne by exact (B f Hf). exact (A f Hf). }
  assert (H3 : minifyJavaScript b = (Ok tt, c)).
  { assert (Fb : Forall (fileOrMissing b) jsFiles).
    { revert Hjs. rewrite !List.Forall_forall in *. intros Hc f Hf.
      unfold fileOrMissing. rewrite (Ajs f Hf). exact (Hc f Hf). }
    unfold minifyJavaScript.
    rewrite (bind_run _ _ _ _ _ (combineFiles_bundleOf b jsFiles Fb)).
    rewrite (bundleOf_agree fs b jsFiles Ajs).
    apply (writeFileSync_run scriptsMin).
    - unfold b. rewrite lookup_insert_ne by neq.
      rewrite Hnone; [discriminate|right; exists (js "js/scripts.min.js"); reflexivity|].
      apply not_In_decide. vm_compute. reflexivity.
    - intros p [= <-]. unfold b. rewrite lookup_insert_ne by neq. exact Djs. }
  (* the critical CSS *)
  assert (H4 : extractCriticalCSS c
               = (Ok tt, <[criticalMin := File (join (emitted css))]> c)).
  { unfold extractCriticalCSS. fold stylesMin criticalMin.
    assert (Hread : c !! stylesMin = Some (File css)).
    { unfold c, b. rewrite lookup_insert_ne by neq. apply lookup_insert_eq. }
    rewrite (bind_run _ _ _ _ _ (readFileSync_run _ _ _ Hread)).
    unfold liftRes, bind at 1. rewrite criticalCSSOf_emitted.
    apply writeFileSync_run.
    - unfold c, b. rewrite !lookup_insert_ne by neq.
      rewrite Hnone; [discriminate|right; exists (js "css/critical.min.css"); reflexivity|].
      apply not_In_decide. vm_compute. reflexivity.
    - intros p [= <-]. unfold c, b. rewrite !lookup_insert_ne by neq. exact Dcss. }
  split; [|split; [|split]].
  - rewrite (bind_run _ _ _ _ _ H1), (bind_run _ _ _ _ _ H2), (bind_run _ _ _ _ _ H3).
    exact H4.
  - intros p Hp. unfold c, b.
    assert (Hne : forall k, In k artifacts -> k <> p).
    { intros k Hk ->. revert Hk. 
      destruct Hp as [<-|[<-|[<-|[<-|[<-|[]]]]]]; apply not_In_decide; vm_compute; reflexivity. }
    rewrite !lookup_insert_ne; [exact (Hdirs p Hp)|apply Hne..].
    + left; reflexivity.
    + right; left; reflexivity.
    + do 2 right; left; reflexivity.
  - intros k Hk. unfold c, b.
    rewrite !lookup_insert_ne; [exact (Hsrc k Hk)|intros <-; apply Hk..].
    + right; exists (js "css/styles.min.css"); reflexivity.
    + right; exists (js "js/scripts.min.js"); reflexivity.
    + right; exists (js "css/critical.min.css"); reflexivity.
  - intros k Hk Hin N2 N3 N4. unfold c, b.
    rewrite !lookup_insert_ne by congruence. exact (Hnone k Hk Hin).
Qed.

End FirstBuild.

(** X16. A first build. On a site with no output directory yet, with the
    listed style sheets and scripts regular files or missing, with
    [index.html] a regular file and neither [assets] nor [fonts] a regular
    file, the build returns once the fuel covers the depth of the file
    system. The four artifacts then hold the minified bundles, the critical
    CSS taken from the minified style sheet and the page rewritten with it,
    and every regular file below [assets] and [fonts] has its copy in the
    output. *)
Theorem build_first (fuel : nat) (fs : fileSystem) (html : jsstring) :
  (forall k, under outputDir k -> fs !! k = None) ->
  Forall (fileOrMissing fs) cssFiles -> Forall (fileOrMissing fs) jsFiles ->
  fs !! js "index.html" = Some (File html) ->
  (forall c, fs !! js "assets" <> Some (File c)) ->
  (forall c, fs !! js "fonts" <> Some (File c)) ->
  depthBound fs <= fuel ->
  let css := minifyCSSContent (bundleOf fs cssFiles) in
  exists fs',
    build fuel fs = (Ok tt, fs') /\
    fs' !! stylesMin = Some (File css) /\
    fs' !! scriptsMin = Some (File (minifyJSContent (bundleOf fs jsFiles))) /\
    fs' !! criticalMin = Some (File (join (emitted css))) /\
    fs' !! indexOut = Some (File (productionHTML (join (emitted css)) html)) /\
    (fs !! js "assets" = Some Dir ->
     forall segs text, reaches fs (js "assets") segs text ->
       fs' !! pathJoin (pathJoin [outputDir; js "assets"] :: segs) = Some (File text)) /\
    (fs !! js "fonts" = Some Dir ->
     forall segs text, reaches fs (js "fonts") segs text ->
       fs' !! pathJoin (pathJoin [outputDir; js "fonts"] :: segs) = Some (File text)).
Proof.
  intros Hfresh Hcss Hjs Hhtml Hassets Hfonts Hfuel css.
  pose proof (firstBuild_texts fs Hfresh Hcss Hjs) as H. cbv zeta in H. fold css in H.
  set (crit := join (emitted css)) in *.
  set (d := <[criticalMin := File crit]> _) in H.
  destruct H as (H14 & Hdirs & Hsrc & Hnone).
  assert (Hsa : forall k, under (js "assets") k -> d !! k = fs !! k).
  { intros k Hk. apply Hsrc. intros Hu.
    destruct Hk as [->|[r ->]]; destruct Hu as [E|[r' E]]; vm_compute in E; discriminate E. }
  assert (Hsf : forall k, under (js "fonts") k -> d !! k = fs !! k).
  { intros k Hk. apply Hsrc. intros Hu.
    destruct Hk as [->|[r ->]]; destruct Hu as [E|[r' E]]; vm_compute in E; discriminate E. }
  assert (Hbelow : forall sub r, In sub [js "assets"; js "fonts"] ->
                     d !! ((js "dist" ++ slash ++ sub) ++ slash ++ r) = None).
  { intros sub r Hsub. apply Hnone.
    - right. exists (sub ++ slash ++ r). rewrite <- !app_assoc. reflexivity.
    - intros Hin. destruct Hsub as [<-|[<-|[]]]; vm_compute in Hin;
        repeat (destruct Hin as [Hin|Hin]; [discriminate Hin|]); exact Hin.
    - intros E. destruct Hsub as [<-|[<-|[]]]; vm_compute in E; discriminate E.
    - intros E. destruct Hsub as [<-|[<-|[]]]; vm_compute in E; discriminate E.
    - intros E. destruct Hsub as [<-|[<-|[]]]; vm_compute in E; discriminate E. }
  destruct (copyAssets_clear_returns fuel d) as (e & H5 & Hca & Hcf).
  - intros c. rewrite Hsa by (left; reflexivity). apply Hassets.
  - intros c. rewrite Hsf by (left; reflexivity). apply Hfonts.
  - split.
    + intros r. apply (Hbelow (js "assets") r). left; reflexivity.
    + intros a c Ha. rewrite (Hdirs a); [discriminate|].
      vm_compute in Ha. destruct Ha as [<-|[<-|[]]]; [left|do 3 right; left]; reflexivity.
  - split.
    + intros r. apply (Hbelow (js "fonts") r). right; left; reflexivity.
    + intros a c Ha. rewrite (Hdirs a); [discriminate|].
      vm_compute in Ha. destruct Ha as [<-|[<-|[]]]; [left|do 4 right; left]; reflexivity.
  - intros k Hk Hd. rewrite (Hsa k Hk) in Hd.
    pose proof (depthBound_spec fs k Dir Hd). lia.
  - intros k Hk Hd. rewrite (Hsf k Hk) in Hd.
    pose proof (depthBound_spec fs k Dir Hd). lia.
  - pose proof (Keeps_run _ _ _ _ _ (sameOff_copyAssets fuel) H5) as Hoff5.
    pose proof (Keeps_run _ _ _ _ _ (grows_copyAssets fuel) H5) as G5.
    assert (Hart : forall k, In k artifacts -> e !! k = d !! k).
    { intros k Hk. apply Hoff5, artifact_not_copied, Hk. }
    assert (K4 : e !! criticalMin = Some (File crit)).
    { rewrite Hart by (do 2 right; left; reflexivity). apply lookup_insert_eq. }
    assert (K3 : e !! scriptsMin = Some (File (minifyJSContent (bundleOf fs jsFiles)))).
    { rewrite Hart by (right; left; reflexivity). unfold d.
      rewrite lookup_insert_ne by neq. apply lookup_insert_eq. }
    assert (K2 : e !! stylesMin = Some (File css)).
    { rewrite Hart by (left; reflexivity). unfold d.
      rewrite !lookup_insert_ne by neq. apply lookup_insert_eq. }
    assert (H6 : updateHTMLForProduction e
                 = (Ok tt, <[indexOut := File (productionHTML crit html)]> e)).
    { apply updateHTMLForProduction_run.
      - rewrite Hoff5 by (apply not_copied; vm_compute; reflexivity).
        rewrite Hsrc; [exact Hhtml|].
        intros [E|[r E]]; vm_compute in E; discriminate E.
      - exact K4.
      - rewrite Hart by (do 3 right; left; reflexivity).
        rewrite Hnone; [discriminate|right; exists (js "index.html"); reflexivity| |neq..].
        apply not_In_decide. vm_compute. reflexivity.
      - apply (grows_dir _ _ _ G5), Hdirs. left; reflexivity. }
    exists (<[indexOut := File (productionHTML crit html)]> e).
    split; [|split; [|split; [|split; [|split; [|split]]]]].
    + apply bind_Ok in H14 as ([] & a & H1 & H14).
      apply bind_Ok in H14 as ([] & b & H2 & H14).
      apply bind_Ok in H14 as ([] & c & H3 & H4).
      unfold build.
      rewrite (bind_run _ _ _ _ _ H1), (bind_run _ _ _ _ _ H2), (bind_run _ _ _ _ _ H3),
        (bind_run _ _ _ _ _ H4), (bind_run _ _ _ _ _ H5). exact H6.
    + rewrite lookup_insert_ne by neq. exact K2.
    + rewrite lookup_insert_ne by neq. exact K3.
    + rewrite lookup_insert_ne by neq. exact K4.
    + apply lookup_insert_eq.
    + intros Hdir segs text Hr.
      destruct (pathJoin_tail (pathJoin [outputDir; js "assets"]) segs) as (t & Et & _).
      rewrite lookup_insert_ne by (rewrite Et; intros E; vm_compute in E; discriminate E).
      apply Hca; [rewrite Hsa by (left; reflexivity); exact Hdir|].
      apply (reaches_agree fs d); [exact Hsa|exact Hr].
    + intros Hdir segs text Hr.
      destruct (pathJoin_tail (pathJoin [outputDir; js "fonts"]) segs) as (t & Et & _).
      rewrite lookup_insert_ne by (rewrite Et; intros E; vm_compute in E; discriminate E).
      apply Hcf; [rewrite Hsf by (left; reflexivity); exact Hdir|].
      apply (reaches_agree fs d); [exact Hsf|exact Hr].
Qed.

Lemma build_first_witness :
  let css := minifyCSSContent (bundleOf smallSite cssFiles) in
  exists fs',
    build 30 smallSite = (Ok tt, fs') /\
    fs' !! stylesMin = Some (File css) /\
    fs' !! scriptsMin = Some (File (minifyJSContent (bundleOf smallSite jsFiles))) /\
    fs' !! criticalMin = Some (File (join (emitted css))) /\
    fs' !! indexOut
    = Some (File (productionHTML (join (emitted css)) (render sampleDoc))) /\
    (smallSite !! js "assets" = Some Dir ->
     forall segs text, reaches smallSite (js "assets") segs text ->
       fs' !! pathJoin (pathJoin [outputDir; js "assets"] :: segs) = Some (File text)) /\
    (smallSite !! js "fonts" = Some Dir ->
     forall segs text, reaches smallSite (js "fonts") segs text ->
       fs' !! pathJoin (pathJoin [outputDir; js "fonts"] :: segs) = Some (File text)).
Proof.
  apply (build_first 30 smallSite (render sampleDoc)).
  - intros k Hk. unfold smallSite.
    rewrite !lookup_insert_ne
      by (intros E; destruct Hk as [->|[r ->]]; vm_compute in E; discriminate E).
    apply lookup_empty.
  - repeat constructor; vm_compute; discriminate.
  - repeat constructor; vm_compute; discriminate.
  - vm_compute. reflexivity.
  - intros c. vm_compute. discriminate.
  - intros c. vm_compute. discriminate.
  - vm_compute. lia.
Defined.

(** ** Replacing the matches of a pattern by a template *)

Section LocalTemplate.

(** A template whose expansion depends on the match and its captures
    only: it refers neither to the text before nor to the text after. *)
Variable tmpl : jsstring.
Variable g : jsstring -> list (option jsstring) -> jsstring.
Hypothesis Hlocal : forall pre m post caps, expand tmpl pre m post caps = g m caps.

Lemma localStep (whole out : jsstring) (n : nat) (res : result) :
  replaceStep tmpl whole (out, n) res =
  if n <=? index res
  then (out ++ take (index res - n) (drop n whole) ++ g (matched res) (captures res),
        index res + length (matched res))
  else (out, n).
Proof.
  unfold replaceStep. destruct (n <=? index res); [|reflexivity].
  rewrite Hlocal. reflexivity.
Qed.

Lemma local_fold_sync (s : jsstring) (k : nat) (L : list result)
      (o1 o2 : jsstring) (n : nat) :
  exists d n',
    fold_left (replaceStep tmpl s) (map (shift k) L) (o1, k + n) = (o1 ++ d, k + n') /\
    fold_left (replaceStep tmpl (drop k s)) L (o2, n) = (o2 ++ d, n').
Proof.
  revert o1 o2 n; induction L as [|res L IH]; intros o1 o2 n.
  - exists [], n. cbn. rewrite !app_nil_r. auto.
  - cbn [map fold_left]. rewrite !localStep. cbn [shift index matched captures].
    destruct (Nat.leb_spec n (index res)) as [Hle|Hgt].
    + rewrite (proj2 (Nat.leb_le (k + n) (k + index res))) by lia.
      replace (k + index res - (k + n)) with (index res - n) by lia.
      rewrite drop_drop.
      set (piece := take (index res - n) (drop (k + n) s)
                         ++ g (matched res) (captures res)).
      destruct (IH (o1 ++ piece) (o2 ++ piece) (index res + length (matched res)))
        as (d & n' & H1 & H2).
      exists (piece ++ d), n'.
      rewrite Nat.add_assoc in H1. rewrite H1, H2, !app_assoc. auto.
    + rewrite (proj2 (Nat.leb_gt (k + n) (k + index res))) by lia.
      apply IH.
Qed.

Lemma local_fold_shift (s : jsstring) (k : nat) (L : list result)
      (out : jsstring) (n : nat) :
  n <= k -> k <= length s ->
  finish s (fold_left (replaceStep tmpl s) (map (shift k) L) (out, n)) =
  out ++ take (k - n) (drop n s)
      ++ finish (drop k s) (fold_left (replaceStep tmpl (drop k s)) L ([], 0)).
Proof.
  intros Hn Hk. destruct L as [|res L].
  - unfold finish. cbn [map fold_left fst snd app]. rewrite drop_0. f_equal.
    rewrite <- (take_drop (k - n) (drop n s)) at 1. rewrite drop_drop.
    replace (n + (k - n)) with k by lia. reflexivity.
  - cbn [map fold_left]. rewrite !localStep. cbn [shift index matched captures].
    rewrite (proj2 (Nat.leb_le n (k + index res))) by lia.
    cbn [Nat.leb app]. rewrite Nat.sub_0_r, drop_0.
    destruct (local_fold_sync s k L
                (out ++ take (k + index res - n) (drop n s)
                     ++ g (matched res) (captures res))
                (take (index res) (drop k s) ++ g (matched res) (captures res))
                (index res + length (matched res))) as (d & n' & H1 & H2).
    rewrite Nat.add_assoc in H1. rewrite H1, H2. unfold finish. cbn [fst snd].
    rewrite drop_drop, <- !app_assoc. f_equal.
    replace (k + index res - n) with ((k - n) + index res) by lia.
    rewrite <- take_take_drop, drop_drop, <- app_assoc.
    replace (n + (k - n)) with k by lia. reflexivity.
Qed.

(** [replace(re, tmpl)], one match at a time. *)
Lemma localRegex_unfold (r : regex) (s : jsstring) :
  replaceRegex r tmpl s =
  match exec r 0 s with
  | None => s
  | Some res =>
      take (index res) s ++ g (matched res) (captures res) ++
      match matched res with
      | [] =>
          match drop (index res) s with
          | [] => []
          | c :: s' => c :: replaceRegex r tmpl s'
          end
      | _ :: _ => replaceRegex r tmpl (drop (index res + length (matched res)) s)
      end
  end.
Proof.
  rewrite replaceRegex_finish. unfold execAll. cbn [execLoop]. rewrite drop_0.
  destruct (exec r 0 s) as [res|] eqn:E; [|reflexivity].
  apply exec_bounds in E as [_ Hhi]. cbn [Nat.add] in Hhi.
  cbn [fold_left]. rewrite localStep. cbn [Nat.leb].
  rewrite Nat.sub_0_r, drop_0. cbn [app].
  destruct (matched res) as [|m0 m] eqn:Em.
  - cbn [length Nat.eqb] in *. rewrite Nat.add_0_r in *.
    destruct (Nat.leb_spec (S (index res)) (length s)) as [Hle|Hgt].
    + rewrite execLoop_drop by lia. rewrite local_fold_shift by lia.
      replace (S (index res) - index res) with 1 by lia.
      rewrite <- replaceRegex_finish.
      destruct (drop (index res) s) as [|c s'] eqn:Ed.
      { apply (f_equal length) in Ed. rewrite length_drop in Ed. cbn in Ed. lia. }
      replace (drop (S (index res)) s) with s'.
      2:{ replace (S (index res)) with (index res + 1) by lia.
          rewrite <- drop_drop, Ed. reflexivity. }
      cbn [take app]. rewrite <- !app_assoc. reflexivity.
    + cbn [fold_left]. unfold finish. cbn [fst snd].
      rewrite (drop_ge s (index res)) by lia. rewrite <- app_assoc. reflexivity.
  - cbn [length Nat.eqb] in *.
    rewrite (proj2 (Nat.leb_le _ _)) by lia.
    rewrite execLoop_drop by lia. rewrite local_fold_shift by lia.
    rewrite <- replaceRegex_finish. rewrite Nat.sub_diag. cbn [take app].
    rewrite <- !app_assoc. reflexivity.
Qed.

(** Text in which no match starts is copied. *)
Lemma localRegex_skip (r : regex) (t rest : jsstring) :
  noMatchIn r t rest ->
  replaceRegex r tmpl (t ++ rest) = t ++ replaceRegex r tmpl rest.
Proof.
  intros H. rewrite (localRegex_unfold r (t ++ rest)), (localRegex_unfold r rest).
  rewrite exec_skip by assumption. cbn [Nat.add].
  rewrite <- (Nat.add_0_r (length t)), exec_shift.
  destruct (exec r 0 rest) as [res|]; [|reflexivity].
  cbn [option_map shift index matched captures].
  rewrite take_app_add, <- app_assoc. f_equal. f_equal. f_equal.
  rewrite <- Nat.add_assoc, !drop_app_add. reflexivity.
Qed.

Lemma localRegex_cons (r : regex) (c : char) (t : jsstring) :
  run r (c :: t) None = [] ->
  replaceRegex r tmpl (c :: t) = c :: replaceRegex r tmpl t.
Proof.
  intros H. apply (localRegex_skip r [c] t). intros j Hj.
  cbn in Hj. replace j with 0 by lia. exact H.
Qed.

(** A non-empty match at the start is replaced. *)
Lemma localRegex_hit (r : regex) (m rest : jsstring) (cap : option jsstring)
      (tl : list mstate) :
  m <> [] ->
  run r (m ++ rest) None = (rest, cap) :: tl ->
  replaceRegex r tmpl (m ++ rest) = g m (mkCaptures r cap) ++ replaceRegex r tmpl rest.
Proof.
  intros Hm Hrun. rewrite (localRegex_unfold r (m ++ rest)).
  rewrite (exec_hit _ _ _ _ _ Hrun). cbn [index matched captures fst snd].
  rewrite length_app, Nat.add_sub, take_app_length. cbn [take app Nat.add].
  destruct m as [|m0 m]; [congruence|].
  rewrite drop_app_length. reflexivity.
Qed.

Lemma localRegex_nil (r : regex) :
  run r [] None = [] -> replaceRegex r tmpl [] = [].
Proof.
  intros H. rewrite localRegex_unfold. cbn [exec]. rewrite H. reflexivity.
Qed.

End LocalTemplate.

(** ** The passes of the minifiers *)

Lemma trimStart_split (s : jsstring) :
  exists w, s = w ++ trimStart s /\ Forall (fun c => isSpace c = true) w.
Proof.
  induction s as [|c s (w & Hw & Hall)]; [exists []; split; [reflexivity|constructor]|].
  cbn [trimStart]. destruct (isSpace c) eqn:E.
  - exists (c :: w). split; [cbn; f_equal; exact Hw|constructor; assumption].
  - exists []. split; [reflexivity|constructor].
Qed.

Lemma trimStart_start (s : jsstring) : startsWithSpace (trimStart s) = false.
Proof.
  induction s as [|c s IH]; [reflexivity|]. cbn [trimStart].
  destruct (isSpace c) eqn:E; [exact IH|exact E].
Qed.

Lemma trimStart_id (s : jsstring) : startsWithSpace s = false -> trimStart s = s.
Proof. destruct s as [|c s]; [reflexivity|]. cbn. intros ->. reflexivity. Qed.

Lemma trimStart_length (s : jsstring) : length (trimStart s) <= length s.
Proof.
  destruct (trimStart_split s) as (w & Hw & _). rewrite Hw at 2.
  rewrite length_app. lia.
Qed.

(** The states of [\s*]: the rest behind all the white space first, then
    rests that start with white space. *)
Lemma run_Star_space (s : jsstring) (cap : option jsstring) :
  exists tl,
    run (Star true space) s cap = (trimStart s, cap) :: tl /\
    Forall (fun st => startsWithSpace (fst st) = true) tl.
Proof.
  induction s as [|c s (tl & Htl & Hall)].
  - exists []. split; [reflexivity|constructor].
  - unfold space in *. rewrite run_Star_Cls_cons. cbv zeta. cbn [trimStart].
    replace (xorb false (existsb (citem_match c) [CSpace])) with (isSpace c)
      by (cbn; rewrite orb_false_r; reflexivity).
    destruct (isSpace c) eqn:E.
    + rewrite Htl. exists (tl ++ [(c :: s, cap)]). split; [reflexivity|].
      apply Forall_app. split; [exact Hall|]. constructor; [exact E|constructor].
    + exists []. split; [reflexivity|constructor].
Qed.

Lemma run_space (c : char) (t : jsstring) (cap : option jsstring) :
  run space (c :: t) cap = if isSpace c then [(t, cap)] else [].
Proof. cbn. rewrite orb_false_r. reflexivity. Qed.

(** *** [/\s+/g] *)

Lemma run_reSpaces_cons (c : char) (t : jsstring) :
  run reSpaces (c :: t) None =
  if isSpace c then run (Star true space) t None else [].
Proof.
  unfold reSpaces, Plus. rewrite run_Seq, run_space.
  destruct (isSpace c); [cbn [flat_map fst snd]; apply app_nil_r|reflexivity].
Qed.

Lemma plain_space (pre m post : jsstring) (caps : list (option jsstring)) :
  expand (js " ") pre m post caps = js " ".
Proof. reflexivity. Qed.

Lemma spaces_nil : replaceRegex reSpaces (js " ") [] = [].
Proof. reflexivity. Qed.

Lemma spaces_cons (c : char) (t : jsstring) :
  replaceRegex reSpaces (js " ") (c :: t) =
  if isSpace c then 32%N :: replaceRegex reSpaces (js " ") (trimStart t)
  else c :: replaceRegex reSpaces (js " ") t.
Proof.
  destruct (isSpace c) eqn:E.
  - destruct (trimStart_split t) as (w & Hw & _).
    destruct (run_Star_space t None) as (tl & Htl & _).
    rewrite Hw at 1. change (c :: w ++ trimStart t) with ((c :: w) ++ trimStart t).
    rewrite (localRegex_hit (js " ") (fun _ _ => js " ") plain_space reSpaces
               (c :: w) (trimStart t) None tl); [reflexivity|discriminate|].
    cbn [app]. rewrite <- Hw, run_reSpaces_cons, E. exact Htl.
  - apply (localRegex_cons (js " ") (fun _ _ => js " ") plain_space).
    rewrite run_reSpaces_cons, E. reflexivity.
Qed.

Lemma singleSpaces_weaken (a : bool) (s : jsstring) :
  singleSpaces a s = true -> singleSpaces false s = true.
Proof.
  destruct s as [|c s]; [reflexivity|]. cbn [singleSpaces].
  destruct (isSpace c); [|exact (fun H => H)].
  rewrite !andb_true_iff. intros [[H1 _] H2]. auto.
Qed.

Lemma singleSpaces_start (s : jsstring) :
  singleSpaces true s = true -> startsWithSpace s = false.
Proof.
  destruct s as [|c s]; [reflexivity|]. cbn.
  destruct (isSpace c); [|reflexivity]. rewrite andb_false_r. discriminate.
Qed.

(** After the pass every run of white space is one U+0020. *)
Lemma spaces_single (n : nat) (s : jsstring) :
  length s <= n ->
  singleSpaces false (replaceRegex reSpaces (js " ") s) = true /\
  (startsWithSpace s = false ->
   singleSpaces true (replaceRegex reSpaces (js " ") s) = true).
Proof.
  revert s; induction n as [|n IH]; intros s Hlen.
  - destruct s; [|cbn in Hlen; lia]. rewrite spaces_nil. auto.
  - destruct s as [|c t]; [rewrite spaces_nil; auto|].
    cbn [length] in Hlen. rewrite spaces_cons. cbn [startsWithSpace].
    destruct (isSpace c) eqn:E.
    + split; [|discriminate]. cbn [singleSpaces].
      change (isSpace 32) with true. cbn [N.eqb Pos.eqb negb andb].
      apply IH; [pose proof (trimStart_length t); lia|apply trimStart_start].
    + cbn [singleSpaces]. rewrite E.
      split; [|intros _]; apply IH; lia.
Qed.

(** *** [/\s*([P])\s*/g] *)

Lemma existsb_CChar (P : jsstring) (x : char) :
  existsb (citem_match x) (map CChar P) = inClass P x.
Proof.
  unfold inClass. induction P as [|p P IH]; [reflexivity|].
  cbn [map existsb citem_match]. rewrite IH. reflexivity.
Qed.

Lemma run_Group_oneOf (P : jsstring) (s : jsstring) (cap : option jsstring) :
  run (Group (oneOf P)) s cap =
  match s with
  | p :: rest => if inClass P p then [(rest, Some [p])] else []
  | [] => []
  end.
Proof.
  destruct s as [|p rest]; [reflexivity|].
  unfold oneOf. cbn [run]. rewrite existsb_CChar. cbn [xorb].
  destruct (inClass P p); [|reflexivity].
  cbn [map fst length]. replace (S (length rest) - length rest) with 1 by lia.
  reflexivity.
Qed.

Lemma flat_map_none {A B : Type} (f : A -> list B) (l : list A) :
  Forall (fun x => f x = []) l -> flat_map f l = [].
Proof.
  intros H; induction H as [|x l Hx _ IH]; [reflexivity|].
  cbn [flat_map]. rewrite Hx, IH. reflexivity.
Qed.

Section Punctuation.

Variable P : jsstring.
Hypothesis P_noSpace : forall c, inClass P c = true -> isSpace c = false.

Lemma run_punct_tail (s : jsstring) (cap : option jsstring) :
  run (Seq (Group (oneOf P)) (Star true space)) s cap =
  match s with
  | p :: rest => if inClass P p then run (Star true space) rest (Some [p]) else []
  | [] => []
  end.
Proof.
  rewrite run_Seq, run_Group_oneOf. destruct s as [|p rest]; [reflexivity|].
  destruct (inClass P p); [cbn [flat_map fst snd]; apply app_nil_r|reflexivity].
Qed.

Lemma run_rePunct (s : jsstring) :
  exists tl,
    run (rePunct P) s None =
    match trimStart s with
    | p :: rest => if inClass P p then (trimStart rest, Some [p]) :: tl else []
    | [] => []
    end.
Proof.
  unfold rePunct. rewrite run_Seq.
  destruct (run_Star_space s None) as (tl & -> & Hall). cbn [flat_map fst snd].
  rewrite (flat_map_none _ tl), app_nil_r.
  - rewrite run_punct_tail. destruct (trimStart s) as [|p rest]; [exists []; reflexivity|].
    destruct (inClass P p); [|exists []; reflexivity].
    destruct (run_Star_space rest (Some [p])) as (tl' & -> & _). eauto.
  - revert Hall. apply List.Forall_impl. intros [u c]. cbn [fst snd].
    rewrite run_punct_tail. destruct u as [|x y]; [reflexivity|]. cbn [startsWithSpace].
    intros Hx. destruct (inClass P x) eqn:E; [|reflexivity].
    rewrite (P_noSpace x E) in Hx. discriminate.
Qed.

Lemma local_dollar1 (pre m post : jsstring) (caps : list (option jsstring)) :
  expand (js "$1") pre m post caps = expand (js "$1") [] m [] caps.
Proof. reflexivity. Qed.

Lemma punct_hit (s : jsstring) (p : char) (rest : jsstring) :
  trimStart s = p :: rest -> inClass P p = true ->
  punctPass P s = p :: punctPass P (trimStart rest).
Proof.
  intros Hs Hp. unfold punctPass.
  destruct (trimStart_split s) as (w & Hw & _). rewrite Hs in Hw.
  destruct (trimStart_split rest) as (w2 & Hw2 & _).
  destruct (run_rePunct s) as [tl Hrun]. rewrite Hs, Hp in Hrun.
  assert (Es : s = (w ++ p :: w2) ++ trimStart rest).
  { rewrite <- app_assoc. cbn [app]. rewrite <- Hw2. exact Hw. }
  rewrite Es at 1.
  rewrite (localRegex_hit (js "$1") (fun m caps => expand (js "$1") [] m [] caps)
             local_dollar1 (rePunct P) (w ++ p :: w2) (trimStart rest) (Some [p]) tl).
  - reflexivity.
  - destruct w; discriminate.
  - rewrite <- Es. exact Hrun.
Qed.

Lemma punct_miss (c : char) (t : jsstring) :
  (forall p rest, trimStart (c :: t) = p :: rest -> inClass P p = false) ->
  punctPass P (c :: t) = c :: punctPass P t.
Proof.
  intros H. unfold punctPass.
  apply (localRegex_cons (js "$1") (fun m caps => expand (js "$1") [] m [] caps)
           local_dollar1).
  destruct (run_rePunct (c :: t)) as [tl ->].
  destruct (trimStart (c :: t)) as [|p rest] eqn:E; [reflexivity|].
  rewrite (H p rest eq_refl). reflexivity.
Qed.

Lemma punct_nil : punctPass P [] = [].
Proof.
  unfold punctPass.
  apply (localRegex_nil (js "$1") (fun m caps => expand (js "$1") [] m [] caps)
           local_dollar1).
  destruct (run_rePunct []) as [tl ->]. reflexivity.
Qed.

Lemma singleSpaces_suffix (a : bool) (x y : jsstring) :
  singleSpaces a (x ++ y) = true -> singleSpaces false y = true.
Proof.
  revert a; induction x as [|c x IH]; intros a; [apply singleSpaces_weaken|].
  cbn [app singleSpaces]. destruct (isSpace c); [|apply IH].
  rewrite !andb_true_iff. intros [_ H]. exact (IH true H).
Qed.

(** On text with single spaces the pass leaves no space next to a
    character of [P]. *)
Lemma punct_tidy (n : nat) (s : jsstring) (a b : bool) :
  length s <= n ->
  singleSpaces a s = true ->
  (b = true -> startsWithSpace s = false) ->
  (a = true -> forall p rest, s = p :: rest -> inClass P p = false) ->
  tidy P a b (punctPass P s) = true.
Proof.
  revert s a b; induction n as [|n IH]; intros s a b Hlen Hs Hb Ha.
  { destruct s; [|cbn in Hlen; lia]. rewrite punct_nil. reflexivity. }
  destruct s as [|c t]; [rewrite punct_nil; reflexivity|]. cbn [length] in Hlen.
  destruct (trimStart (c :: t)) as [|p rest] eqn:Et.
  - (* white space to the end *)
    rewrite punct_miss by (intros p rest; rewrite Et; discriminate).
    cbn [trimStart] in Et. destruct (isSpace c) eqn:E; [|discriminate].
    cbn [singleSpaces] in Hs. rewrite E in Hs.
    apply andb_true_iff in Hs as [Hs Ht]. apply andb_true_iff in Hs as [Hc Hna].
    destruct a; [discriminate|].
    destruct b; [specialize (Hb eq_refl); cbn in Hb; congruence|].
    cbn [tidy]. rewrite E, Hc. cbn [negb andb].
    apply IH; [lia|exact Ht|discriminate|].
    intros _ p rest ->. rewrite trimStart_id in Et by exact (singleSpaces_start _ Ht).
    discriminate.
  - destruct (inClass P p) eqn:Ep.
    + (* a character of [P], maybe behind white space *)
      rewrite (punct_hit (c :: t) p rest Et Ep).
      assert (a = false) as ->.
      { destruct a; [|reflexivity].
        rewrite trimStart_id in Et by exact (singleSpaces_start _ Hs).
        injection Et as -> ->. rewrite (Ha eq_refl p rest eq_refl) in Ep. discriminate. }
      cbn [tidy]. rewrite (P_noSpace p Ep), Ep. cbn [negb andb].
      destruct (trimStart_split (c :: t)) as (w & Hw & _). rewrite Et in Hw.
      destruct (trimStart_split rest) as (w2 & Hw2 & _).
      apply IH.
      * apply (f_equal (@length N)) in Hw. rewrite length_app in Hw. cbn [length] in Hw.
        pose proof (trimStart_length rest). lia.
      * apply (singleSpaces_suffix false (w ++ p :: w2)).
        rewrite <- app_assoc. cbn [app]. rewrite <- Hw2, <- Hw. exact Hs.
      * intros _. apply trimStart_start.
      * discriminate.
    + (* no match here *)
      assert (Hmiss : forall p' rest', trimStart (c :: t) = p' :: rest' ->
                                       inClass P p' = false).
      { intros p' rest'. rewrite Et. intros [= <- <-]. exact Ep. }
      rewrite (punct_miss c t Hmiss). cbn [trimStart] in Et.
      cbn [singleSpaces] in Hs. cbn [tidy]. destruct (isSpace c) eqn:E.
      * apply andb_true_iff in Hs as [Hs Ht]. apply andb_true_iff in Hs as [Hc Hna].
        destruct a; [discriminate|].
        destruct b; [specialize (Hb eq_refl); cbn in Hb; congruence|].
        rewrite Hc. cbn [negb andb].
        apply IH; [lia|exact Ht|discriminate|].
        intros _ p' rest' ->.
        rewrite trimStart_id in Et by exact (singleSpaces_start _ Ht).
        injection Et as -> ->. exact Ep.
      * injection Et as -> ->. rewrite Ep.
        apply IH; [lia|exact Hs|discriminate|discriminate].
Qed.

Lemma tidy_weaken (a b : bool) (s : jsstring) :
  tidy P a b s = true -> tidy P false false s = true.
Proof.
  destruct s as [|c s]; [reflexivity|]. cbn [tidy].
  destruct (isSpace c); [|destruct (inClass P c)].
  - rewrite !andb_true_iff. intros [[[H1 _] _] H2]. auto.
  - rewrite !andb_true_iff. intros [_ H]. auto.
  - exact (fun H => H).
Qed.

Lemma tidy_prefix (a b : bool) (x y : jsstring) :
  tidy P a b (x ++ y) = true -> tidy P a b x = true.
Proof.
  revert a b; induction x as [|c x IH]; intros a b; [reflexivity|].
  cbn [app tidy]. destruct (isSpace c); [|destruct (inClass P c)].
  - rewrite !andb_true_iff. intros [H1 H2]. split; [exact H1|exact (IH _ _ H2)].
  - rewrite !andb_true_iff. intros [H1 H2]. split; [exact H1|exact (IH _ _ H2)].
  - apply IH.
Qed.

Lemma tidy_suffix (a b : bool) (x y : jsstring) :
  tidy P a b (x ++ y) = true -> tidy P false false y = true.
Proof.
  revert a b; induction x as [|c x IH]; intros a b; [apply tidy_weaken|].
  cbn [app tidy]. destruct (isSpace c); [|destruct (inClass P c)].
  - rewrite !andb_true_iff. intros [_ H]. exact (IH _ _ H).
  - rewrite !andb_true_iff. intros [_ H]. exact (IH _ _ H).
  - apply IH.
Qed.

(** What [tidy] says of two neighbours, and of each white space. *)
Lemma tidy_neighbours (a b : bool) (s pre : jsstring) (x y : char) (post : jsstring) :
  tidy P a b s = true -> s = pre ++ x :: y :: post ->
  (isSpace x = true -> isSpace y = false /\ inClass P y = false) /\
  (isSpace y = true -> isSpace x = false /\ inClass P x = false).
Proof.
  intros Ht ->. apply tidy_suffix in Ht. cbn [tidy] in Ht.
  destruct (isSpace x) eqn:Ex; [|destruct (inClass P x) eqn:Px].
  - apply andb_true_iff in Ht as [_ Ht]. destruct (isSpace y) eqn:Ey.
    + rewrite !andb_true_iff in Ht. destruct Ht as [[[_ H] _] _]. discriminate.
    + destruct (inClass P y) eqn:Py; [cbn in Ht; discriminate|].
      split; [auto|discriminate].
  - cbn [negb andb] in Ht. destruct (isSpace y) eqn:Ey.
    + rewrite !andb_true_iff in Ht. destruct Ht as [[_ H] _]. discriminate.
    + split; discriminate.
  - split; [discriminate|auto].
Qed.

Lemma tidy_space (a b : bool) (s : jsstring) (c : char) :
  tidy P a b s = true -> In c s -> isSpace c = true -> c = 32%N.
Proof.
  revert a b; induction s as [|x s IH]; intros a b Ht Hin Hc; [destruct Hin|].
  destruct Hin as [<-|Hin].
  - cbn [tidy] in Ht. rewrite Hc in Ht. rewrite !andb_true_iff in Ht.
    destruct Ht as [[[H _] _] _]. apply N.eqb_eq, H.
  - cbn [tidy] in Ht. destruct (isSpace x); [|destruct (inClass P x)].
    + apply andb_true_iff in Ht as [_ Ht]. exact (IH _ _ Ht Hin Hc).
    + apply andb_true_iff in Ht as [_ Ht]. exact (IH _ _ Ht Hin Hc).
    + exact (IH _ _ Ht Hin Hc).
Qed.

End Punctuation.

(** *** [/;}/g] *)

Lemma plain_brace (pre m post : jsstring) (caps : list (option jsstring)) :
  expand (js "}") pre m post caps = js "}".
Proof. reflexivity. Qed.

Lemma semi_hit (rest : jsstring) :
  replaceRegex reSemiBrace (js "}") (59%N :: 125%N :: rest) =
  125%N :: replaceRegex reSemiBrace (js "}") rest.
Proof.
  apply (localRegex_hit (js "}") (fun _ _ => js "}") plain_brace reSemiBrace
           (js ";}") rest None []).
  - discriminate.
  - unfold reSemiBrace. rewrite run_Lit.
    change (js ";}" ++ rest) with (59%N :: 125%N :: rest). cbn [stripPrefix].
    norm_lit. cbn. reflexivity.
Qed.

Lemma semi_miss (c : char) (t : jsstring) :
  stripPrefix (js ";}") (c :: t) = None ->
  replaceRegex reSemiBrace (js "}") (c :: t) = c :: replaceRegex reSemiBrace (js "}") t.
Proof.
  intros H. apply (localRegex_cons (js "}") (fun _ _ => js "}") plain_brace).
  unfold reSemiBrace. rewrite run_Lit, H. reflexivity.
Qed.

Lemma semi_nil : replaceRegex reSemiBrace (js "}") [] = [].
Proof. reflexivity. Qed.

Lemma semi_tidy (n : nat) (s : jsstring) (a b : bool) :
  length s <= n -> tidy cssPunct a b s = true ->
  tidy cssPunct a b (replaceRegex reSemiBrace (js "}") s) = true.
Proof.
  revert s a b; induction n as [|n IH]; intros s a b Hlen Ht.
  { destruct s; [|cbn in Hlen; lia]. rewrite semi_nil. reflexivity. }
  destruct s as [|c t]; [rewrite semi_nil; reflexivity|]. cbn [length] in Hlen.
  destruct (stripPrefix (js ";}") (c :: t)) as [rest|] eqn:E.
  - apply stripPrefix_Some in E. change (js ";}" ++ rest) with (59%N :: 125%N :: rest) in E.
    injection E as -> ->. rewrite semi_hit.
    change (tidy cssPunct a b (59%N :: 125%N :: rest))
      with (negb a && (negb false && tidy cssPunct false true rest)) in Ht.
    change (tidy cssPunct a b (125%N :: replaceRegex reSemiBrace (js "}") rest))
      with (negb a && tidy cssPunct false true (replaceRegex reSemiBrace (js "}") rest)).
    apply andb_true_iff in Ht as [Ha Ht]. rewrite Ha. cbn [andb negb] in *.
    apply IH; [cbn [length] in Hlen; lia|exact Ht].
  - rewrite (semi_miss c t E). cbn [tidy] in *.
    destruct (isSpace c); [|destruct (inClass cssPunct c)].
    + apply andb_true_iff in Ht as [H1 H2]. rewrite H1. apply IH; [lia|exact H2].
    + apply andb_true_iff in Ht as [H1 H2]. rewrite H1. apply IH; [lia|exact H2].
    + apply IH; [lia|exact Ht].
Qed.

(** *** [trim] *)

Lemma trimEnd_split (s : jsstring) :
  exists w, s = trimEnd s ++ w /\ Forall (fun c => isSpace c = true) w.
Proof.
  unfold trimEnd. destruct (trimStart_split (rev s)) as (w & Hw & Hall).
  exists (rev w). split.
  - rewrite <- rev_app_distr, <- Hw, rev_involutive. reflexivity.
  - apply List.Forall_rev, Hall.
Qed.

Lemma trim_end (s : jsstring) : startsWithSpace (rev (trim s)) = false.
Proof. unfold trim, trimEnd. rewrite rev_involutive. apply trimStart_start. Qed.

Lemma trim_start (s : jsstring) : startsWithSpace (trim s) = false.
Proof.
  unfold trim. destruct (trimEnd_split (trimStart s)) as (w & Hw & _).
  pose proof (trimStart_start s) as H. rewrite Hw in H.
  destruct (trimEnd (trimStart s)); [reflexivity|exact H].
Qed.

Lemma trim_middle (s : jsstring) : exists w1 w2, s = w1 ++ trim s ++ w2.
Proof.
  destruct (trimStart_split s) as (w1 & H1 & _).
  destruct (trimEnd_split (trimStart s)) as (w2 & H2 & _).
  exists w1, w2. unfold trim. rewrite <- H2. exact H1.
Qed.

Lemma tidy_trim (P : jsstring) (a b : bool) (s : jsstring) :
  tidy P a b s = true -> tidy P false false (trim s) = true.
Proof.
  intros H. destruct (trim_middle s) as (w1 & w2 & E). rewrite E in H.
  apply tidy_suffix in H. exact (tidy_prefix P _ _ _ _ H).
Qed.

(** The spacing of a text: what the theorems on the minifiers state. *)
Lemma tidy_spacing (P : jsstring) (out : jsstring) :
  (forall c, inClass P c = true -> isSpace c = false) ->
  tidy P false false out = true ->
  startsWithSpace out = false -> startsWithSpace (rev out) = false ->
  (forall c, In c out -> isSpace c = true -> c = 32%N) /\
  (forall pre x y post, out = pre ++ x :: y :: post ->
     (isSpace x = true -> isSpace y = false /\ ~ In y P) /\
     (isSpace y = true -> isSpace x = false /\ ~ In x P)) /\
  (forall c rest, out = c :: rest -> isSpace c = false) /\
  (forall pre c, out = pre ++ [c] -> isSpace c = false).
Proof.
  intros HP Ht Hs He.
  assert (Hin : forall c, inClass P c = false -> ~ In c P).
  { intros c Hc Hin. apply not_true_iff_false in Hc. apply Hc.
    apply existsb_exists. exists c. split; [exact Hin|apply N.eqb_refl]. }
  split; [|split; [|split]].
  - intros c. exact (tidy_space P _ _ out c Ht).
  - intros pre x y post E.
    destruct (tidy_neighbours P _ _ out pre x y post Ht E) as [H1 H2].
    split; intros H; [destruct (H1 H)|destruct (H2 H)]; auto.
  - intros c rest ->. exact Hs.
  - intros pre c ->. rewrite rev_app_distr in He. exact He.
Qed.

Lemma cssPunct_noSpace (c : char) : inClass cssPunct c = true -> isSpace c = false.
Proof.
  unfold inClass. intros H. apply existsb_exists in H as (p & Hp & E).
  apply N.eqb_eq in E. subst p. vm_compute in Hp.
  repeat (destruct Hp as [<-|Hp]; [reflexivity|]). destruct Hp.
Qed.

Lemma jsPunct_noSpace (c : char) : inClass jsPunct c = true -> isSpace c = false.
Proof.
  unfold inClass. intros H. apply existsb_exists in H as (p & Hp & E).
  apply N.eqb_eq in E. subst p. vm_compute in Hp.
  repeat (destruct Hp as [<-|Hp]; [reflexivity|]). destruct Hp.
Qed.

(** X17. In the output of [minifyCSSContent] every white-space character
    is a single U+0020 that stands between two characters that are neither
    white space nor one of [{ } : ; , > + ~]; the output neither starts nor
    ends with white space. *)
Theorem minifyCSSContent_spacing (css : jsstring) :
  let out := minifyCSSContent css in
  (forall c, In c out -> isSpace c = true -> c = 32%N) /\
  (forall pre x y post, out = pre ++ x :: y :: post ->
     (isSpace x = true -> isSpace y = false /\ ~ In y (js "{}:;,>+~")) /\
     (isSpace y = true -> isSpace x = false /\ ~ In x (js "{}:;,>+~"))) /\
  (forall c rest, out = c :: rest -> isSpace c = false) /\
  (forall pre c, out = pre ++ [c] -> isSpace c = false).
Proof.
  intros out. apply (tidy_spacing cssPunct out cssPunct_noSpace);
    [|apply trim_start|apply trim_end].
  unfold out, minifyCSSContent.
  set (s1 := replaceRegex reBlockComment [] css).
  set (s2 := replaceRegex reSpaces (js " ") s1).
  apply (tidy_trim cssPunct false false).
  apply (semi_tidy (length (replaceRegex reCSSPunct (js "$1") s2))); [reflexivity|].
  apply (punct_tidy cssPunct cssPunct_noSpace (length s2) s2 false false);
    [reflexivity| |discriminate|discriminate].
  apply (spaces_single (length s1) s1). reflexivity.
Qed.

(** X18. In the output of [minifyJSContent] every white-space character is
    a single U+0020 that stands between two characters that are neither
    white space nor one of [{ } ( ) ; , = + - * / < > ! & |]; the output
    neither starts nor ends with white space. Line breaks are white space:
    the output is one line. *)
Theorem minifyJSContent_spacing (src : jsstring) :
  let out := minifyJSContent src in
  (forall c, In c out -> isSpace c = true -> c = 32%N) /\
  (forall pre x y post, out = pre ++ x :: y :: post ->
     (isSpace x = true -> isSpace y = false /\ ~ In y (js "{}();,=+-*/<>!&|")) /\
     (isSpace y = true -> isSpace x = false /\ ~ In x (js "{}();,=+-*/<>!&|"))) /\
  (forall c rest, out = c :: rest -> isSpace c = false) /\
  (forall pre c, out = pre ++ [c] -> isSpace c = false).
Proof.
  intros out. apply (tidy_spacing jsPunct out jsPunct_noSpace);
    [|apply trim_start|apply trim_end].
  unfold out, minifyJSContent.
  set (s1 := replaceRegex reBlockComment [] (stripLineComments src)).
  set (s2 := replaceRegex reSpaces (js " ") s1).
  apply (tidy_trim jsPunct false false).
  apply (punct_tidy jsPunct jsPunct_noSpace (length s2) s2 false false);
    [reflexivity| |discriminate|discriminate].
  apply (spaces_single (length s1) s1). reflexivity.
Qed.

(** ** The comment passes *)

Lemma minifyCSSContent_passes (css : jsstring) :
  minifyCSSContent css =
  trim (replaceRegex reSemiBrace (js "}")
          (punctPass cssPunct
             (replaceRegex reSpaces (js " ") (stripBlockComments css)))).
Proof. reflexivity. Qed.

Lemma minifyJSContent_passes (src : jsstring) :
  minifyJSContent src =
  trim (punctPass jsPunct
          (replaceRegex reSpaces (js " ")
             (stripBlockComments (stripLineComments src)))).
Proof. reflexivity. Qed.

Lemma run_Star_lazy_any (x : char) (u : jsstring) (cap : option jsstring) :
  run (Star false anyChar) (x :: u) cap = (x :: u, cap) :: run (Star false anyChar) u cap.
Proof.
  unfold anyChar. rewrite run_Star_Cls_cons. cbv zeta.
  replace (xorb false (existsb (citem_match x) [CSpace; CNotSpace])) with true;
    [reflexivity|].
  cbn. destruct (isSpace x); reflexivity.
Qed.

(** A lazy [[\s\S]*?] before a literal stops at the first place where the
    literal stands. *)
Lemma run_lazy_until (L u : jsstring) (cap : option jsstring) :
  exists tl,
    run (Seq (Star false anyChar) (Lit L)) u cap =
    match splitAt L u with
    | Some (_, post) => (post, cap) :: tl
    | None => []
    end.
Proof.
  rewrite run_Seq. induction u as [|x u (tl & IH)].
  - cbn [run length flat_map fst snd]. rewrite run_Lit, app_nil_r, splitAt_unfold.
    destruct (stripPrefix L []); [exists []; reflexivity|exists []; reflexivity].
  - rewrite run_Star_lazy_any. cbn [flat_map fst snd]. rewrite run_Lit, IH.
    rewrite (splitAt_unfold L (x :: u)).
    destruct (stripPrefix L (x :: u)) as [post|].
    + eexists. reflexivity.
    + destruct (splitAt L u) as [[pre post]|]; [exists tl|exists []]; reflexivity.
Qed.

Lemma run_blockComment (s : jsstring) :
  exists tl,
    run reBlockComment s None =
    match stripPrefix (js "/*") s with
    | Some body =>
        match splitAt (js "*/") body with
        | Some (_, post) => (post, None) :: tl
        | None => []
        end
    | None => []
    end.
Proof.
  unfold reBlockComment. rewrite run_Seq, run_Lit.
  destruct (stripPrefix (js "/*") s) as [body|]; [|exists []; reflexivity].
  cbn [flat_map fst snd]. rewrite app_nil_r. apply run_lazy_until.
Qed.

Lemma splitAt_Some (pat s pre post : jsstring) :
  splitAt pat s = Some (pre, post) -> s = pre ++ pat ++ post.
Proof.
  revert pre; induction s as [|c s IH]; intros pre; rewrite splitAt_unfold.
  - destruct (stripPrefix pat []) as [r|] eqn:E; [|discriminate].
    intros [= <- <-]. apply stripPrefix_Some in E. exact E.
  - destruct (stripPrefix pat (c :: s)) as [r|] eqn:E.
    + intros [= <- <-]. apply stripPrefix_Some in E. exact E.
    + destruct (splitAt pat s) as [[pre' post']|]; [|discriminate].
      intros [= <- <-]. cbn [app]. f_equal. apply IH. reflexivity.
Qed.

Lemma includes_false_cons (pat : jsstring) (c : char) (t : jsstring) :
  includes pat (c :: t) = false ->
  stripPrefix pat (c :: t) = None /\ includes pat t = false.
Proof.
  unfold includes. rewrite splitAt_unfold.
  destruct (stripPrefix pat (c :: t)); [discriminate|].
  destruct (splitAt pat t) as [[pre post]|]; [discriminate|auto].
Qed.

Lemma includes_false_drop (pat s : jsstring) (k : nat) :
  pat <> [] -> includes pat s = false -> stripPrefix pat (drop k s) = None.
Proof.
  intros Hpat. revert k; induction s as [|c s IH]; intros k H.
  - rewrite drop_nil. destruct pat; [congruence|reflexivity].
  - apply includes_false_cons in H as [H0 H]. destruct k; [exact H0|]. apply IH, H.
Qed.

Lemma includes_false_suffix (pat a b : jsstring) :
  includes pat (a ++ b) = false -> includes pat b = false.
Proof.
  induction a as [|c a IH]; [exact (fun H => H)|].
  cbn [app]. intros H. apply includes_false_cons in H as [_ H]. exact (IH H).
Qed.

(** A marker of two characters does not start in a text that does not
    hold it, whatever follows, unless what follows starts with its second
    character. *)
Lemma two_char_noMatch (a b x : char) (t rest : jsstring) (j : nat) :
  x <> b -> includes [a; b] t = false -> j < length t ->
  stripPrefix [a; b] (drop j t ++ x :: rest) = None.
Proof.
  intros Hx. revert j; induction t as [|c t IH]; intros j H Hj; [cbn in Hj; lia|].
  apply includes_false_cons in H as [H0 H]. destruct j as [|j].
  - cbn [drop app]. destruct t as [|d t].
    + cbn. destruct (c =? a)%N; [|reflexivity].
      rewrite (proj2 (N.eqb_neq x b) Hx). reflexivity.
    + cbn in H0 |- *. destruct (c =? a)%N; [|reflexivity].
      destruct (d =? b)%N; [discriminate|reflexivity].
  - cbn [drop]. apply IH; [exact H|cbn in Hj; lia].
Qed.

Lemma splitAt_first (a b : char) (body post : jsstring) :
  a <> b ->
  includes [a; b] body = false ->
  splitAt [a; b] (body ++ [a; b] ++ post) = Some (body, post).
Proof.
  intros Hab. induction body as [|c body IH]; intros H.
  - exact (splitAt_here [a; b] post).
  - assert (Hnone : stripPrefix [a; b] (c :: (body ++ [a; b] ++ post)) = None).
    { apply (two_char_noMatch a b a (c :: body) (b :: post) 0 Hab H). cbn; lia. }
    apply includes_false_cons in H as [_ H].
    change ((c :: body) ++ [a; b] ++ post) with (c :: (body ++ [a; b] ++ post)).
    rewrite splitAt_unfold, Hnone, (IH H). reflexivity.
Qed.

(** X19. The comment pass leaves a text as it is when the text holds no
    comment opener, and when it holds no comment closer: an unterminated
    comment stays. *)
Theorem stripBlockComments_unchanged (s : jsstring) :
  includes (js "/*") s = false \/ includes (js "*/") s = false ->
  stripBlockComments s = s.
Proof.
  intros H. apply deleteRegex_none. intros k _.
  destruct (run_blockComment (drop k s)) as [tl ->].
  destruct (stripPrefix (js "/*") (drop k s)) as [body|] eqn:E; [|reflexivity].
  destruct H as [H|H].
  - rewrite (includes_false_drop (js "/*") s k) in E by (discriminate || exact H).
    discriminate.
  - apply stripPrefix_Some in E.
    destruct (splitAt (js "*/") body) as [[pre post]|] eqn:E2; [|reflexivity].
    apply splitAt_Some in E2. exfalso.
    rewrite <- (take_drop k s), E, E2 in H.
    rewrite !app_assoc, <- (app_assoc _ (js "*/") post) in H.
    rewrite includes_intro in H. discriminate.
Qed.

Lemma stripBlockComments_unchanged_witness :
  stripBlockComments (js "a { b: c } /* never closed") = js "a { b: c } /* never closed".
Proof.
  apply stripBlockComments_unchanged. right. vm_compute. reflexivity.
Defined.

(** X20. The comment pass removes a comment: from the first opener of the
    text to the first closer behind it; what stands before is kept, and
    the pass goes on behind the closer. *)
Theorem stripBlockComments_removes (pre body post : jsstring) :
  includes (js "/*") pre = false -> includes (js "*/") body = false ->
  stripBlockComments (pre ++ js "/*" ++ body ++ js "*/" ++ post)
  = pre ++ stripBlockComments post.
Proof.
  intros Hpre Hbody. unfold stripBlockComments.
  rewrite deleteRegex_skip.
  - f_equal. destruct (run_blockComment (js "/*" ++ body ++ js "*/" ++ post)) as [tl Hrun].
    rewrite stripPrefix_app in Hrun.
    pose proof (splitAt_first 42 47 body post) as Hs.
    change [42%N; 47%N] with (js "*/") in Hs.
    rewrite Hs in Hrun by (discriminate || exact Hbody).
    rewrite !app_assoc. rewrite !app_assoc in Hrun.
    apply (deleteRegex_hit _ _ post None tl); [|exact Hrun].
    intros E. apply (f_equal (@length N)) in E. rewrite !length_app in E. cbn in E. lia.
  - intros j Hj. destruct (run_blockComment (drop j pre ++ js "/*" ++ body ++ js "*/" ++ post))
      as [tl ->].
    change (js "/*" ++ body ++ js "*/" ++ post) with (47%N :: 42%N :: body ++ js "*/" ++ post).
    rewrite (two_char_noMatch 47 42 47 pre _ j); [reflexivity|discriminate|exact Hpre|exact Hj].
Qed.

Lemma stripBlockComments_removes_witness :
  stripBlockComments (js "a{b:c}" ++ js "/*" ++ js " note * / " ++ js "*/" ++ js "d{}")
  = js "a{b:c}" ++ stripBlockComments (js "d{}").
Proof.
  apply stripBlockComments_removes; vm_compute; reflexivity.
Defined.

Lemma afterLine_split (s : jsstring) :
  exists w, s = w ++ afterLine s /\ ~ In 10%N w.
Proof.
  induction s as [|c s (w & Hw & Hnl)]; [exists []; split; [reflexivity|intros []]|].
  cbn [afterLine]. destruct (N.eqb_spec c 10) as [->|Hc].
  - exists []. split; [reflexivity|intros []].
  - exists (c :: w). split; [cbn; f_equal; exact Hw|].
    intros [E|H]; [congruence|exact (Hnl H)].
Qed.

Lemma afterLine_app (w rest : jsstring) :
  ~ In 10%N w -> (rest = [] \/ exists t, rest = 10%N :: t) -> afterLine (w ++ rest) = rest.
Proof.
  intros Hw Hrest. induction w as [|c w IH].
  - destruct Hrest as [->|[t ->]]; reflexivity.
  - cbn [app afterLine]. rewrite (proj2 (N.eqb_neq c 10)).
    + apply IH. intros H. apply Hw. right; exact H.
    + intros ->. apply Hw. left; reflexivity.
Qed.

Lemma run_Star_notNL (s : jsstring) (cap : option jsstring) :
  exists tl, run (Star true (notChar 10)) s cap = (afterLine s, cap) :: tl.
Proof.
  induction s as [|c s (tl & IH)]; [exists []; reflexivity|].
  unfold notChar in *. rewrite run_Star_Cls_cons. cbv zeta. cbn [afterLine].
  replace (xorb true (existsb (citem_match c) [CChar 10])) with (negb (c =? 10)%N)
    by (cbn; rewrite orb_false_r; reflexivity).
  destruct (c =? 10)%N; cbn [negb].
  - exists []. reflexivity.
  - rewrite IH. eexists. reflexivity.
Qed.

Lemma run_http_none (s : jsstring) (cap : option jsstring) :
  stripPrefix (js "http:") s = None -> stripPrefix (js "https:") s = None ->
  run (Seq (Lit (js "http")) (Seq (Opt (Chr 115)) (Chr 58))) s cap = [].
Proof.
  change (js "http:") with (js "http" ++ [58%N]).
  change (js "https:") with (js "http" ++ [115%N; 58%N]).
  rewrite !stripPrefix_app_pat, run_Seq, run_Lit.
  destruct (stripPrefix (js "http") s) as [r|]; [|reflexivity].
  intros H1 H2. cbn [flat_map fst snd]. rewrite app_nil_r.
  destruct r as [|x r]; [reflexivity|].
  cbn in H1, H2. cbn -[Nat.ltb].
  destruct (x =? 115)%N eqn:E115; destruct (x =? 58)%N eqn:E58;
    try discriminate; cbn -[Nat.ltb]; try reflexivity.
  - unfold progress. cbn [fst length]. rewrite (proj2 (Nat.ltb_lt _ _)) by lia.
    cbn. rewrite E58. destruct r as [|y r]; [reflexivity|].
    destruct (y =? 58)%N; [discriminate|reflexivity].
  - rewrite E58. reflexivity.
Qed.

Lemma urlAhead_none (rest : jsstring) (cap : option jsstring) :
  urlLaterOnLine rest = false -> run reUrlAhead rest cap = [].
Proof.
  unfold reUrlAhead. rewrite run_Seq.
  induction rest as [|c t IH]; intros H.
  - reflexivity.
  - cbn [urlLaterOnLine] in H.
    destruct (stripPrefix (js "http:") (c :: t)) eqn:E1; [discriminate|].
    destruct (stripPrefix (js "https:") (c :: t)) eqn:E2; [discriminate|].
    unfold notChar in *. rewrite run_Star_Cls_cons. cbv zeta.
    replace (xorb true (existsb (citem_match c) [CChar 10])) with (negb (c =? 10)%N)
      by (cbn; rewrite orb_false_r; reflexivity).
    destruct (c =? 10)%N; cbn [negb app flat_map fst snd].
    + rewrite (run_http_none _ _ E1 E2). reflexivity.
    + rewrite flat_map_app, (IH H). cbn [flat_map fst snd app].
      rewrite (run_http_none _ _ E1 E2). reflexivity.
Qed.

(** Where a line comment is matched, and what is matched. *)
Lemma run_reLineComment (s : jsstring) :
  exists tl,
    run reLineComment s None =
    match stripPrefix (js "//") s with
    | Some rest => if urlLaterOnLine rest then [] else (afterLine rest, None) :: tl
    | None => []
    end.
Proof.
  unfold reLineComment. rewrite run_Seq, run_Lit.
  destruct (stripPrefix (js "//") s) as [rest|]; [|exists []; reflexivity].
  cbn [flat_map fst snd]. rewrite app_nil_r, run_Seq, run_NegLook.
  destruct (urlLaterOnLine rest) eqn:E.
  - pose proof (urlAhead_found rest None E) as H.
    destruct (run reUrlAhead rest None); [congruence|exists []; reflexivity].
  - rewrite (urlAhead_none rest None E). cbn [flat_map fst snd]. rewrite app_nil_r.
    apply run_Star_notNL.
Qed.

Lemma stripPrefix_two (a b : char) (u v : jsstring) :
  2 <= length u -> stripPrefix [a; b] (u ++ v) = None <-> stripPrefix [a; b] u = None.
Proof.
  destruct u as [|c [|d u]]; cbn [length]; try lia. intros _. cbn.
  destruct (c =? a)%N; [|tauto]. destruct (d =? b)%N; [|tauto]. split; discriminate.
Qed.

(** X21. The first pass of [minifyJSContent] removes a line comment: from
    the first [//] of the text, when no [http:] or [https:] follows on its
    line, to the end of the line; the text before it and the line break
    are kept, and the pass goes on with the next line. *)
Theorem stripLineComments_removes (pre body rest : jsstring) :
  includes (js "//") (pre ++ js "/") = false ->
  ~ In 10%N body -> (rest = [] \/ exists t, rest = 10%N :: t) ->
  urlLaterOnLine (body ++ rest) = false ->
  stripLineComments (pre ++ js "//" ++ body ++ rest) = pre ++ stripLineComments rest.
Proof.
  intros Hpre Hbody Hrest Hurl. unfold stripLineComments.
  rewrite deleteRegex_skip.
  - f_equal. destruct (run_reLineComment (js "//" ++ body ++ rest)) as [tl Hrun].
    rewrite stripPrefix_app, Hurl, (afterLine_app body rest Hbody Hrest) in Hrun.
    rewrite !app_assoc. rewrite !app_assoc in Hrun.
    apply (deleteRegex_hit _ _ rest None tl); [|exact Hrun].
    intros E. apply (f_equal (@length N)) in E. rewrite !length_app in E. cbn in E. lia.
  - intros j Hj. destruct (run_reLineComment (drop j pre ++ js "//" ++ body ++ rest))
      as [tl ->].
    replace (stripPrefix (js "//") (drop j pre ++ js "//" ++ body ++ rest))
      with (@None jsstring); [reflexivity|]. symmetry.
    change (js "//" ++ body ++ rest) with (js "/" ++ (47%N :: body ++ rest)).
    rewrite app_assoc, <- drop_app_le by lia.
    apply stripPrefix_two.
    + rewrite length_drop, length_app. cbn. lia.
    + apply includes_false_drop; [discriminate|exact Hpre].
Qed.

Lemma stripLineComments_removes_witness :
  stripLineComments (js "let a = 1; " ++ js "//" ++ js " set a" ++ (10%N :: js "let b;"))
  = js "let a = 1; " ++ stripLineComments (10%N :: js "let b;").
Proof.
  apply stripLineComments_removes.
  - vm_compute. reflexivity.
  - vm_compute. intuition discriminate.
  - right. eauto.
  - vm_compute. reflexivity.
Defined.

(** ** Escaping a selector *)

Lemma run_reMeta (c : char) (t : jsstring) :
  run reMeta (c :: t) None = if inClass metaChars c then [(t, None)] else [].
Proof. unfold reMeta, oneOf. cbn [run]. rewrite existsb_CChar. reflexivity. Qed.

Lemma local_escape (pre m post : jsstring) (caps : list (option jsstring)) :
  expand (js "\$&") pre m post caps = 92%N :: m ++ [].
Proof. reflexivity. Qed.

Lemma escapeSelector_escaped (selector : jsstring) :
  escapeSelector selector = escaped selector.
Proof.
  unfold escapeSelector. induction selector as [|c t IH]; [reflexivity|].
  cbn [escaped flat_map]. fold (escaped t). destruct (inClass metaChars c) eqn:E.
  - change (c :: t) with ([c] ++ t).
    rewrite (localRegex_hit (js "\$&") (fun m _ => 92%N :: m ++ []) local_escape
               reMeta [c] t None []); [|discriminate|].
    + cbn [app]. rewrite IH. reflexivity.
    + cbn [app]. rewrite run_reMeta, E. reflexivity.
  - rewrite (localRegex_cons (js "\$&") (fun m _ => 92%N :: m ++ []) local_escape).
    + rewrite IH. reflexivity.
    + rewrite run_reMeta, E. reflexivity.
Qed.

Lemma inClass_In (P : jsstring) (c : char) : inClass P c = true <-> In c P.
Proof.
  unfold inClass. rewrite existsb_exists. split.
  - intros (p & Hp & E). apply N.eqb_eq in E. subst. exact Hp.
  - intros H. exists c. split; [exact H|apply N.eqb_refl].
Qed.

Lemma inClass_false (P : jsstring) (c k : char) :
  inClass P c = false -> In k P -> (c =? k)%N = false.
Proof.
  intros H Hk. apply N.eqb_neq. intros ->. apply inClass_In in Hk. congruence.
Qed.

Lemma meta_syntax (c : char) : isSyntaxChar c = inClass metaChars c.
Proof.
  destruct (inClass metaChars c) eqn:E.
  - apply inClass_In in E. vm_compute in E.
    repeat (destruct E as [<-|E]; [reflexivity|]). destruct E.
  - destruct (isSyntaxChar c) eqn:S; [|reflexivity].
    apply (inClass_In syntaxChars) in S. vm_compute in S.
    repeat (destruct S as [<-|S]; [discriminate E|]). destruct S.
Qed.

Lemma parseAtom_escaped (c : char) (rest : jsstring) :
  parseAtom ((if inClass metaChars c then [92%N; c] else [c]) ++ rest) = Ok (Chr c, rest).
Proof.
  destruct (inClass metaChars c) eqn:E.
  - cbn [app parseAtom]. change (92 =? 92)%N with true. cbv iota.
    assert (H115 : (c =? 115)%N = false).
    { apply N.eqb_neq. intros ->. discriminate E. }
    rewrite H115, meta_syntax, E. reflexivity.
  - cbn [app parseAtom].
    rewrite (inClass_false metaChars c 92 E) by (vm_compute; tauto).
    rewrite (inClass_false metaChars c 91 E) by (vm_compute; tauto).
    rewrite (inClass_false metaChars c 123 E) by (vm_compute; tauto).
    rewrite (inClass_false metaChars c 125 E) by (vm_compute; tauto).
    rewrite (inClass_false metaChars c 93 E) by (vm_compute; tauto).
    rewrite meta_syntax, E. reflexivity.
Qed.

Lemma escaped_head (t tail : jsstring) (q0 : char) (tail' : jsstring) :
  tail = q0 :: tail' -> q0 <> 42%N ->
  exists q rest, escaped t ++ tail = q :: rest /\ (q =? 42)%N = false.
Proof.
  intros -> Hq. destruct t as [|d t].
  - exists q0, tail'. split; [reflexivity|apply N.eqb_neq, Hq].
  - cbn [escaped flat_map]. destruct (inClass metaChars d) eqn:E.
    + eexists _, _. split; [reflexivity|reflexivity].
    + eexists _, _. split; [reflexivity|].
      apply (inClass_false metaChars d 42 E). vm_compute. tauto.
Qed.

Lemma escaped_length (t : jsstring) : length t <= length (escaped t).
Proof.
  induction t as [|c t IH]; [reflexivity|]. cbn [escaped flat_map]. fold (escaped t).
  rewrite length_app. destruct (inClass metaChars c); cbn [length]; lia.
Qed.

(** An escaped text parses as the sequence of its characters. *)
Lemma parseTerms_escaped (tail : jsstring) (tailRe : regex) (q0 : char) (tail' : jsstring) :
  tail = q0 :: tail' -> q0 <> 42%N ->
  (forall fuel, length tail <= fuel -> parseTerms fuel tail = Ok tailRe) ->
  forall selector fuel,
    length (escaped selector ++ tail) <= fuel ->
    parseTerms fuel (escaped selector ++ tail)
    = Ok (fold_right (fun c r => Seq (Chr c) r) tailRe selector).
Proof.
  intros Htail Hq Hparse. induction selector as [|c t IH]; intros fuel Hlen.
  - apply Hparse. exact Hlen.
  - cbn [escaped flat_map] in *. fold (escaped t) in *. rewrite <- app_assoc in *.
    set (atom := if inClass metaChars c then [92%N; c] else [c]) in *.
    assert (Hatom : 1 <= length atom) by (unfold atom; destruct (inClass metaChars c); cbn; lia).
    rewrite length_app in Hlen.
    destruct fuel as [|fuel]; [lia|].
    destruct (atom ++ escaped t ++ tail) as [|x xs] eqn:Esrc.
    { apply (f_equal (@length N)) in Esrc. rewrite length_app in Esrc. cbn in Esrc. lia. }
    cbn [parseTerms]. rewrite <- Esrc. unfold atom. rewrite parseAtom_escaped.
    cbn [bindRes].
    destruct (escaped_head t tail q0 tail' Htail Hq) as (q & rest & Erest & Hq').
    rewrite Erest, Hq', <- Erest, IH by lia. reflexivity.
Qed.

Lemma parseTerms_ruleTail (fuel : nat) :
  length (js "\s*{[^}]*}") <= fuel -> parseTerms fuel (js "\s*{[^}]*}") = Ok ruleTail.
Proof.
  intros H. do 10 (destruct fuel as [|fuel]; [cbn in H; lia|]). reflexivity.
Qed.

Lemma newRegExp_escaped (selector : jsstring) :
  newRegExp (escapeSelector selector ++ js "\s*{[^}]*}") = Ok (ruleRe selector).
Proof.
  unfold newRegExp. rewrite escapeSelector_escaped.
  apply (parseTerms_escaped (js "\s*{[^}]*}") ruleTail 92 (js "s*{[^}]*}"));
    [reflexivity|discriminate|exact parseTerms_ruleTail|reflexivity].
Qed.

(** X22. Escaping makes every selector a literal: for any selector text the
    pattern that the loop builds is accepted by [new RegExp], it matches
    the selector as written, white space and a block in braces, and the
    loop step appends the blocks found without throwing. *)
Theorem escaped_selector_is_literal (selector fullCSS criticalCSS : jsstring) :
  escapeSelector selector = escaped selector /\
  newRegExp (escapeSelector selector ++ js "\s*{[^}]*}") = Ok (ruleRe selector) /\
  extractSelector fullCSS criticalCSS selector
  = Ok (criticalCSS ++ join (matchList (ruleRe selector) fullCSS)).
Proof.
  split; [apply escapeSelector_escaped|]. split; [apply newRegExp_escaped|].
  unfold extractSelector. rewrite newRegExp_escaped. cbn [bindRes].
  apply (matchRegex_join Ok).
Qed.

(** ** Dollar patterns in the critical CSS *)

Lemma expand_app_plain (x y pre m post : jsstring) (caps : list (option jsstring)) :
  ~ In 36%N x -> expand (x ++ y) pre m post caps = x ++ expand y pre m post caps.
Proof.
  induction x as [|c x IH]; intros H; [reflexivity|].
  cbn [app expand]. destruct (N.eqb_spec c 36) as [->|Hc].
  - exfalso. apply H. left; reflexivity.
  - cbn [negb]. rewrite IH; [reflexivity|]. intros Hin. apply H. right; exact Hin.
Qed.

(** X23. The critical CSS is part of a replacement template, so [replace]
    expands the dollar patterns in it: in the inlined style block [$$]
    becomes one dollar sign, [$&] the marker [</head>], and [$`] and [$']
    the whole page before, or after, the marker. *)
Theorem inlineCriticalCSS_expands_dollar
        (a b html pre post : jsstring) (d : char) (sub : jsstring) :
  splitAt headClose html = Some (pre, post) ->
  ~ In 36%N a -> ~ In 36%N b ->
  In (d, sub) [(36%N, js "$"); (38%N, headClose); (96%N, pre); (39%N, post)] ->
  inlineCriticalCSS (a ++ [36%N; d] ++ b) html
  = pre ++ js "    <style>" ++ a ++ sub ++ b ++ js "</style>" ++ nl ++ headClose ++ post.
Proof.
  intros Hsplit Ha Hb Hd. unfold inlineCriticalCSS, replaceString. rewrite Hsplit.
  assert (Hrest : expand (b ++ js "</style>" ++ nl ++ js "</head>") pre headClose post []
                  = b ++ js "</style>" ++ nl ++ js "</head>").
  { rewrite expand_app_plain by exact Hb. reflexivity. }
  assert (Hexp : expand (styleTemplate (a ++ [36%N; d] ++ b)) pre headClose post []
                 = js "    <style>" ++ a ++ sub ++ b ++ js "</style>" ++ nl ++ headClose).
  { unfold styleTemplate.
    rewrite expand_app_plain by (vm_compute; intuition discriminate). f_equal.
    rewrite <- !app_assoc. rewrite expand_app_plain by exact Ha. f_equal.
    change ([36%N; d] ++ b ++ js "</style>" ++ nl ++ js "</head>")
      with (36%N :: d :: (b ++ js "</style>" ++ nl ++ js "</head>")).
    destruct Hd as [E|[E|[E|[E|[]]]]]; injection E as <- <-;
      cbn [expand]; cbn [N.eqb Pos.eqb negb]; rewrite Hrest; reflexivity. }
  rewrite Hexp, <- !app_assoc. reflexivity.
Qed.

Lemma inlineCriticalCSS_expands_dollar_witness :
  inlineCriticalCSS (js "a::after{content:'" ++ [36%N; 38%N] ++ js "'}")
                    (js "<head>" ++ headClose ++ js "<body>")
  = js "<head>" ++ js "    <style>" ++ js "a::after{content:'" ++ headClose ++ js "'}"
       ++ js "</style>" ++ nl ++ headClose ++ js "<body>".
Proof.
  apply (inlineCriticalCSS_expands_dollar _ _ _ (js "<head>") (js "<body>") 38 headClose).
  - vm_compute. reflexivity.
  - vm_compute. intuition discriminate.
  - vm_compute. intuition discriminate.
  - right; left; reflexivity.
Defined.

(** ** The minifiers do not lengthen *)

Lemma delete_shorter_lt (r : regex) (n : nat) (s : jsstring) :
  length s < n -> length (replaceRegex r [] s) <= length s.
Proof.
  revert s; induction n as [|n IH]; intros s Hlen; [lia|].
  rewrite deleteRegex_unfold. destruct (exec r 0 s) as [res|] eqn:E; [|lia].
  apply exec_bounds in E as [_ Hhi]. cbn [Nat.add] in Hhi.
  rewrite length_app, length_take.
  destruct (matched res) as [|m0 m] eqn:Em.
  - destruct (drop (index res) s) as [|c s'] eqn:Ed; [cbn; lia|].
    apply (f_equal (@length N)) in Ed. rewrite length_drop in Ed. cbn [length] in *.
    pose proof (IH s' ltac:(lia)). lia.
  - cbn [length] in *.
    pose proof (IH (drop (index res + S (length m)) s)
                   ltac:(rewrite length_drop; lia)) as H.
    rewrite length_drop in H. lia.
Qed.

Lemma delete_shorter (r : regex) (s : jsstring) :
  length (replaceRegex r [] s) <= length s.
Proof. apply (delete_shorter_lt r (S (length s))). lia. Qed.

Lemma spaces_shorter (n : nat) (s : jsstring) :
  length s <= n -> length (replaceRegex reSpaces (js " ") s) <= length s.
Proof.
  revert s; induction n as [|n IH]; intros s Hlen.
  - destruct s; [|cbn in Hlen; lia]. rewrite spaces_nil. reflexivity.
  - destruct s as [|c t]; [rewrite spaces_nil; reflexivity|].
    cbn [length] in *. rewrite spaces_cons. destruct (isSpace c); cbn [length].
    + pose proof (trimStart_length t). pose proof (IH (trimStart t) ltac:(lia)). lia.
    + pose proof (IH t ltac:(lia)). lia.
Qed.

Lemma punct_shorter (P : jsstring) (n : nat) (s : jsstring) :
  (forall c, inClass P c = true -> isSpace c = false) ->
  length s <= n -> length (punctPass P s) <= length s.
Proof.
  intros HP. revert s; induction n as [|n IH]; intros s Hlen.
  - destruct s; [|cbn in Hlen; lia]. rewrite (punct_nil P HP). reflexivity.
  - destruct s as [|c t]; [rewrite (punct_nil P HP); reflexivity|]. cbn [length] in Hlen.
    destruct (trimStart (c :: t)) as [|p rest] eqn:Et.
    + rewrite (punct_miss P HP) by (intros p rest; rewrite Et; discriminate).
      cbn [length]. pose proof (IH t ltac:(lia)). lia.
    + destruct (inClass P p) eqn:Ep.
      * rewrite (punct_hit P HP (c :: t) p rest Et Ep).
        pose proof (trimStart_length (c :: t)) as H1. rewrite Et in H1.
        pose proof (trimStart_length rest) as H2. cbn [length] in *.
        pose proof (IH (trimStart rest) ltac:(lia)). lia.
      * rewrite (punct_miss P HP).
        -- cbn [length]. pose proof (IH t ltac:(lia)). lia.
        -- intros p' rest'. rewrite Et. intros [= <- <-]. exact Ep.
Qed.

Lemma semi_shorter (n : nat) (s : jsstring) :
  length s <= n -> length (replaceRegex reSemiBrace (js "}") s) <= length s.
Proof.
  revert s; induction n as [|n IH]; intros s Hlen.
  - destruct s; [|cbn in Hlen; lia]. rewrite semi_nil. reflexivity.
  - destruct s as [|c t]; [rewrite semi_nil; reflexivity|]. cbn [length] in Hlen.
    destruct (stripPrefix (js ";}") (c :: t)) as [rest|] eqn:E.
    + apply stripPrefix_Some in E.
      change (js ";}" ++ rest) with (59%N :: 125%N :: rest) in E.
      injection E as -> ->. rewrite semi_hit. cbn [length] in *.
      pose proof (IH rest ltac:(lia)). lia.
    + rewrite (semi_miss c t E). cbn [length]. pose proof (IH t ltac:(lia)). lia.
Qed.

Lemma trim_shorter (s : jsstring) : length (trim s) <= length s.
Proof.
  destruct (trim_middle s) as (w1 & w2 & E). rewrite E at 2. rewrite !length_app. lia.
Qed.

(** X24. Neither minifier lengthens a text: each pass deletes, or puts
    one character for one or more. *)
Theorem minify_never_longer (s : jsstring) :
  length (minifyCSSContent s) <= length s /\ length (minifyJSContent s) <= length s.
Proof.
  split.
  - rewrite minifyCSSContent_passes.
    etransitivity; [apply trim_shorter|].
    etransitivity; [apply (semi_shorter _ _ (Nat.le_refl _))|].
    etransitivity; [apply (punct_shorter cssPunct _ _ cssPunct_noSpace (Nat.le_refl _))|].
    etransitivity; [apply (spaces_shorter _ _ (Nat.le_refl _))|].
    apply delete_shorter.
  - rewrite minifyJSContent_passes.
    etransitivity; [apply trim_shorter|].
    etransitivity; [apply (punct_shorter jsPunct _ _ jsPunct_noSpace (Nat.le_refl _))|].
    etransitivity; [apply (spaces_shorter _ _ (Nat.le_refl _))|].
    etransitivity; [apply delete_shorter|].
    apply delete_shorter.
Qed.

(** ** The rewriter and the extractor as stages *)

(** X25. On a document of well-formed chunks, with critical CSS that holds
    no [<] and no [$], the six replacements of the rewriter come to this:
    every per-file stylesheet tag and every script line is dropped, the
    style block and then the preload lines are put before the first
    [</head>], the bundle script before the first [</body>] and the
    performance tags behind the first author tag; all other text stays. *)
Theorem productionHTML_by_chunks (css : jsstring) (items : list item) :
  wfDoc items -> plainCSS css ->
  productionHTML css (render items) =
  render (insertAfter isAuthorMeta metaBlock
            (insertBefore isBodyClose scriptBlock
               (List.filter (fun it => negb (isScriptLine it))
                  (insertBefore isHeadClose preloadBlock
                     (insertBefore isHeadClose (styleBlock css)
                        (List.filter (fun it => negb (isLinkTag it)) items)))))).
Proof. intros Hwf Hcss. apply productionHTML_items; assumption. Qed.

Lemma productionHTML_by_chunks_witness :
  productionHTML (js "a{}") (render sampleDoc) =
  render (insertAfter isAuthorMeta metaBlock
            (insertBefore isBodyClose scriptBlock
               (List.filter (fun it => negb (isScriptLine it))
                  (insertBefore isHeadClose preloadBlock
                     (insertBefore isHeadClose (styleBlock (js "a{}"))
                        (List.filter (fun it => negb (isLinkTag it)) sampleDoc)))))).
Proof.
  apply productionHTML_by_chunks; [exact sampleDoc_wf|].
  split; vm_compute; intuition discriminate.
Defined.

(** X26. [extractCriticalCSS] does not throw of itself: with the minified
    style sheet a regular file, its directory in place and no directory at
    the path of the critical CSS, it returns, and its one change is that
    [critical.min.css] holds the blocks found; without the minified style
    sheet, and with no regular file standing above its path, it throws
    ENOENT and changes nothing. *)
Theorem extractCriticalCSS_stage (fs : fileSystem) :
  (forall css, fs !! stylesMin = Some (File css) ->
     fs !! pathJoin [outputDir; js "css"] = Some Dir -> fs !! criticalMin <> Some Dir ->
     extractCriticalCSS fs = (Ok tt, <[criticalMin := File (join (emitted css))]> fs)) /\
  (fs !! stylesMin = None -> noFileOnPath fs stylesMin ->
   extractCriticalCSS fs = (Throw (ENOENT stylesMin), fs)).
Proof.
  split.
  - intros css Hcss Hdir Hcrit. unfold extractCriticalCSS. fold stylesMin criticalMin.
    rewrite (bind_run _ _ _ _ _ (readFileSync_run _ _ _ Hcss)).
    unfold liftRes, bind at 1. rewrite criticalCSSOf_emitted.
    apply writeFileSync_run; [exact Hcrit|]. intros d [= <-]. exact Hdir.
  - intros Hmiss Hwalk. unfold extractCriticalCSS. fold stylesMin.
    unfold bind at 1, readFileSync.
    rewrite Hmiss, (missing_ENOENT _ _ _ Hwalk). reflexivity.
Qed.

Lemma extractCriticalCSS_stage_witness :
  let fs : fileSystem :=
    <[stylesMin := File (js "body{margin:0}a{b:c}")]>
      (<[js "dist/css" := Dir]> (<[js "dist" := Dir]> ∅)) in
  extractCriticalCSS fs
  = (Ok tt, <[criticalMin := File (join (emitted (js "body{margin:0}a{b:c}")))]> fs) /\
  extractCriticalCSS ∅ = (Throw (ENOENT stylesMin), ∅).
Proof.
  intros fs. split.
  - apply (proj1 (extractCriticalCSS_stage fs)).
    + vm_compute. reflexivity.
    + vm_compute. reflexivity.
    + vm_compute. discriminate.
  - apply (proj2 (extractCriticalCSS_stage ∅)); [reflexivity|].
    apply noFileOnPath_decide. vm_compute. reflexivity.
Defined.

(** ** A second copy changes nothing *)

Lemma under_entry_untouched (dest i j k : jsstring) :
  entryName i = true -> entryName j = true -> i <> j ->
  under (dest ++ slash ++ i) k -> ~ touches (dest ++ slash ++ j) k.
Proof.
  intros Hi Hj Hne [->|[r ->]].
  - pose proof (target_untouched dest i j [] Hi Hj Hne (or_introl eq_refl)) as H.
    rewrite app_nil_r in H. exact H.
  - rewrite <- !app_assoc. apply target_untouched; eauto.
Qed.

Lemma sameOff_copyItems_entries (fuel : nat) (src dest : jsstring) (l : list jsstring) :
  Keeps (sameOff (fun k => exists j, In j l /\ touches (dest ++ slash ++ j) k))
        (forEach l (copyItem (copyDirectory fuel) src dest)).
Proof.
  apply Keeps_forEach_In; [apply sameOff_refl|apply sameOff_trans|].
  intros j Hj. eapply Keeps_mono; [|apply sameOff_copyItem_entry].
  intros x y. apply sameOff_mono. intros k Hk. eauto.
Qed.

Lemma grows_copyItems (fuel : nat) (src dest : jsstring) (l : list jsstring) :
  Keeps grows (forEach l (copyItem (copyDirectory fuel) src dest)).
Proof.
  apply (Keeps_forEach grows grows_refl grows_trans).
  intros j. apply (Keeps_copyItem grows grows_refl grows_trans grows_writeFileSync).
  apply grows_copyDirectory.
Qed.

Section CopyAgain.

Variable fuel : nat.
Hypothesis IH : forall src dest s s' t,
    disjointTrees src dest -> dest <> [] ->
    copyDirectory fuel src dest s = (Ok tt, s') ->
    (forall k, under src k -> t !! k = s !! k) ->
    (forall k, under dest k -> t !! k = s' !! k) ->
    copyDirectory fuel src dest t = (Ok tt, t).

Variables src dest : jsstring.
Hypothesis Hdis : disjointTrees src dest.

Lemma copyItems_again (l : list jsstring) (s0 sj s' t : fileSystem) :
  List.NoDup l -> Forall (fun i => entryName i = true) l ->
  (forall k, under src k -> sj !! k = s0 !! k) ->
  forEach l (copyItem (copyDirectory fuel) src dest) sj = (Ok tt, s') ->
  (forall k, under src k -> t !! k = s0 !! k) ->
  (forall k, under dest k -> t !! k = s' !! k) ->
  forEach l (copyItem (copyDirectory fuel) src dest) t = (Ok tt, t).
Proof.
  intros Hnd; revert sj; induction Hnd as [|i l Hnot Hnd IHl];
    intros sj Hl Hsj Hrun Hsrc Hdest; [reflexivity|].
  apply List.Forall_cons_iff in Hl as [Hi Hl].
  cbn [forEach] in Hrun. apply bind_Ok in Hrun as ([] & s1 & Hstep & Hrest).
  assert (Hoff : forall k, under (dest ++ slash ++ i) k -> s' !! k = s1 !! k).
  { intros k Hk.
    refine (Keeps_run _ _ _ _ _ (sameOff_copyItems_entries fuel src dest l) Hrest k _).
    intros (j & Hj & Ht).
    assert (Hj' : entryName j = true)
      by (rewrite List.Forall_forall in Hl; exact (Hl j Hj)).
    assert (Hne : i <> j) by (intros ->; exact (Hnot Hj)).
    exact (under_entry_untouched dest i j k Hi Hj' Hne Hk Ht). }
  assert (Hs1 : forall k, under src k -> s1 !! k = s0 !! k).
  { intros k Hk. rewrite <- (Hsj k Hk).
    apply (sameOff_source src dest); [exact Hdis| |exact Hk].
    refine (Keeps_run _ _ _ _ _ _ Hstep). apply sameOff_copyItem.
    intros a b. apply sameOff_copyDirectory. }
  assert (Hgrow : grows s1 s')
    by exact (Keeps_run _ _ _ _ _ (grows_copyItems fuel src dest l) Hrest).
  assert (Hu : under src (src ++ slash ++ i)) by (right; eauto).
  assert (Hstep2 : copyItem (copyDirectory fuel) src dest i t = (Ok tt, t)).
  { unfold copyItem in *. rewrite !pathJoin2 in *.
    unfold bind at 1, isDirectory in Hstep. unfold bind at 1, isDirectory.
    rewrite (Hsrc _ Hu). rewrite (Hsj _ Hu) in Hstep.
    destruct (s0 !! (src ++ slash ++ i)) as [[c|]|] eqn:E; [| |discriminate].
    - unfold copyFileSync, bind, readFileSync in *.
      rewrite (Hsrc _ Hu), E. rewrite (Hsj _ Hu), E in Hstep.
      apply writeFileSync_Ok in Hstep as (-> & _ & Hpar).
      assert (Ht : t !! (dest ++ slash ++ i) = Some (File c)).
      { rewrite Hdest by (right; eauto). rewrite Hoff by (left; reflexivity).
        apply lookup_insert_eq. }
      rewrite writeFileSync_run.
      + rewrite insert_id by exact Ht. reflexivity.
      + congruence.
      + intros d Hd. pose proof (Hpar d Hd) as Hdir.
        apply entryName_spec in Hi as [_ Hslash].
        rewrite (dirname_entry dest i Hslash) in Hd. injection Hd as <-.
        rewrite Hdest by (left; reflexivity). apply (grows_dir _ _ _ Hgrow).
        rewrite lookup_insert_ne; [exact Hdir|].
        intros Eq. apply (f_equal (@length N)) in Eq. rewrite !length_app in Eq.
        cbn in Eq. lia.
    - apply (IH _ _ sj s1 t); [apply disjointTrees_join, Hdis| |exact Hstep| |].
      + intros H. apply app_eq_nil in H as [_ H]. discriminate.
      + intros k Hk. pose proof (under_join _ _ _ Hk) as Hk'.
        rewrite (Hsrc k Hk'), (Hsj k Hk'). reflexivity.
      + intros k Hk. rewrite <- (Hoff k Hk). apply Hdest.
        destruct Hk as [->|[r ->]]; right; [eauto|].
        exists (i ++ slash ++ r). rewrite <- !app_assoc. reflexivity. }
  cbn [forEach]. rewrite (bind_run _ _ _ _ _ Hstep2).
  exact (IHl s1 Hl Hs1 Hrest Hsrc Hdest).
Qed.

End CopyAgain.

(** A copy that returned, run again where the source tree and what is
    at and below the destination are as the first run left them,
    returns and changes nothing. *)
Lemma copyDirectory_again (fuel : nat) (src dest : jsstring) (s s' t : fileSystem) :
  disjointTrees src dest -> dest <> [] ->
  copyDirectory fuel src dest s = (Ok tt, s') ->
  (forall k, under src k -> t !! k = s !! k) ->
  (forall k, under dest k -> t !! k = s' !! k) ->
  copyDirectory fuel src dest t = (Ok tt, t).
Proof.
  revert src dest s s' t; induction fuel as [|fuel IH];
    intros src dest s s' t Hdis Hne Hrun Hsrc Hdest; [discriminate|].
  cbn [copyDirectory] in *.
  apply bind_Ok in Hrun as (e & s00 & He & Hrun). injection He as <- <-.
  apply bind_Ok in Hrun as ([] & s0 & Hmk & Hrun).
  apply bind_Ok in Hrun as (items & s0' & Hread & Hrun).
  pose proof (readdirSync_Ok _ _ _ _ Hread) as [-> Hsrcdir].
  assert (Hag0 : forall k, under src k -> s0 !! k = s !! k).
  { apply (sameOff_source src dest); [exact Hdis|].
    destruct (s !! dest) eqn:E; cbn [negb] in Hmk.
    - injection Hmk as <-. apply sameOff_refl.
    - pose proof (sameOff_mkdirSync dest s) as H. rewrite Hmk in H.
      eapply sameOff_mono; [|exact H]. intros k Hk. right; exact Hk. }
  assert (Hpresent : is_Some (t !! dest)).
  { rewrite Hdest by (left; reflexivity).
    apply (grows_present s0);
      [exact (Keeps_run _ _ _ _ _ (grows_copyItems fuel src dest items) Hrun)|].
    destruct (s !! dest) as [n|] eqn:E; cbn [negb] in Hmk.
    - injection Hmk as <-. eauto.
    - rewrite (mkdirSync_dir dest s s0 Hne Hmk). eauto. }
  assert (Hsrc0 : forall k, under src k -> t !! k = s0 !! k).
  { intros k Hk. rewrite (Hag0 k Hk). apply Hsrc, Hk. }
  unfold bind at 1. unfold existsSync at 1. destruct Hpresent as [n Hn].
  rewrite Hn. cbn [negb]. unfold bind at 1. unfold ret at 1.
  assert (Hread2 : readdirSync src t = (Ok items, t)).
  { pose proof (readdirSync_agree src s0 t Hsrc0 Hsrcdir) as Hfst.
    rewrite Hread in Hfst. cbn [fst] in Hfst.
    unfold readdirSync in *. rewrite (Hsrc0 src) by (left; reflexivity).
    rewrite (Hsrc0 src) in Hfst by (left; reflexivity).
    rewrite Hsrcdir in *. cbn [fst] in Hfst. injection Hfst as ->. reflexivity. }
  rewrite (bind_run _ _ _ _ _ Hread2).
  apply (copyItems_again fuel IH src dest Hdis items s0 s0 s' t);
    [exact (readdirSync_NoDup _ _ _ _ Hread)| |auto|exact Hrun|exact Hsrc0|exact Hdest].
  apply List.Forall_forall. intros i Hi.
  apply (readdirSync_spec _ _ _ _ i Hread) in Hi as [Hi _]. exact Hi.
Qed.

Lemma assets_target_not_fonts (k : jsstring) :
  under (js "dist/assets") k -> ~ touches (js "dist/fonts") k.
Proof.
  intros [->|[r ->]] [[r' E]|H].
  - vm_compute in E. discriminate E.
  - vm_compute in H. destruct H as [H|[H|[]]]; discriminate H.
  - vm_compute in E. discriminate E.
  - vm_compute in H. destruct H as [H|[H|[]]]; discriminate H.
Qed.

Lemma copyAssets_again (fuel : nat) (s s' t : fileSystem) :
  copyAssets fuel s = (Ok tt, s') ->
  (forall k, assetSource k -> t !! k = s !! k) ->
  (forall k, under (js "dist/assets") k \/ under (js "dist/fonts") k ->
             t !! k = s' !! k) ->
  copyAssets fuel t = (Ok tt, t).
Proof.
  intros Hrun Hsrc Hdest. unfold copyAssets in *.
  change (pathJoin [outputDir; js "assets"]) with (js "dist/assets") in *.
  change (pathJoin [outputDir; js "fonts"]) with (js "dist/fonts") in *.
  apply bind_Ok in Hrun as (e & s0 & He & Hrun). injection He as <- <-.
  apply bind_Ok in Hrun as ([] & s1 & H1 & Hrun).
  apply bind_Ok in Hrun as (e' & s2 & He' & H2). injection He' as <- <-.
  assert (Hoff1 : sameOff (touches (js "dist/assets")) s s1).
  { destruct (s !! js "assets").
    - exact (Keeps_run _ _ _ _ _ (sameOff_copyDirectory fuel _ _) H1).
    - injection H1 as <-. apply sameOff_refl. }
  assert (Hoff2 : sameOff (touches (js "dist/fonts")) s1 s').
  { destruct (s1 !! js "fonts").
    - exact (Keeps_run _ _ _ _ _ (sameOff_copyDirectory fuel _ _) H2).
    - injection H2 as <-. apply sameOff_refl. }
  assert (Hfonts : forall k, under (js "fonts") k -> t !! k = s1 !! k).
  { intros k Hk.
    assert (Hnt : ~ touches (js "dist/assets") k)
      by (apply (disjointTrees_head 102 100 (js "onts") (js "ist/assets"));
          [discriminate..|exact Hk]).
    rewrite (Hoff1 k Hnt). apply Hsrc. right; exact Hk. }
  assert (S1 : (if match t !! js "assets" with Some _ => true | None => false end
                then copyDirectory fuel (js "assets") (js "dist/assets")
                else ret tt) t = (Ok tt, t)).
  { rewrite (Hsrc (js "assets")) by (left; left; reflexivity).
    destruct (s !! js "assets"); [|reflexivity].
    apply (copyDirectory_again fuel _ _ s s1 t);
      [apply (disjointTrees_head 97 100); discriminate|discriminate|exact H1| |].
    - intros k Hk. apply Hsrc. left; exact Hk.
    - intros k Hk. rewrite <- (Hoff2 k (assets_target_not_fonts k Hk)).
      apply Hdest. left; exact Hk. }
  unfold bind at 1. unfold existsSync at 1. unfold bind at 1. rewrite S1.
  unfold bind at 1. unfold existsSync at 1.
  rewrite (Hfonts (js "fonts")) by (left; reflexivity).
  destruct (s1 !! js "fonts"); [|reflexivity].
  apply (copyDirectory_again fuel _ _ s1 s' t);
    [apply (disjointTrees_head 102 100); discriminate|discriminate|exact H2
    |exact Hfonts|].
  intros k Hk. apply Hdest. right; exact Hk.
Qed.

(** ** A second build changes nothing *)

(** X27. A build that returned, run again on the file system it left,
    returns and leaves every entry as it was: the directories are there,
    the bundles, the critical styles and the page are written with the
    text they hold, and every asset is copied onto its own copy. *)
Theorem build_twice_changes_nothing (fuel : nat) (fs fs1 : fileSystem) :
  build fuel fs = (Ok tt, fs1) -> build fuel fs1 = (Ok tt, fs1).
Proof.
  intros H. unfold build in H.
  apply bind_Ok in H as ([] & a & H1 & H).
  apply bind_Ok in H as ([] & b & H2 & H).
  apply bind_Ok in H as ([] & c & H3 & H).
  apply bind_Ok in H as ([] & d & H4 & H).
  apply bind_Ok in H as ([] & e & H5 & H6).
  destruct (build_grows fuel a b c d e fs1 H2 H3 H4 H5 H6) as (Gab & Gbc & Gcd & Gde & Ge1).
  pose proof (build_sources fuel a b c d e fs1 H2 H3 H4 H5 H6) as Hsrc.
  destruct (build_artifacts fuel a b c d e fs1 H2 H3 H4 H5 H6)
    as (cssText & jsText & crit & html & Hcss & Hjs & Hcrit & Hhtml & K2 & K3 & K4 & Efs1).
  assert (Gb1 : grows b fs1) by eauto using grows_trans.
  assert (Ga1 : grows a fs1) by eauto using grows_trans.
  rewrite createOutputDirectory_ensure in H1.
  apply forEach_ensureDir in H1; [|repeat constructor; discriminate].
  assert (S1 : createOutputDirectory fs1 = (Ok tt, fs1)).
  { rewrite createOutputDirectory_ensure. apply forEach_ensureDir_again.
    revert H1. apply List.Forall_impl. intros p. apply grows_present, Ga1. }
  assert (Dcss : fs1 !! js "dist/css" = Some Dir).
  { apply minifyCSS_Ok in H2 as (? & _ & _ & D). exact (grows_dir _ _ _ Ga1 D). }
  assert (Djs : fs1 !! js "dist/js" = Some Dir).
  { apply minifyJavaScript_Ok in H3 as (? & _ & _ & D). exact (grows_dir _ _ _ Gb1 D). }
  assert (Ddist : fs1 !! js "dist" = Some Dir).
  { apply updateHTMLForProduction_Ok in H6 as (? & ? & _ & _ & _ & D).
    exact (grows_dir _ _ _ Ge1 D). }
  assert (S2 : minifyCSS fs1 = (Ok tt, fs1)).
  { apply (minifyCSS_again fs1 cssText); [|exact K2|exact Dcss].
    rewrite <- Hcss. apply combineFiles_agree.
    unfold cssFiles; cbn [map]; repeat constructor;
      apply Hsrc, sourcePath_decide; vm_compute; reflexivity. }
  assert (S3 : minifyJavaScript fs1 = (Ok tt, fs1)).
  { apply (minifyJavaScript_again fs1 jsText); [|exact K3|exact Djs].
    rewrite <- Hjs. apply combineFiles_agree.
    unfold jsFiles; cbn [map]; repeat constructor;
      apply Hsrc, sourcePath_decide; vm_compute; reflexivity. }
  assert (S4 : extractCriticalCSS fs1 = (Ok tt, fs1)).
  { exact (extractCriticalCSS_again fs1 _ crit K2 Hcrit K4 Dcss). }
  assert (S5 : copyAssets fuel fs1 = (Ok tt, fs1)).
  { apply (copyAssets_again fuel d e fs1 H5).
    - intros k Hk. apply Hsrc, assetSource_sourcePath, Hk.
    - intros k Hk. rewrite Efs1. apply lookup_insert_ne.
      destruct Hk as [[->|[r ->]]|[->|[r ->]]]; neq. }
  assert (K6 : fs1 !! indexOut = Some (File (productionHTML crit html)))
    by (rewrite Efs1 at 1; apply lookup_insert_eq).
  assert (S6 : updateHTMLForProduction fs1 = (Ok tt, fs1)).
  { rewrite (updateHTMLForProduction_run fs1 html crit).
    - rewrite insert_id by exact K6. reflexivity.
    - rewrite Efs1, lookup_insert_ne by neq. exact Hhtml.
    - exact K4.
    - rewrite K6. discriminate.
    - exact Ddist. }
  unfold build.
  rewrite (bind_run _ _ _ _ _ S1), (bind_run _ _ _ _ _ S2), (bind_run _ _ _ _ _ S3),
    (bind_run _ _ _ _ _ S4), (bind_run _ _ _ _ _ S5). exact S6.
Qed.

Lemma build_twice_changes_nothing_witness :
  build 3 smallSite = (Ok tt, snd (build 3 smallSite)) /\
  build 3 (snd (build 3 smallSite)) = (Ok tt, snd (build 3 smallSite)).
Proof.
  assert (H : build 3 smallSite = (Ok tt, snd (build 3 smallSite)))
    by (vm_compute; reflexivity).
  split; [exact H|].
  exact (build_twice_changes_nothing 3 smallSite (snd (build 3 smallSite)) H).
Defined.
